(** * Order extraction of monarch-amazon-sync: the Amazon and Walmart providers

    A shallow embedding of [src/shared/api/amazonApi.ts] and of the Walmart
    provider (a subclass of [Provider] from [providerApi.ts]), and the
    properties of the auth probe, of the listing and detail extraction and of
    the order pipeline.

    Conventions of the embedding.
    - A JavaScript string is a [string]; characters are code units below 256.
    - A JavaScript number is a [number]: NaN, an infinity, or an exact
      rational.  Rounding to a double is outside the model.
    - [undefined] is [None].
    - A fetched page is given by its parsed tree: cheerio's [load] accepts any
      text, and what the code reads is the tree.
    - Asynchronous code is a program of the free monad [prog] over the effects
      the code performs (fetch, debugLog, onProgress, a push to the shared
      result array); [await] is sequencing. *)

From Stdlib Require Import String Ascii List Bool Arith ZArith QArith Lia.
From Stdlib Require Import DecimalString DecimalNat Permutation.
Import ListNotations.

Local Close Scope Q_scope.
Local Open Scope string_scope.
Local Open Scope list_scope.
Local Open Scope nat_scope.

Set Implicit Arguments.
Set Warnings "-register-all".

(* ------------------------------------------------------------------ *)
(** ** JavaScript strings *)

Module JsString.

Definition code (c : ascii) : nat := nat_of_ascii c.

(** WhiteSpace and LineTerminator of ECMAScript, below 256: what [trim]
    removes and what the class [\s] of a regular expression matches. *)
Definition isWhiteSpace (c : ascii) : bool :=
  let n := code c in
  ((9 <=? n) && (n <=? 13)) || (n =? 32) || (n =? 160).

Definition isDigit (c : ascii) : bool :=
  let n := code c in (48 <=? n) && (n <=? 57).

Definition isWordChar (c : ascii) : bool :=
  let n := code c in
  isDigit c || ((65 <=? n) && (n <=? 90)) || ((97 <=? n) && (n <=? 122))
  || (n =? 95).

Definition LF : string := String (ascii_of_nat 10) EmptyString.

Fixpoint trimStart (s : string) : string :=
  match s with
  | String c s' => if isWhiteSpace c then trimStart s' else s
  | EmptyString => EmptyString
  end.

(** [trimEnd]: a character is kept when it is not white space or when
    something is kept after it. *)
Fixpoint trimEnd (s : string) : string :=
  match s with
  | String c s' =>
      match trimEnd s' with
      | EmptyString => if isWhiteSpace c then EmptyString else String c EmptyString
      | t => String c t
      end
  | EmptyString => EmptyString
  end.

Definition trim (s : string) : string := trimEnd (trimStart s).

(** [s.startsWith(p)] *)
Fixpoint startsWith (s p : string) {struct p} : bool :=
  match p with
  | EmptyString => true
  | String a p' =>
      match s with
      | String b s' => Ascii.eqb a b && startsWith s' p'
      | EmptyString => false
      end
  end.

(** [s.includes(sub)] *)
Fixpoint includes (s sub : string) : bool :=
  startsWith s sub ||
  match s with
  | String _ s' => includes s' sub
  | EmptyString => false
  end.

Fixpoint drop (n : nat) (s : string) : string :=
  match n, s with
  | S n', String _ s' => drop n' s'
  | _, _ => s
  end.

(** [s.split(sep)] for a non-empty separator: the pieces between the
    occurrences of [sep], scanned from the left.  [skip] counts the
    characters of a separator still to pass over, [cur] is the piece being
    read. *)
Fixpoint split_go (sep : string) (s : string) (skip : nat) (cur : string)
  : list string :=
  match s with
  | EmptyString => [cur]
  | String c s' =>
      match skip with
      | S k => split_go sep s' k cur
      | O =>
          if startsWith s sep
          then cur :: split_go sep s' (String.length sep - 1) EmptyString
          else split_go sep s' 0 (cur ++ String c EmptyString)
      end
  end.

Definition split (s sep : string) : list string := split_go sep s 0 EmptyString.

(** [s.replaceAll(pat, '')] with a string pattern and a replacement free of
    [$]: the pieces between the occurrences, joined by the replacement. *)
Definition replaceAll (s pat repl : string) : string :=
  String.concat repl (split s pat).

(** The replacement text of [String.prototype.replace] with a string
    pattern (GetSubstitution without captures): [$$] is a dollar, [$&] the
    matched text, [$`] what precedes the match and [$'] what follows it. *)
Fixpoint substitution (repl matched before after : string) : string :=
  match repl with
  | String "$" (String c r as r') =>
      if Ascii.eqb c "$" then String "$" (substitution r matched before after)
      else if Ascii.eqb c "&" then matched ++ substitution r matched before after
      else if Ascii.eqb c "`" then before ++ substitution r matched before after
      else if Ascii.eqb c "'" then after ++ substitution r matched before after
      else String "$" (substitution r' matched before after)
  | String c r => String c (substitution r matched before after)
  | EmptyString => EmptyString
  end.

(** [s.replace(pat, repl)] with a string pattern: the first occurrence only.
    [before] is what was read so far. *)
Fixpoint replace_go (s pat repl before : string) : string :=
  if startsWith s pat
  then let after := drop (String.length pat) s in
       before ++ substitution repl pat before after ++ after
  else match s with
       | String c s' => replace_go s' pat repl (before ++ String c EmptyString)
       | EmptyString => before
       end.

Definition replace (s pat repl : string) : string :=
  replace_go s pat repl EmptyString.

Fixpoint filter (keep : ascii -> bool) (s : string) : string :=
  match s with
  | String c s' => if keep c then String c (filter keep s') else filter keep s'
  | EmptyString => EmptyString
  end.

(** A string is truthy when it is not empty. *)
Definition truthy (s : string) : bool :=
  match s with EmptyString => false | _ => true end.

End JsString.

Import JsString.

(* ------------------------------------------------------------------ *)
(** ** JavaScript numbers *)

Module JsNumber.

Inductive number : Type :=
| NaN
| PosInfinity
| NegInfinity
| Finite (q : Q).

Definition ofZ (z : Z) : number := Finite (inject_Z z).

(** A number is truthy unless it is NaN or zero. *)
Definition truthy (x : number) : bool :=
  match x with
  | NaN => false
  | Finite q => negb (Qeq_bool q 0)
  | _ => true
  end.

Definition isNaN (x : number) : bool :=
  match x with NaN => true | _ => false end.

(** One step of [Math.min]: [x] replaces [lowest] when it is smaller, and
    NaN wins over everything. *)
Definition min2 (lowest x : number) : number :=
  match lowest, x with
  | NaN, _ | _, NaN => NaN
  | NegInfinity, _ => NegInfinity
  | _, NegInfinity => NegInfinity
  | _, PosInfinity => lowest
  | PosInfinity, _ => x
  | Finite p, Finite q => if Qle_bool p q then lowest else x
  end.

(** [Math.min(...xs)]: positive infinity when [xs] is empty. *)
Definition Math_min (xs : list number) : number :=
  fold_left min2 xs PosInfinity.

(** [x > y]: false as soon as one side is NaN. *)
Definition gt (x y : number) : bool :=
  match x, y with
  | NaN, _ | _, NaN => false
  | PosInfinity, PosInfinity => false
  | PosInfinity, _ => true
  | _, PosInfinity => false
  | NegInfinity, _ => false
  | _, NegInfinity => true
  | Finite p, Finite q => negb (Qle_bool p q)
  end.

Definition digitValue (c : ascii) : Z := Z.of_nat (code c - 48).

(** The longest prefix of decimal digits of [s]: its value on top of
    [acc], the number of digits read on top of [n], and what follows. *)
Fixpoint digits (s : string) (acc : Z) (n : nat) : Z * nat * string :=
  match s with
  | String c s' =>
      if isDigit c then digits s' (10 * acc + digitValue c)%Z (S n)
      else (acc, n, s)
  | EmptyString => (acc, n, s)
  end.

Definition hexValue (c : ascii) : option Z :=
  let n := code c in
  if isDigit c then Some (Z.of_nat (n - 48))
  else if (65 <=? n) && (n <=? 70) then Some (Z.of_nat (n - 55))
  else if (97 <=? n) && (n <=? 102) then Some (Z.of_nat (n - 87))
  else None.

Fixpoint hexDigits (s : string) (acc : Z) (n : nat) : Z * nat :=
  match s with
  | String c s' =>
      match hexValue c with
      | Some v => hexDigits s' (16 * acc + v)%Z (S n)
      | None => (acc, n)
      end
  | EmptyString => (acc, n)
  end.

(** An optional sign: whether it is a minus, and what follows. *)
Definition sign (s : string) : bool * string :=
  match s with
  | String "-" r => (true, r)
  | String "+" r => (false, r)
  | _ => (false, s)
  end.

Definition signed (neg : bool) (z : Z) : Z := if neg then (- z)%Z else z.

(** [parseInt(s)] without a radix: leading white space, a sign, [0x] for
    base sixteen, then the longest prefix of digits; NaN without a digit. *)
Definition parseIntZ (input : string) : option Z :=
  let (neg, s) := sign (trimStart input) in
  if startsWith s "0x" || startsWith s "0X" then
    let (v, n) := hexDigits (drop 2 s) 0%Z 0 in
    if n =? 0 then None else Some (signed neg v)
  else
    let '(v, n, _) := digits s 0%Z 0 in
    if n =? 0 then None else Some (signed neg v).

Definition parseInt (input : string) : number :=
  match parseIntZ input with
  | Some z => ofZ z
  | None => NaN
  end.

Definition pow10 (e : Z) : Q :=
  if (0 <=? e)%Z then inject_Z (10 ^ e)
  else Qmake 1 (Z.to_pos (10 ^ (- e))).

(** An exponent part [e], [e+] or [e-] followed by digits; zero when [s]
    does not start with one. *)
Definition exponent (s : string) : Z :=
  match s with
  | String c r =>
      if Ascii.eqb c "e" || Ascii.eqb c "E" then
        let (neg, r') := sign r in
        let '(v, n, _) := digits r' 0%Z 0 in
        if n =? 0 then 0%Z else signed neg v
      else 0%Z
  | EmptyString => 0%Z
  end.

(** [parseFloat(s)]: leading white space, then the longest prefix that is a
    decimal literal (a sign, [Infinity], or digits with an optional
    fraction and exponent); NaN when there is none.  The value is exact. *)
Definition parseFloat (input : string) : number :=
  let (neg, s) := sign (trimStart input) in
  if startsWith s "Infinity" then (if neg then NegInfinity else PosInfinity)
  else
    let '(i, ni, r1) := digits s 0%Z 0 in
    let '(m, nf, r2) :=
      match r1 with
      | String "." r =>
          let '(m, n, r2) := digits r i 0 in
          if (ni =? 0) && (n =? 0) then (i, 0, r1) else (m, n, r2)
      | _ => (i, 0, r1)
      end in
    if (ni =? 0) && (nf =? 0) then NaN
    else Finite (Qred (inject_Z (signed neg m) * pow10 (exponent r2 - Z.of_nat nf))).

(** The decimal text of an integer, as [String(n)] and string
    concatenation give it for the integers below [10^21] in absolute value;
    from there on JS prints a number in exponent form, which is not
    modelled: the numbers printed are years and item counts. *)
Definition string_of_Z (z : Z) : string := NilZero.string_of_int (Z.to_int z).

Definition string_of_nat (n : nat) : string :=
  NilZero.string_of_uint (Nat.to_uint n).

End JsNumber.

Import JsNumber.

(* ------------------------------------------------------------------ *)
(** ** Parsed documents and the cheerio queries the providers use *)

Module Dom.

(** A parsed page: text nodes and elements.  Comments are left out of the
    tree; the contents of [script] and [style] elements are text nodes like
    any other, and [text()] and [:contains] read them. *)
Inductive node : Type :=
| Text (data : string)
| Element (name : string) (attribs : list (string * string))
          (children : list node).

(** The page as [load] returns it: its root element. *)
Definition document := node.

(** An element of a document is named by the child indices leading to it
    from the root; its ancestors are the proper prefixes. *)
Definition path := list nat.

(** A cheerio selection: elements of one document, in document order. *)
Definition selection := list path.

Fixpoint get (n : node) (p : path) : option node :=
  match p with
  | [] => Some n
  | i :: p' =>
      match n with
      | Element _ _ cs =>
          match nth_error cs i with
          | Some c => get c p'
          | None => None
          end
      | Text _ => None
      end
  end.

Fixpoint textContent (n : node) : string :=
  match n with
  | Text d => d
  | Element _ _ cs =>
      (fix go (cs : list node) : string :=
         match cs with
         | [] => EmptyString
         | c :: cs' => (textContent c ++ go cs')%string
         end) cs
  end.

(** The text [:contains] tests: the text of the element, with a line feed
    for every [br] element. *)
Fixpoint getText (n : node) : string :=
  match n with
  | Text d => d
  | Element name _ cs =>
      if String.eqb name "br" then LF
      else
        (fix go (cs : list node) : string :=
           match cs with
           | [] => EmptyString
           | c :: cs' => (getText c ++ go cs')%string
           end) cs
  end.

(** Every element of the tree, in document order. *)
Fixpoint elements (n : node) : list path :=
  match n with
  | Text _ => []
  | Element _ _ cs =>
      [] :: (fix go (i : nat) (cs : list node) : list path :=
               match cs with
               | [] => []
               | c :: cs' => map (cons i) (elements c) ++ go (S i) cs'
               end) 0 cs
  end.

Fixpoint lookup (name : string) (attribs : list (string * string))
  : option string :=
  match attribs with
  | [] => None
  | (k, v) :: rest => if String.eqb k name then Some v else lookup name rest
  end.

Definition attribute (n : node) (name : string) : option string :=
  match n with
  | Element _ attribs _ => lookup name attribs
  | Text _ => None
  end.

(** The white-space separated words of a [class] attribute.  [cur] is the
    word being read. *)
Fixpoint words_go (s : string) (cur : string) : list string :=
  match s with
  | EmptyString => if JsString.truthy cur then [cur] else []
  | String c s' =>
      if isWhiteSpace c
      then (if JsString.truthy cur then [cur] else []) ++ words_go s' EmptyString
      else words_go s' (cur ++ String c EmptyString)
  end.

Definition words (s : string) : list string := words_go s EmptyString.

(** The parts of a compound selector. *)
Inductive simple : Type :=
| Tag (name : string)                    (* h1 *)
| Class (name : string)                  (* .a-row *)
| Id (name : string)                     (* #time-filter *)
| AttrEq (name value : string)           (* [name="value"] *)
| AttrStarts (name value : string)       (* [name^="value"] *)
| AttrIncludes (name value : string)     (* [name*="value"] *)
| Contains (text : string).              (* :contains("text") *)

Inductive selector : Type :=
| Compound (ss : list simple)                      (* h1.title *)
| Descendant (anc : selector) (ss : list simple)   (* A B *)
| Adjacent (prev : selector) (ss : list simple)    (* A + B *)
| Or (a b : selector).                             (* A, B *)

Definition matchesSimple (n : node) (s : simple) : bool :=
  match n with
  | Text _ => false
  | Element tag attribs _ =>
      match s with
      | Tag name => String.eqb tag name
      | Class name =>
          match lookup "class" attribs with
          | Some v => existsb (String.eqb name) (words v)
          | None => false
          end
      | Id name =>
          match lookup "id" attribs with
          | Some v => String.eqb v name
          | None => false
          end
      | AttrEq name value =>
          match lookup name attribs with
          | Some v => String.eqb v value
          | None => false
          end
      | AttrStarts name value =>
          match lookup name attribs with
          | Some v => JsString.truthy value && startsWith v value
          | None => false
          end
      | AttrIncludes name value =>
          match lookup name attribs with
          | Some v => JsString.truthy value && includes v value
          | None => false
          end
      | Contains text => includes (getText n) text
      end
  end.

Definition matchesCompound (doc : document) (ss : list simple) (p : path)
  : bool :=
  match get doc p with
  | Some n => forallb (matchesSimple n) ss
  | None => false
  end.

(** The ancestors of [p], outermost first. *)
Fixpoint ancestors (p : path) : list path :=
  match p with
  | [] => []
  | i :: p' => [] :: map (cons i) (ancestors p')
  end.

Definition isElement (n : node) : bool :=
  match n with Element _ _ _ => true | Text _ => false end.

(** The nearest element among the children before index [i]. *)
Fixpoint elementBefore (cs : list node) (i : nat) : option nat :=
  match i with
  | O => None
  | S j =>
      match nth_error cs j with
      | Some c => if isElement c then Some j else elementBefore cs j
      | None => elementBefore cs j
      end
  end.

Definition previousElementSibling (doc : document) (p : path) : option path :=
  match rev p with
  | [] => None
  | i :: rparent =>
      let parent := rev rparent in
      match get doc parent with
      | Some (Element _ _ cs) =>
          match elementBefore cs i with
          | Some j => Some (parent ++ [j])
          | None => None
          end
      | _ => None
      end
  end.

(** [a] is a proper ancestor of [p]. *)
Fixpoint isAncestor (a p : path) : bool :=
  match a, p with
  | [], _ :: _ => true
  | i :: a', j :: p' => (i =? j) && isAncestor a' p'
  | _, _ => false
  end.

Fixpoint samePath (a b : path) : bool :=
  match a, b with
  | [], [] => true
  | i :: a', j :: b' => (i =? j) && samePath a' b'
  | _, _ => false
  end.

(** Whether [a] lies in the scope of a query: anywhere for [$(sel)]; for
    [el.find(sel)], the element [find] was called on or an element below
    it.  The first compound of a selector may be that element itself; what
    is found lies below it. *)
Definition inScope (scope : option path) (a : path) : bool :=
  match scope with
  | None => true
  | Some el => samePath el a || isAncestor el a
  end.

(** Whether the element at [p] matches [sel].  A selector is read from its
    last compound backwards; what a combinator reaches stays in scope. *)
Fixpoint matches (doc : document) (scope : option path) (sel : selector)
         (p : path) : bool :=
  match sel with
  | Compound ss => matchesCompound doc ss p
  | Descendant anc ss =>
      matchesCompound doc ss p &&
      existsb (fun a => inScope scope a && matches doc scope anc a) (ancestors p)
  | Adjacent prev ss =>
      matchesCompound doc ss p &&
      match previousElementSibling doc p with
      | Some q => inScope scope q && matches doc scope prev q
      | None => false
      end
  | Or a b => matches doc scope a p || matches doc scope b p
  end.

(** [$(sel)] *)
Definition select (doc : document) (sel : selector) : selection :=
  List.filter (matches doc None sel) (elements doc).

(** [set.find(sel)]: the descendants of an element of [set] that match
    [sel] inside it, in document order. *)
Definition find (doc : document) (set : selection) (sel : selector)
  : selection :=
  List.filter
    (fun p => existsb (fun el => isAncestor el p && matches doc (Some el) sel p) set)
    (elements doc).

(** The nearest of [p] and its ancestors that matches. *)
Definition closest1 (doc : document) (sel : selector) (p : path)
  : option path :=
  List.find (matches doc None sel) (p :: rev (ancestors p)).

(** [$(el).closest(sel)], on the single element the providers call it on. *)
Definition closest (doc : document) (el : path) (sel : selector) : selection :=
  match closest1 doc sel el with
  | Some q => [q]
  | None => []
  end.

(** [set.text()]: the text of every element of the set, concatenated. *)
Definition text (doc : document) (set : selection) : string :=
  String.concat EmptyString
    (map (fun p => match get doc p with
                   | Some n => textContent n
                   | None => EmptyString
                   end) set).

(** What cheerio's [attr] reads off an element: the attribute when the
    element has it; without a [value] attribute, an [option] gives its text
    and a radio button or a check box gives [on].  (A boolean attribute
    would read as its own name; the providers ask for [href] and [value].) *)
Definition attrOf (n : node) (name : string) : option string :=
  match n with
  | Element tag attribs _ =>
      match lookup name attribs with
      | Some v => Some v
      | None =>
          if String.eqb tag "option" && String.eqb name "value"
          then Some (textContent n)
          else if String.eqb tag "input" && String.eqb name "value"
                  && match lookup "type" attribs with
                     | Some t => String.eqb t "radio" || String.eqb t "checkbox"
                     | None => false
                     end
          then Some "on"
          else None
      end
  | Text _ => None
  end.

(** [set.attr(name)]: what the first element gives, if any. *)
Definition attr (doc : document) (set : selection) (name : string)
  : option string :=
  match set with
  | p :: _ =>
      match get doc p with
      | Some n => attrOf n name
      | None => None
      end
  | [] => None
  end.

(** [el.attribs[name]]: the attribute as the element carries it. *)
Definition attribs (doc : document) (el : path) (name : string)
  : option string :=
  match get doc el with
  | Some n => attribute n name
  | None => None
  end.

Definition first (set : selection) : selection := firstn 1 set.

Definition last (set : selection) : selection :=
  match rev set with
  | p :: _ => [p]
  | [] => []
  end.

End Dom.

Import Dom.

(* ------------------------------------------------------------------ *)
(** ** Regular expressions, as [replace] and [match] run them *)

Module Regex.

Inductive regex : Type :=
| Eps
| Chr (p : ascii -> bool)          (* one character of a class *)
| Seq (a b : regex)
| Alt (a b : regex)                (* a|b, [a] tried first *)
| Star (a : regex)                 (* a*, greedy *)
| Group (i : nat) (a : regex).     (* the i-th capturing group *)

Definition Plus (a : regex) : regex := Seq a (Star a).

Fixpoint Repeat (n : nat) (a : regex) : regex :=
  match n with
  | O => Eps
  | S n' => Seq a (Repeat n' a)
  end.

Fixpoint Lit (s : string) : regex :=
  match s with
  | EmptyString => Eps
  | String c s' => Seq (Chr (Ascii.eqb c)) (Lit s')
  end.

(** [.] matches anything but a line terminator. *)
Definition dot : regex :=
  Chr (fun c => negb ((code c =? 10) || (code c =? 13))).

Definition captures := list (nat * string).

(** What is left to read, and the groups captured so far. *)
Definition mstate : Type := string * captures.

(** The first [String.length s - String.length rest] characters of [s]. *)
Definition taken (s rest : string) : string :=
  String.substring 0 (String.length s - String.length rest) s.

(** Every way [r] matches a prefix of the input, in the order a
    backtracking matcher tries them. *)
Fixpoint run (r : regex) (x : mstate) : list mstate :=
  match r with
  | Eps => [x]
  | Chr p =>
      match fst x with
      | String c s => if p c then [(s, snd x)] else []
      | EmptyString => []
      end
  | Seq a b => flat_map (run b) (run a x)
  | Alt a b => run a x ++ run b x
  | Star a =>
      (fix loop (n : nat) (x : mstate) : list mstate :=
         match n with
         | O => [x]
         | S n' =>
             flat_map (loop n')
               (List.filter
                  (fun y => String.length (fst y) <? String.length (fst x))
                  (run a x))
             ++ [x]
         end) (String.length (fst x)) x
  | Group i a =>
      map (fun y => (fst y, (i, taken (fst x) (fst y)) :: snd y)) (run a x)
  end.

Record result : Type := {
  before : string;
  matched : string;
  after : string;
  groups : captures
}.

(** The leftmost match of [r] in [s]; [pre] is what precedes [s]. *)
Fixpoint exec_go (r : regex) (pre s : string) : option result :=
  match run r (s, []) with
  | (rest, caps) :: _ =>
      Some {| before := pre; matched := taken s rest; after := rest;
              groups := caps |}
  | [] =>
      match s with
      | String c s' => exec_go r (pre ++ String c EmptyString) s'
      | EmptyString => None
      end
  end.

(** [s.match(r)] for a regular expression without the [g] flag. *)
Definition exec (r : regex) (s : string) : option result :=
  exec_go r EmptyString s.

Fixpoint group (i : nat) (caps : captures) : option string :=
  match caps with
  | [] => None
  | (j, v) :: rest => if i =? j then Some v else group i rest
  end.

(** [s.replace(r, '$1')]: the first match gives way to its first group. *)
Definition replace_by_group1 (s : string) (r : regex) : string :=
  match exec r s with
  | Some m =>
      (before m ++
       match group 1 (groups m) with Some g => g | None => EmptyString end ++
       after m)%string
  | None => s
  end.

End Regex.

Import Regex.

(* ------------------------------------------------------------------ *)
(** ** The data model *)

Inductive AuthStatus : Type := Pending | NotLoggedIn | Success | Failure.

(** [AmazonInfo], and the result type of [doCheckAuth]. *)
Module AuthInfo.
Record t : Type := {
  status : AuthStatus;
  startingYear : option number
}.
End AuthInfo.

(** Amazon's items have a title and a price; Walmart's carry the order
    identifier and the [refunded] flag too.  A property an object does not
    have reads as [undefined]. *)
Module Item.
Record t : Type := {
  orderId : option string;
  title : string;
  price : number;
  refunded : option bool
}.
End Item.

Module OrderTransaction.
Record t : Type := {
  id : string;
  amount : number;
  date : string;
  refund : bool;
  items : list Item.t
}.
End OrderTransaction.

Module Order.
Record t : Type := {
  id : string;
  date : string;
  walmartStorePurchase : option bool;
  transactions : option (list OrderTransaction.t)
}.
End Order.

Inductive ProgressPhase : Type :=
| Idle
| AmazonPageScan
| AmazonOrderDownload
| WalmartPageScan
| WalmartOrderDownload
| Complete.

Module ProgressState.
Record t : Type := {
  phase : ProgressPhase;
  total : Z;
  complete : Z
}.
End ProgressState.

(* ------------------------------------------------------------------ *)
(** ** Effects: the network, the diagnostic log, the progress callback *)

(** A thrown value: an [Error] with its name and message. *)
Inductive exn : Type := Error (name message : string).

(** [String(e)], as string concatenation renders an error: the name, a
    colon and the message, or the one of the two that is not empty. *)
Definition string_of_exn (e : exn) : string :=
  match e with
  | Error name message =>
      if JsString.truthy message
      then (if JsString.truthy name then name ++ ": " ++ message else message)
      else name
  end.

Definition TypeError (message : string) : exn := Error "TypeError" message.

(** What [debugLog] is given: a string or a caught error. *)
Inductive logged : Type :=
| LogString (s : string)
| LogError (e : exn).

(** A response: its status, and what [res.text()] followed by [load] gives,
    the parsed page or the error reading the body raises. *)
Module Response.
Record t : Type := {
  status : Z;
  text : exn + document
}.
End Response.

(** The network: what [fetch] of a URL resolves to, or the error it rejects
    with. *)
Definition network : Type := string -> exn + Response.t.

(** The effects without a result: a call of [debugLog], a call of
    [onProgress] (its argument is computed from the result array at the time
    of the call), and a push to the result array [allOrders]. *)
Inductive effect : Type :=
| DebugLog (v : logged)
| OnProgress (p : list Order.t -> ProgressState.t)
| Push (o : Order.t).

(** Asynchronous code: it returns, throws, fetches and goes on with the
    outcome, or performs an effect and goes on. *)
Inductive prog (A : Type) : Type :=
| Ret (a : A)
| Throw (e : exn)
| Fetch (url : string) (k : exn + Response.t -> prog A)
| Do (e : effect) (k : prog A).

Arguments Ret {A} a.
Arguments Throw {A} e.
Arguments Fetch {A} url k.
Arguments Do {A} e k.

Fixpoint bind {A B : Type} (m : prog A) (f : A -> prog B) : prog B :=
  match m with
  | Ret a => f a
  | Throw e => Throw e
  | Fetch url k => Fetch url (fun r => bind (k r) f)
  | Do e k => Do e (bind k f)
  end.

(** [try { m } catch (e) { h e }] *)
Fixpoint try_catch {A : Type} (m : prog A) (h : exn -> prog A) : prog A :=
  match m with
  | Ret a => Ret a
  | Throw e => h e
  | Fetch url k => Fetch url (fun r => try_catch (k r) h)
  | Do e k => Do e (try_catch k h)
  end.

Declare Scope prog_scope.
Delimit Scope prog_scope with prog.
Bind Scope prog_scope with prog.

Notation "x <- m ;; k" := (bind m (fun x => k))
  (at level 61, m at next level, right associativity) : prog_scope.
Notation "m ;; k" := (bind m (fun _ => k))
  (at level 61, right associativity) : prog_scope.

(** [await fetch(url)]: a rejected fetch throws. *)
Definition fetch (url : string) : prog Response.t :=
  Fetch url (fun r => match r with inl e => Throw e | inr res => Ret res end).

(** [load(await res.text())] *)
Definition load_text (res : Response.t) : prog document :=
  match Response.text res with
  | inl e => Throw e
  | inr doc => Ret doc
  end.

Definition debugLog (v : logged) : prog unit := Do (DebugLog v) (Ret tt).

Definition onProgress (p : list Order.t -> ProgressState.t) : prog unit :=
  Do (OnProgress p) (Ret tt).

Definition push (o : Order.t) : prog unit := Do (Push o) (Ret tt).

(** What an observer sees of a run: the URLs requested, the diagnostic log,
    the progress callbacks received, and the result array. *)
Module World.
Record t : Type := {
  requests : list string;
  log : list logged;
  progress : list ProgressState.t;
  allOrders : list Order.t
}.

Definition empty : t :=
  {| requests := []; log := []; progress := []; allOrders := [] |}.
End World.

(** One thing a program did: a request, or an effect. *)
Inductive event : Type :=
| Requested (url : string)
| Did (e : effect).

Definition apply (w : World.t) (ev : event) : World.t :=
  match ev with
  | Requested url =>
      {| World.requests := World.requests w ++ [url]; World.log := World.log w;
         World.progress := World.progress w; World.allOrders := World.allOrders w |}
  | Did (DebugLog v) =>
      {| World.requests := World.requests w; World.log := World.log w ++ [v];
         World.progress := World.progress w; World.allOrders := World.allOrders w |}
  | Did (OnProgress p) =>
      {| World.requests := World.requests w; World.log := World.log w;
         World.progress := World.progress w ++ [p (World.allOrders w)];
         World.allOrders := World.allOrders w |}
  | Did (Push o) =>
      {| World.requests := World.requests w; World.log := World.log w;
         World.progress := World.progress w;
         World.allOrders := World.allOrders w ++ [o] |}
  end.

Section Running.

Variable net : network.

(** The events a program performs under [net], in order. *)
Fixpoint trace {A : Type} (m : prog A) : list event :=
  match m with
  | Ret _ | Throw _ => []
  | Fetch url k => Requested url :: trace (k (net url))
  | Do e k => Did e :: trace k
  end.

(** How it ends: the value returned or the error thrown. *)
Fixpoint outcome {A : Type} (m : prog A) : exn + A :=
  match m with
  | Ret a => inr a
  | Throw e => inl e
  | Fetch url k => outcome (k (net url))
  | Do _ k => outcome k
  end.

(** A sequential run. *)
Definition run {A : Type} (m : prog A) (w : World.t) : (exn + A) * World.t :=
  (outcome m, fold_left apply (trace m) w).

(** [Throttle.all(tasks)] runs every task and resolves when all have.  The
    tasks advance in turns the library and the network decide: a schedule
    names the task that performs its next event.  Naming a task that has
    finished, or none, changes nothing. *)
Fixpoint replace_nth {X : Type} (i : nat) (x : X) (l : list X) : list X :=
  match l, i with
  | [], _ => []
  | _ :: l', O => x :: l'
  | y :: l', S j => y :: replace_nth j x l'
  end.

Fixpoint interleave (sched : list nat) (pool : list (list event))
         (w : World.t) : list (list event) * World.t :=
  match sched with
  | [] => (pool, w)
  | i :: sched' =>
      match nth_error pool i with
      | Some (ev :: rest) =>
          interleave sched' (replace_nth i rest pool) (apply w ev)
      | _ => interleave sched' pool w
      end
  end.

Definition finished (pool : list (list event)) : bool :=
  forallb (fun t => match t with [] => true | _ => false end) pool.

(** The first error among the tasks' outcomes: with [failFast] a rejected
    task rejects the whole call. *)
Fixpoint first_error (outcomes : list (exn + unit)) : exn + unit :=
  match outcomes with
  | [] => inr tt
  | inl e :: _ => inl e
  | inr _ :: rest => first_error rest
  end.

(** The call under a schedule; [None] when the schedule stops before every
    task has finished. *)
Definition Throttle_all (sched : list nat) (tasks : list (prog unit))
           (w : World.t) : option ((exn + unit) * World.t) :=
  let (pool, w') := interleave sched (map trace tasks) w in
  if finished pool then Some (first_error (map outcome tasks), w') else None.

(** The schedule that runs the tasks one after the other. *)
Fixpoint one_by_one (i : nat) (pool : list (list event)) : list nat :=
  match pool with
  | [] => []
  | t :: pool' => repeat i (length t) ++ one_by_one (S i) pool'
  end.

End Running.

(* ------------------------------------------------------------------ *)
(** ** What the two providers share *)

(** [$(sel).each((_, el) => ...)] with a callback that pushes to an array:
    the callbacks run in document order, each giving what it pushes. *)
Fixpoint each {A : Type} (els : selection) (f : path -> prog (list A))
  : prog (list A) :=
  match els with
  | [] => Ret []
  | el :: rest => (xs <- f el ;; ys <- each rest f ;; Ret (xs ++ ys))%prog
  end.

(** The loop over the options of [#time-filter], the same in both probes.
    The test reads the value with [$(el).attr('value')]; what is pushed is
    read off [el.attribs.value]: the trimmed attribute with the first
    [year-] removed, or [undefined] when the option has no such attribute
    and passed the test on its text. *)
Definition yearOptions (doc : document) : list (option string) :=
  flat_map
    (fun el =>
       match attr doc [el] "value" with
       | Some value =>
           if includes value "year"
           then [option_map (fun v => replace (trim v) "year-" EmptyString)
                   (attribs doc el "value")]
           else []
       | None => []
       end)
    (find doc (select doc (Compound [Id "time-filter"])) (Compound [Tag "option"])).

(** [parseInt(x)] for an [x] that may be [undefined], which reads as the
    text [undefined]. *)
Definition parseIntOf (x : option string) : number :=
  match x with
  | Some s => parseInt s
  | None => parseInt "undefined"
  end.

(** [if (year)]: a year that is given and is not zero. *)
Definition truthyYear (year : option Z) : option Z :=
  match year with
  | Some y => if (y =? 0)%Z then None else Some y
  | None => None
  end.

(** The values [i] takes in [for (let i = 2; i <= endPage; i++)]. *)
Definition pagesFrom2 (endPage : Z) : list Z :=
  map Z.of_nat (seq 2 (Z.to_nat endPage - 1)).

Definition lengthZ {A : Type} (l : list A) : Z := Z.of_nat (length l).

(* ------------------------------------------------------------------ *)
(** ** amazonApi.ts *)

Module Amazon.

Definition ORDER_PAGES_URL : string :=
  "https://www.amazon.com/gp/css/order-history?disableCsd=no-js".

Definition ORDER_DETAILS_URL : string :=
  "https://www.amazon.com/gp/your-account/order-details".

(** [h1:contains("Sign in")] *)
Definition signInMarker : selector := Compound [Tag "h1"; Contains "Sign in"].

Definition checkAmazonAuth : prog AuthInfo.t :=
  try_catch
    (debugLog (LogString "Checking Amazon auth") ;;
     res <- fetch ORDER_PAGES_URL ;;
     debugLog (LogString ("Got Amazon auth response"
                          ++ string_of_Z (Response.status res))) ;;
     doc <- load_text res ;;
     let signIn := select doc signInMarker in
     if 0 <? length signIn then
       debugLog (LogString "Amazon auth failed") ;;
       Ret {| AuthInfo.status := NotLoggedIn; AuthInfo.startingYear := None |}
     else
       (* find the lowest year *)
       let lowestYear := Math_min (map parseIntOf (yearOptions doc)) in
       debugLog (LogString "Amazon auth success") ;;
       Ret {| AuthInfo.status := Success;
              AuthInfo.startingYear := Some lowestYear |})%prog
    (fun e =>
       debugLog (LogString ("Amazon auth failed with error: "
                            ++ string_of_exn e)) ;;
       Ret {| AuthInfo.status := Failure; AuthInfo.startingYear := None |})%prog.

(** [/.*orderID=([^&#]+).*/] *)
Definition orderID_regex : regex :=
  Seq (Star dot)
    (Seq (Lit "orderID=")
       (Seq (Group 1 (Plus (Chr (fun c => negb (Ascii.eqb c "&" || Ascii.eqb c "#")))))
          (Star dot))).

(** The identifier a [.js-order-card] gives: the [href] of its first link to
    an order, reduced to the [orderID] parameter. *)
Definition cardId (doc : document) (el : path) : option string :=
  option_map (fun href => replace_by_group1 href orderID_regex)
    (attr doc (find doc [el] (Compound [Tag "a"; AttrIncludes "href" "orderID="]))
       "href").

(** The callback of the loop of [orderListFromPage]. *)
Definition orderCard (doc : document) (el : path) : prog (list Order.t) :=
  try_catch
    (match cardId doc el with
     | Some id =>
         if JsString.truthy id then
           let date :=
             trim (text doc
                     (first (find doc [el]
                               (Descendant (Compound [Class "order-info"])
                                  [Class "value"])))) in
           Ret [{| Order.id := id; Order.date := date;
                   Order.walmartStorePurchase := None;
                   Order.transactions := None |}]
         else Ret []
     | None => Ret []
     end)
    (fun e => debugLog (LogError e) ;; Ret [])%prog.

Definition orderListFromPage (doc : document) : prog (list Order.t) :=
  each (select doc (Compound [Class "js-order-card"])) (orderCard doc).

(** The characters [/[$\s-]/g] matches, or [/[$\s]/g] when the absolute
    value is not asked for. *)
Definition stripped (absoluteValue : bool) (c : ascii) : bool :=
  Ascii.eqb c "$" || isWhiteSpace c || (absoluteValue && Ascii.eqb c "-").

(** [moneyToNumber(money, absoluteValue = true)]:
    [parseFloat(money?.replace(absoluteValue ? /[$\s-]/g : /[$\s]/g, ''))].
    An undefined [money] reaches [parseFloat] as it is, and reads as the
    text [undefined]. *)
Definition moneyToNumber (money : option string) (absoluteValue : bool)
  : number :=
  match money with
  | Some m =>
      parseFloat (JsString.filter (fun c => negb (stripped absoluteValue c)) m)
  | None => parseFloat "undefined"
  end.

(** The items of a detail page: the first loop of [fetchOrderTransactions]. *)
Definition items (doc : document) : list Item.t :=
  flat_map
    (fun el =>
       let item :=
         trim (text doc (first (find doc [el] (Compound [Class "a-link-normal"])))) in
       let price :=
         moneyToNumber
           (Some (text doc (first (find doc [el] (Compound [Class "a-color-price"])))))
           true in
       if JsString.truthy item
       then [{| Item.orderId := None; Item.title := item; Item.price := price;
                Item.refunded := None |}]
       else [])
    (select doc (Compound [Class "yohtmlc-item"])).

(** [x.split(sep)[1].f()] throws when there is no second piece. *)
Definition second (pieces : list string) (reading : string) : prog string :=
  match nth_error pieces 1 with
  | Some s => Ret s
  | None =>
      Throw (TypeError ("Cannot read properties of undefined (reading '"
                        ++ reading ++ "')"))
  end.

(** A line [label date - $amount] of the payment details, after its label. *)
Definition dateAndAmountOf (order : Order.t) (items : list Item.t)
           (refund : bool) (line label : string)
  : prog (list OrderTransaction.t) :=
  (s <- second (split line label) "trim" ;;
   let dateAndAmount := trim s in
   let date := trim (nth 0 (split dateAndAmount "-") EmptyString) in
   a <- second (split dateAndAmount "-") "split" ;;
   let amount := moneyToNumber (nth_error (split a "$") 1) true in
   Ret [{| OrderTransaction.id := Order.id order;
           OrderTransaction.amount := amount;
           OrderTransaction.date := date;
           OrderTransaction.refund := refund;
           OrderTransaction.items := items |}])%prog.

(** The callback of the loop over the rows of the payment details. *)
Definition detailRow (order : Order.t) (items : list Item.t) (doc : document)
           (el : path) : prog (list OrderTransaction.t) :=
  let line := replaceAll (trim (text doc [el])) LF EmptyString in
  if includes line "Items shipped" then
    dateAndAmountOf order items false line "shipped:"
  else if includes line "Refund: Completed" then
    dateAndAmountOf order items true line ": Completed"
  else Ret [].

(** The transaction of a gift card, when the subtotals show an amount. *)
Definition giftCard (order : Order.t) (items : list Item.t) (doc : document)
  : list OrderTransaction.t :=
  let giftCardAmount :=
    moneyToNumber
      (Some (text doc
               (select doc
                  (Adjacent
                     (Descendant (Compound [Id "od-subtotals"])
                        [Class "a-column"; Contains "Gift Card"])
                     [Class "a-column"]))))
      true in
  if JsNumber.truthy giftCardAmount
  then [{| OrderTransaction.id := Order.id order;
           OrderTransaction.amount := giftCardAmount;
           OrderTransaction.date := Order.date order;
           OrderTransaction.refund := false;
           OrderTransaction.items := items |}]
  else [].

(** The transactions of a detail page: what [fetchOrderTransactions] does
    with the page once the items are read. *)
Definition transactions (order : Order.t) (doc : document)
  : prog (list OrderTransaction.t) :=
  let items := items doc in
  let fullDetails :=
    first (select doc (Compound [Class "a-expander-inline-content"])) in
  (rows <- each (find doc fullDetails (Compound [Class "a-row"]))
                (detailRow order items doc) ;;
   Ret (giftCard order items doc ++ rows))%prog.

Definition fetchOrderTransactions (order : Order.t) : prog Order.t :=
  (debugLog (LogString ("Fetching order " ++ Order.id order)) ;;
   res <- fetch (ORDER_DETAILS_URL ++ "?orderID=" ++ Order.id order) ;;
   debugLog (LogString ("Got order response "
                        ++ string_of_Z (Response.status res)
                        ++ " for order " ++ Order.id order)) ;;
   doc <- load_text res ;;
   transactions <- transactions order doc ;;
   Ret {| Order.id := Order.id order; Order.date := Order.date order;
          Order.walmartStorePurchase := Order.walmartStorePurchase order;
          Order.transactions := Some transactions |})%prog.

Definition timeFilter (year : option Z) : string :=
  match truthyYear year with
  | Some y => "&timeFilter=year-" ++ string_of_Z y
  | None => EmptyString
  end.

Definition processOrders (year : option Z) (page : Z) : prog (list Order.t) :=
  let index := ((page - 1) * 10)%Z in
  let url := (ORDER_PAGES_URL ++ "&startIndex=" ++ string_of_Z index
              ++ timeFilter year)%string in
  (debugLog (LogString ("Fetching orders from " ++ url)) ;;
   res <- fetch url ;;
   debugLog (LogString ("Got orders response "
                        ++ string_of_Z (Response.status res)
                        ++ " for page " ++ string_of_Z page)) ;;
   doc <- load_text res ;;
   orderListFromPage doc)%prog.

(** The page count read off the pagination control.  [page] is a string, so
    [Number.isNaN(page)] is false and every entry is parsed; an entry that is
    no number compares false and leaves [endPage] as it is. *)
Definition endPageOf (doc : document) : Z :=
  fold_left
    (fun endPage el =>
       let page := trim (text doc [el]) in
       match parseIntZ page with
       | Some numPage => if (numPage >? endPage)%Z then numPage else endPage
       | None => endPage
       end)
    (select doc (Descendant (Compound [Class "a-pagination"]) [Tag "li"]))
    1%Z.

Definition pageScan (endPage complete : Z) : list Order.t -> ProgressState.t :=
  fun _ => {| ProgressState.phase := AmazonPageScan;
              ProgressState.total := endPage;
              ProgressState.complete := complete |}.

(** The loop over the pages after the first. *)
Fixpoint morePages (year : option Z) (endPage : Z) (pages : list Z)
         (orders : list Order.t) : prog (list Order.t) :=
  match pages with
  | [] => Ret orders
  | i :: rest =>
      (ordersPage <- processOrders year i ;;
       onProgress (pageScan endPage i) ;;
       morePages year endPage rest (orders ++ ordersPage))%prog
  end.

(** [fetchOrders] up to the orders the listing gives: the first page, the
    page count, the other pages in turn. *)
Definition listOrders (year : option Z) : prog (list Order.t) :=
  let url := (ORDER_PAGES_URL ++ timeFilter year)%string in
  (debugLog (LogString ("Fetching orders from " ++ url)) ;;
   res <- fetch url ;;
   debugLog (LogString ("Got orders response "
                        ++ string_of_Z (Response.status res))) ;;
   doc <- load_text res ;;
   let endPage := endPageOf doc in
   onProgress (pageScan endPage 0) ;;
   orders <- orderListFromPage doc ;;
   debugLog (LogString ("Found " ++ string_of_nat (length orders) ++ " orders")) ;;
   onProgress (pageScan endPage 1) ;;
   morePages year endPage (pagesFrom2 endPage) orders)%prog.

(** The task of one order.  [orderData] is an object, so [if (orderData)]
    holds. *)
Definition processOrder (orders : list Order.t) (order : Order.t) : prog unit :=
  (try_catch
     (orderData <- fetchOrderTransactions order ;;
      push orderData)
     (fun e => debugLog (LogError e)) ;;
   onProgress
     (fun allOrders =>
        {| ProgressState.phase := AmazonOrderDownload;
           ProgressState.total := lengthZ orders;
           ProgressState.complete := lengthZ allOrders |}))%prog.

Section WithNetwork.

Variable net : network.

(** [fetchOrders(year, onProgress)] under a schedule of the tasks; [None]
    when the schedule leaves a task unfinished.  The result array starts
    empty at each call. *)
Definition fetchOrders (sched : list nat) (year : option Z) (w : World.t)
  : option ((exn + list Order.t) * World.t) :=
  match run net (listOrders year) w with
  | (inl e, w1) => Some (inl e, w1)
  | (inr orders, w1) =>
      let w1' := {| World.requests := World.requests w1;
                    World.log := World.log w1;
                    World.progress := World.progress w1;
                    World.allOrders := [] |} in
      match Throttle_all net sched (map (processOrder orders) orders) w1' with
      | Some (inl e, w2) => Some (inl e, w2)
      | Some (inr _, w2) => Some (inr (World.allOrders w2), w2)
      | None => None
      end
  end.

End WithNetwork.

End Amazon.

(* ------------------------------------------------------------------ *)
(** ** The Walmart provider (class [WalmartProvider]) *)

Module Walmart.

Definition ORDER_PAGES_URL : string := "https://www.walmart.com/orders".

Definition ORDER_DETAILS_URL : string :=
  "https://www.walmart.com/orders/{orderID}?storePurchase={storePurchase}".

(** [.mw3:contains("Sign In")] *)
Definition signInMarker : selector := Compound [Class "mw3"; Contains "Sign In"].

Definition doCheckAuth : prog AuthInfo.t :=
  try_catch
    (res <- fetch ORDER_PAGES_URL ;;
     doc <- load_text res ;;
     let signIn := select doc signInMarker in
     if 0 <? length signIn then
       Ret {| AuthInfo.status := NotLoggedIn; AuthInfo.startingYear := None |}
     else
       let lowestYear := Math_min (map parseIntOf (yearOptions doc)) in
       Ret {| AuthInfo.status := Success;
              AuthInfo.startingYear := Some lowestYear |})%prog
    (fun e =>
       debugLog (LogString ("Walmart auth failed with error: "
                            ++ string_of_exn e)) ;;
       Ret {| AuthInfo.status := Failure; AuthInfo.startingYear := None |})%prog.

Definition notSlash : regex := Chr (fun c => negb (Ascii.eqb c "/")).

(** [/.*orders\/([^/]+)\/.*/] *)
Definition orders_regex : regex :=
  Seq (Star dot)
    (Seq (Lit "orders/")
       (Seq (Group 1 (Plus notSlash)) (Seq (Lit "/") (Star dot)))).

Definition word : regex := Chr isWordChar.
Definition digit : regex := Chr isDigit.

(** [(\w+ \d{2}, \d{4})], the first group of the two date patterns. *)
Definition date_group : regex :=
  Group 1
    (Seq (Plus word)
       (Seq (Lit " ") (Seq (Repeat 2 digit) (Seq (Lit ", ") (Repeat 4 digit))))).

(** [/(\w+ \d{2}, \d{4}) purchase/] *)
Definition purchase_regex : regex := Seq date_group (Lit " purchase").

(** [/(\w+ \d{2}, \d{4}) (order|purchase)/] *)
Definition order_or_purchase_regex : regex :=
  Seq date_group (Seq (Lit " ") (Group 2 (Alt (Lit "order") (Lit "purchase")))).

(** [dateMatch ? dateMatch[1] : ''] *)
Definition dateOf (r : regex) (dateText : string) : string :=
  match exec r dateText with
  | Some dateMatch =>
      match group 1 (groups dateMatch) with
      | Some d => d
      | None => EmptyString
      end
  | None => EmptyString
  end.

(** The [href] of the return link of a listing entry. *)
Definition returnLinkOf (doc : document) (el : path) : option string :=
  attr doc
    (find doc [el] (Compound [Tag "a"; AttrEq "link-identifier" "Start a return"]))
    "href".

(** The identifier of a listing entry: [returnLink?.replace(...)]. *)
Definition groupId (doc : document) (el : path) : option string :=
  option_map (fun returnLink => replace_by_group1 returnLink orders_regex)
    (returnLinkOf doc el).

(** [!id]: no identifier, or an empty one. *)
Definition noId (id : option string) : bool :=
  match id with
  | Some s => negb (JsString.truthy s)
  | None => true
  end.

(** The callback of the loop of [orderListFromPage]. *)
Definition orderGroup (doc : document) (el : path) : prog (list Order.t) :=
  try_catch
    (let returnLink := returnLinkOf doc el in
     let id := groupId doc el in
     let walmartStorePurchase :=
       option_map (fun l => includes l "orderSource=STORE") returnLink in
     if noId id then
       debugLog (LogString "No order ID found in orderGroup-* element") ;;
       Ret []
     else
       let dateText := trim (text doc (find doc [el] (Compound [Tag "h3"]))) in
       let date := dateOf purchase_regex dateText in
       Ret [{| Order.id := match id with Some s => s | None => EmptyString end;
               Order.date := date;
               Order.walmartStorePurchase := walmartStorePurchase;
               Order.transactions := None |}])%prog
    (fun e => debugLog (LogError e) ;; Ret [])%prog.

Definition orderListFromPage (doc : document) : prog (list Order.t) :=
  each (select doc (Compound [AttrStarts "data-testid" "orderGroup-"]))
       (orderGroup doc).

(** The characters [/[^0-9.-]+/g] leaves: digits, the point and the minus. *)
Definition numeric (c : ascii) : bool :=
  isDigit c || Ascii.eqb c "." || Ascii.eqb c "-".

(** [text ? parseFloat(text.replace(/[^0-9.-]+/g, '')) : 0], the amount of a
    price or of a total: every character that is not numeric goes, and an
    empty text is zero. *)
Definition amountOf (text : string) : number :=
  if JsString.truthy text
  then parseFloat (JsString.filter numeric text)
  else ofZ 0.

(** The items of a detail page: the first loop of [fetchOrderTransactions]. *)
Definition items (order : Order.t) (doc : document) : list Item.t :=
  flat_map
    (fun el =>
       let itemTitle :=
         trim (text doc
                 (first (find doc [el]
                           (Compound [AttrEq "data-testid" "productName"])))) in
       let itemPriceText :=
         trim (text doc
                 (first (find doc [el]
                           (Descendant (Compound [Class "column3"])
                              [Class "f5"; Class "b"; Class "black"; Class "tr"])))) in
       let itemPrice := amountOf itemPriceText in
       let isRefunded :=
         includes
           (text doc
              (find doc
                 (closest doc el
                    (Compound [AttrStarts "data-testid" "category-accordion"]))
                 (Compound [AttrEq "data-testid" "category-label"])))
           "Refunded" in
       if JsString.truthy itemTitle
       then [{| Item.orderId := Some (Order.id order); Item.title := itemTitle;
                Item.price := itemPrice; Item.refunded := Some isRefunded |}]
       else [])
    (select doc (Compound [AttrEq "data-testid" "itemtile-stack"])).

(** [item.refunded === refund] *)
Definition refundedIs (refund : bool) (item : Item.t) : bool :=
  match Item.refunded item with
  | Some b => Bool.eqb b refund
  | None => false
  end.

(** The transaction blocks of a detail page. *)
Definition blocks (doc : document) : selection :=
  select doc
    (Or (Compound [AttrStarts "data-testid" "orderGroup-"])
        (Compound [Class "print-bill-body"])).

Definition blockRefund (doc : document) (el : path) : bool :=
  includes
    (text doc (find doc [el] (Compound [AttrEq "data-testid" "category-label"])))
    "Refunded".

(** The transaction of one block: the body of the second loop. *)
Definition transactionOf (order : Order.t) (items : list Item.t)
           (doc : document) (el : path) : OrderTransaction.t :=
  let dateText :=
    trim (text doc (find doc [el] (Compound [Tag "h1"; Class "print-bill-date"]))) in
  let date := dateOf order_or_purchase_regex dateText in
  let amountText :=
    trim (text doc
            (last (find doc [el]
                     (Descendant (Compound [Class "bill-order-total-payment"])
                        [Tag "h2"])))) in
  let amount := amountOf amountText in
  let refund := blockRefund doc el in
  {| OrderTransaction.id := Order.id order;
     OrderTransaction.amount := amount;
     OrderTransaction.date := date;
     OrderTransaction.refund := refund;
     OrderTransaction.items := List.filter (refundedIs refund) items |}.

Definition transactions (order : Order.t) (doc : document)
  : list OrderTransaction.t :=
  map (transactionOf order (items order doc) doc) (blocks doc).

Definition orderUrl (order : Order.t) : string :=
  replace (replace ORDER_DETAILS_URL "{orderID}" (Order.id order))
    "{storePurchase}"
    (match Order.walmartStorePurchase order with
     | Some true => "true"
     | _ => "false"
     end).

Definition fetchOrderTransactions (order : Order.t) : prog Order.t :=
  (res <- fetch (orderUrl order) ;;
   doc <- load_text res ;;
   Ret {| Order.id := Order.id order; Order.date := Order.date order;
          Order.walmartStorePurchase := Order.walmartStorePurchase order;
          Order.transactions := Some (transactions order doc) |})%prog.

Definition processOrders (year : option Z) (page : Z) : prog (list Order.t) :=
  let index := ((page - 1) * 10)%Z in
  let url := (ORDER_PAGES_URL ++ "?startIndex=" ++ string_of_Z index
              ++ match truthyYear year with
                 | Some y => "&timeFilter=year-" ++ string_of_Z y
                 | None => EmptyString
                 end)%string in
  (res <- fetch url ;;
   doc <- load_text res ;;
   orderListFromPage doc)%prog.

(** [let endPage = 1; if (maxPages && maxPages < endPage) endPage = maxPages] *)
Definition endPageOf (maxPages : option Z) : Z :=
  match maxPages with
  | Some m => if negb (m =? 0)%Z && (m <? 1)%Z then m else 1%Z
  | None => 1%Z
  end.

Definition pageScan (endPage complete : Z) : list Order.t -> ProgressState.t :=
  fun _ => {| ProgressState.phase := WalmartPageScan;
              ProgressState.total := endPage;
              ProgressState.complete := complete |}.

Fixpoint morePages (year : option Z) (endPage : Z) (pages : list Z)
         (orders : list Order.t) : prog (list Order.t) :=
  match pages with
  | [] => Ret orders
  | i :: rest =>
      (ordersPage <- processOrders year i ;;
       onProgress (pageScan endPage i) ;;
       morePages year endPage rest (orders ++ ordersPage))%prog
  end.

(** [fetchOrders] up to the orders the listing gives. *)
Definition listOrders (year maxPages : option Z) : prog (list Order.t) :=
  let url := (ORDER_PAGES_URL
              ++ match truthyYear year with
                 | Some y => "?timeFilter=year-" ++ string_of_Z y
                 | None => EmptyString
                 end)%string in
  (res <- fetch url ;;
   doc <- load_text res ;;
   let endPage := endPageOf maxPages in
   onProgress (pageScan endPage 0) ;;
   orders <- orderListFromPage doc ;;
   onProgress (pageScan endPage 1) ;;
   morePages year endPage (pagesFrom2 endPage) orders)%prog.

(** The task of one order. *)
Definition processOrder (orders : list Order.t) (order : Order.t) : prog unit :=
  (try_catch
     (orderData <- fetchOrderTransactions order ;;
      push orderData)
     (fun e => debugLog (LogError e)) ;;
   onProgress
     (fun allOrders =>
        {| ProgressState.phase := WalmartOrderDownload;
           ProgressState.total := lengthZ orders;
           ProgressState.complete := lengthZ allOrders |}))%prog.

Section WithNetwork.

Variable net : network.

(** [fetchOrders(year, maxPages, onProgress)] under a schedule of the
    tasks; [None] when the schedule leaves a task unfinished. *)
Definition fetchOrders (sched : list nat) (year maxPages : option Z)
           (w : World.t) : option ((exn + list Order.t) * World.t) :=
  match run net (listOrders year maxPages) w with
  | (inl e, w1) => Some (inl e, w1)
  | (inr orders, w1) =>
      let w1' := {| World.requests := World.requests w1;
                    World.log := World.log w1;
                    World.progress := World.progress w1;
                    World.allOrders := [] |} in
      match Throttle_all net sched (map (processOrder orders) orders) w1' with
      | Some (inl e, w2) => Some (inl e, w2)
      | Some (inr _, w2) => Some (inr (World.allOrders w2), w2)
      | None => None
      end
  end.

End WithNetwork.

End Walmart.

(* ------------------------------------------------------------------ *)
(** ** The providers side by side *)

Inductive provider : Type := AmazonProvider | WalmartProvider.

Definition authUrl (p : provider) : string :=
  match p with
  | AmazonProvider => Amazon.ORDER_PAGES_URL
  | WalmartProvider => Walmart.ORDER_PAGES_URL
  end.

Definition signInMarker (p : provider) : selector :=
  match p with
  | AmazonProvider => Amazon.signInMarker
  | WalmartProvider => Walmart.signInMarker
  end.

(** The auth probe of a provider. *)
Definition probeAuth (p : provider) : prog AuthInfo.t :=
  match p with
  | AmazonProvider => Amazon.checkAmazonAuth
  | WalmartProvider => Walmart.doCheckAuth
  end.

(** The entry the probe logs when it catches [e]. *)
Definition authFailureEntry (p : provider) (e : exn) : logged :=
  match p with
  | AmazonProvider =>
      LogString ("Amazon auth failed with error: " ++ string_of_exn e)
  | WalmartProvider =>
      LogString ("Walmart auth failed with error: " ++ string_of_exn e)
  end.

Definition listOrders (p : provider) (year maxPages : option Z)
  : prog (list Order.t) :=
  match p with
  | AmazonProvider => Amazon.listOrders year
  | WalmartProvider => Walmart.listOrders year maxPages
  end.

Definition fetchOrderTransactions (p : provider) : Order.t -> prog Order.t :=
  match p with
  | AmazonProvider => Amazon.fetchOrderTransactions
  | WalmartProvider => Walmart.fetchOrderTransactions
  end.

Definition processOrder (p : provider) : list Order.t -> Order.t -> prog unit :=
  match p with
  | AmazonProvider => Amazon.processOrder
  | WalmartProvider => Walmart.processOrder
  end.

Definition orderDownload (p : provider) : ProgressPhase :=
  match p with
  | AmazonProvider => AmazonOrderDownload
  | WalmartProvider => WalmartOrderDownload
  end.

(** [fetchOrders] of a provider; Amazon's takes no [maxPages]. *)
Definition fetchOrders (p : provider) (net : network) (sched : list nat)
           (year maxPages : option Z) (w : World.t)
  : option ((exn + list Order.t) * World.t) :=
  match p with
  | AmazonProvider => Amazon.fetchOrders net sched year w
  | WalmartProvider => Walmart.fetchOrders net sched year maxPages w
  end.

(** The listing entries of a page and the identifier each gives. *)
Definition entries (p : provider) (doc : document) : selection :=
  match p with
  | AmazonProvider => select doc (Compound [Class "js-order-card"])
  | WalmartProvider =>
      select doc (Compound [AttrStarts "data-testid" "orderGroup-"])
  end.

Definition entryId (p : provider) (doc : document) (el : path) : option string :=
  match p with
  | AmazonProvider => Amazon.cardId doc el
  | WalmartProvider => Walmart.groupId doc el
  end.

(** An entry is well formed when its identifier is recovered: defined and
    not empty. *)
Definition recoverable (p : provider) (doc : document) (el : path) : bool :=
  negb (Walmart.noId (entryId p doc el)).

Definition orderListFromPage (p : provider) (doc : document)
  : prog (list Order.t) :=
  match p with
  | AmazonProvider => Amazon.orderListFromPage doc
  | WalmartProvider => Walmart.orderListFromPage doc
  end.

(** The URL of listing page [i]. *)
Definition pageUrl (p : provider) (year : option Z) (i : Z) : string :=
  match p with
  | AmazonProvider =>
      if (i =? 1)%Z then Amazon.ORDER_PAGES_URL ++ Amazon.timeFilter year
      else Amazon.ORDER_PAGES_URL ++ "&startIndex="
           ++ string_of_Z ((i - 1) * 10) ++ Amazon.timeFilter year
  | WalmartProvider =>
      if (i =? 1)%Z
      then Walmart.ORDER_PAGES_URL
           ++ match truthyYear year with
              | Some y => "?timeFilter=year-" ++ string_of_Z y
              | None => EmptyString
              end
      else Walmart.ORDER_PAGES_URL ++ "?startIndex="
           ++ string_of_Z ((i - 1) * 10)
           ++ match truthyYear year with
              | Some y => "&timeFilter=year-" ++ string_of_Z y
              | None => EmptyString
              end
  end.

(** The parts of the sign-in marker: a compound selector in both probes. *)
Definition markerParts (p : provider) : list simple :=
  match signInMarker p with
  | Compound ss => ss
  | _ => []
  end.

(** The options of the year filter, and the [value] attributes they carry;
    an option without the attribute has none. *)
Definition timeFilterOptions (doc : document) : selection :=
  find doc (select doc (Compound [Id "time-filter"])) (Compound [Tag "option"]).

Definition optionValues (doc : document) : list string :=
  flat_map
    (fun el =>
       match attribs doc el "value" with
       | Some value => [value]
       | None => []
       end)
    (timeFilterOptions doc).

(** The options of the year filter as nodes of the page. *)
Definition optionNodes (doc : document) : list node :=
  flat_map
    (fun el =>
       match get doc el with
       | Some n => [n]
       | None => []
       end)
    (timeFilterOptions doc).

(** What an option shows as its value: its [value] attribute, or its text
    when it has none. *)
Definition shownValue (n : node) : string :=
  match attribute n "value" with
  | Some value => value
  | None => textContent n
  end.

(** A value counts as a year for the probes when it includes [year]. *)
Definition yearValued (value : string) : bool := includes value "year".

(** The value of the option of year [y]. *)
Definition yearText (y : nat) : string := "year-" ++ string_of_nat y.

(** An option carries the year [y]: it has a [value] attribute that reads
    [year-y], white space around it apart. *)
Definition carriesYear (n : node) (y : nat) : Prop :=
  exists value : string,
    attribute n "value" = Some value /\ trim value = yearText y.

(** The years the options of a list carry, in the order of the options; an
    option that carries no year is passed over. *)
Inductive yearsAmong : list node -> list nat -> Prop :=
| yearsAmong_nil : yearsAmong [] []
| yearsAmong_year (n : node) (ns : list node) (y : nat) (ys : list nat) :
    carriesYear n y -> yearsAmong ns ys -> yearsAmong (n :: ns) (y :: ys)
| yearsAmong_other (n : node) (ns : list node) (ys : list nat) :
    ~ (exists y : nat, carriesYear n y) ->
    yearsAmong ns ys -> yearsAmong (n :: ns) ys.

(** What the loop of the probes pushes for an option. *)
Definition pushedBy (n : node) : list (option string) :=
  if yearValued (shownValue n)
  then [option_map (fun v => replace (trim v) "year-" EmptyString)
          (attribute n "value")]
  else [].

(** An exception is raised inside the probe: the request is rejected, or
    reading the body fails. *)
Definition raisedInside (net : network) (p : provider) (e : exn) : Prop :=
  net (authUrl p) = inl e \/
  exists res : Response.t,
    net (authUrl p) = inr res /\ Response.text res = inl e.

(** The URL of the detail page of an order. *)
Definition detailUrl (p : provider) (order : Order.t) : string :=
  match p with
  | AmazonProvider => Amazon.ORDER_DETAILS_URL ++ "?orderID=" ++ Order.id order
  | WalmartProvider => Walmart.orderUrl order
  end.

(** The items a provider extracts from a detail page. *)
Definition extractedItems (p : provider) (order : Order.t) (doc : document)
  : list Item.t :=
  match p with
  | AmazonProvider => Amazon.items doc
  | WalmartProvider => Walmart.items order doc
  end.



(** The identifiers of the well-formed entries of a page, in document
    order. *)
Definition recoveredIds (p : provider) (doc : document) : list string :=
  flat_map
    (fun el =>
       match entryId p doc el with
       | Some id => if JsString.truthy id then [id] else []
       | None => []
       end)
    (entries p doc).

(** The entry Walmart's listing extraction logs for an entry it skips. *)
Definition noOrderId : logged :=
  LogString "No order ID found in orderGroup-* element".


(** What a task reports when it ends: the number of orders discovered and
    the number of orders in the result array at that time. *)
Definition downloadProgress (p : provider) (orders : list Order.t)
  : list Order.t -> ProgressState.t :=
  fun allOrders =>
    {| ProgressState.phase := orderDownload p;
       ProgressState.total := lengthZ orders;
       ProgressState.complete := lengthZ allOrders |}.

(** The orders whose detail page is fetched and parsed without an error,
    with their transactions. *)
Definition detailed (p : provider) (net : network) (orders : list Order.t)
  : list Order.t :=
  flat_map
    (fun order =>
       match outcome net (fetchOrderTransactions p order) with
       | inr orderData => [orderData]
       | inl _ => []
       end)
    orders.

(** The number of listing pages a provider fetches: Amazon reads it off the
    pagination control of the first page, Walmart starts from one page and
    looks at [maxPages]. *)
Definition pageCount (p : provider) (firstPage : document) (maxPages : option Z)
  : Z :=
  match p with
  | AmazonProvider => Amazon.endPageOf firstPage
  | WalmartProvider => Walmart.endPageOf maxPages
  end.

Definition morePages (p : provider) (year : option Z) (endPage : Z)
  : list Z -> list Order.t -> prog (list Order.t) :=
  match p with
  | AmazonProvider => Amazon.morePages year endPage
  | WalmartProvider => Walmart.morePages year endPage
  end.

(** The page numbers fetched, in the order they are fetched. *)
Definition pageNumbers (endPage : Z) : list Z := 1%Z :: pagesFrom2 endPage.

(* ------------------------------------------------------------------ *)
(** ** Notions the statements use *)

(** What follows a run of digits: the end, or a character that is no digit. *)
Definition stopsDigits (rest : string) : Prop :=
  match rest with
  | String c _ => isDigit c = false
  | EmptyString => True
  end.


(** A document holds an element matching the compound [ss]. *)
Definition holds (doc : document) (ss : list simple) : Prop :=
  exists (p : path) (n : node),
    get doc p = Some n /\ forallb (matchesSimple n) ss = true.


(** The filter without years as the claim has it: on a page without the
    sign-in marker none of whose options carries a year, the probe returns
    Success with positive infinity. *)
Definition givesInfinityWithoutYears (p : provider) (doc : document) : Prop :=
  forall (net : network) (w : World.t) (res : Response.t),
    net (authUrl p) = inr res ->
    Response.text res = inr doc ->
    ~ holds doc (markerParts p) ->
    yearsAmong (optionNodes doc) [] ->
    fst (run net (probeAuth p) w)
    = inr {| AuthInfo.status := Success;
             AuthInfo.startingYear := Some PosInfinity |}.

(** The order an Amazon card gives. *)
Definition amazonOrderOf (doc : document) (el : path) : list Order.t :=
  match Amazon.cardId doc el with
  | Some id =>
      if JsString.truthy id then
        [{| Order.id := id;
            Order.date :=
              trim (text doc
                      (first (find doc [el]
                                (Descendant (Compound [Class "order-info"])
                                   [Class "value"]))));
            Order.walmartStorePurchase := None;
            Order.transactions := None |}]
      else []
  | None => []
  end.

(** The order a Walmart entry gives. *)
Definition walmartOrderOf (doc : document) (el : path) : list Order.t :=
  if Walmart.noId (Walmart.groupId doc el) then []
  else [{| Order.id := match Walmart.groupId doc el with
                       | Some s => s
                       | None => EmptyString
                       end;
           Order.date :=
             Walmart.dateOf Walmart.purchase_regex
               (trim (text doc (find doc [el] (Compound [Tag "h3"]))));
           Order.walmartStorePurchase :=
             option_map (fun l => includes l "orderSource=STORE")
               (Walmart.returnLinkOf doc el);
           Order.transactions := None |}].

(** The orders a listing page gives: one for each well-formed entry. *)
Definition listed (p : provider) (doc : document) : list Order.t :=
  match p with
  | AmazonProvider => flat_map (amazonOrderOf doc) (entries p doc)
  | WalmartProvider => flat_map (walmartOrderOf doc) (entries p doc)
  end.

(** The diagnostic entries a listing page leaves: one for each entry
    Walmart skips, none on Amazon. *)
Definition skipEntries (p : provider) (doc : document) : list logged :=
  match p with
  | AmazonProvider => []
  | WalmartProvider =>
      repeat noOrderId
        (length (List.filter (fun el => negb (recoverable p doc el))
                   (entries p doc)))
  end.

(** The text of a decimal literal: a minus sign when [neg], the digits [i]
    of the integer part, and a point and the digits [f] of the fraction when
    there are any. *)
Definition literal (neg : bool) (i f : Decimal.uint) : string :=
  (if neg then "-" else EmptyString)
  ++ NilEmpty.string_of_uint i
  ++ match f with
     | Decimal.Nil => EmptyString
     | _ => "." ++ NilEmpty.string_of_uint f
     end.

(** The value of the literal, in lowest terms: the integer part plus the
    fraction over the power of ten of its length, negated when [neg]. *)
Definition literalValue (neg : bool) (i f : Decimal.uint) : Q :=
  let scale := (10 ^ Z.of_nat (Decimal.nb_digits f))%Z in
  Qred (Qmake (signed neg (Z.of_nat (Nat.of_uint i) * scale
                           + Z.of_nat (Nat.of_uint f)))
              (Z.to_pos scale)).

(** Amount parsing as the claim has it: when a text, its characters other
    than digits, point and minus taken away, is a decimal literal, the
    amount is the value of the literal, sign included. *)
Definition parsesAmounts (parse : string -> number) : Prop :=
  forall (neg : bool) (i f : Decimal.uint) (text : string),
    i <> Decimal.Nil \/ f <> Decimal.Nil ->
    JsString.filter Walmart.numeric text = literal neg i f ->
    parse text = Finite (literalValue neg i f).

(** A text made of points and minus signs only. *)
Fixpoint onlyPointMinus (s : string) : Prop :=
  match s with
  | EmptyString => True
  | String c s' => (c = "."%char \/ c = "-"%char) /\ onlyPointMinus s'
  end.

(** What an event adds to the result array, to the log, to the requests. *)
Definition pushesOf (ev : event) : list Order.t :=
  match ev with
  | Did (Push o) => [o]
  | _ => []
  end.

Definition logsOf (ev : event) : list logged :=
  match ev with
  | Did (DebugLog v) => [v]
  | _ => []
  end.

Definition requestsOf (ev : event) : list string :=
  match ev with
  | Requested url => [url]
  | _ => []
  end.

(** The errors among the entries of a log. *)
Definition errorsLogged (log : list logged) : list exn :=
  flat_map (fun v => match v with LogError e => [e] | LogString _ => [] end) log.

(** A task that has events left ends by reporting progress with [f]. *)
Definition reportsLast (f : list Order.t -> ProgressState.t) (t : list event)
  : Prop :=
  t = [] \/ exists pre : list event, t = pre ++ [Did (OnProgress f)].

(** The last progress callback received reports [f] of the result array as
    it stands. *)
Definition upToDate (f : list Order.t -> ProgressState.t) (w : World.t) : Prop :=
  exists earlier : list ProgressState.t,
    World.progress w = earlier ++ [f (World.allOrders w)].

(** The world when the tasks start: the result array is empty. *)
Definition withEmptyResult (w : World.t) : World.t :=
  {| World.requests := World.requests w;
     World.log := World.log w;
     World.progress := World.progress w;
     World.allOrders := [] |}.

(** The errors the detail fetches of a list of orders throw. *)
Definition detailErrors (p : provider) (net : network) (orders : list Order.t)
  : list exn :=
  flat_map
    (fun order =>
       match outcome net (fetchOrderTransactions p order) with
       | inr _ => []
       | inl e => [e]
       end)
    orders.

(** Listing page [i] resolves to the document [doc]. *)
Definition servesPage (net : network) (p : provider) (year : option Z)
           (i : Z) (doc : document) : Prop :=
  exists res : Response.t,
    net (pageUrl p year i) = inr res /\ Response.text res = inr doc.

(** The last progress callback received is [ps]. *)
Definition finalProgress (w : World.t) (ps : ProgressState.t) : Prop :=
  exists earlier : list ProgressState.t, World.progress w = earlier ++ [ps].

(** The detail page of every order of the list is fetched and parsed
    without an error. *)
Definition allDetailed (p : provider) (net : network) (orders : list Order.t)
  : Prop :=
  Forall
    (fun order =>
       exists orderData : Order.t,
         outcome net (fetchOrderTransactions p order) = inr orderData)
    orders.

(** The scenario of the two-page listing as the claim has it: called with
    [maxPages = 2], [fetchOrders] returns at most thirteen orders and its
    last progress callback reports [complete = total = 13]. *)
Definition twoPageScenario (p : provider) (net : network) (sched : list nat)
  : Prop :=
  exists (result : list Order.t) (w' : World.t),
    fetchOrders p net sched None (Some 2%Z) World.empty = Some (inr result, w')
    /\ length result <= 13
    /\ finalProgress w'
         {| ProgressState.phase := orderDownload p;
            ProgressState.total := 13;
            ProgressState.complete := 13 |}.


(* ------------------------------------------------------------------ *)
(** ** Notions for the regular expressions of the listing extraction *)

(** Every character of [s] satisfies [p]. *)
Fixpoint every (p : ascii -> bool) (s : string) : bool :=
  match s with
  | EmptyString => true
  | String c s' => p c && every p s'
  end.

(** The characters [.] matches. *)
Definition notLineTerminator (c : ascii) : bool :=
  negb ((code c =? 10) || (code c =? 13)).

(** Where [s] stops being made of [p]: at its end, or at a character that
    fails [p]. *)
Definition stopsAt (p : ascii -> bool) (s : string) : bool :=
  match s with
  | EmptyString => true
  | String c _ => negb (p c)
  end.

(** The ways a greedy star over a class reads a prefix of [s]: the longest
    Regex.run first, then one character less each time, down to nothing. *)
Fixpoint star_states (p : ascii -> bool) (s : string) (caps : captures)
  : list mstate :=
  match s with
  | EmptyString => [(EmptyString, caps)]
  | String c s' =>
      (if p c then star_states p s' caps else []) ++ [(s, caps)]
  end.

(** [/[^&#]/], the characters of an Amazon order identifier in a link. *)
Definition notAmpHash (c : ascii) : bool :=
  negb (Ascii.eqb c "&" || Ascii.eqb c "#").

(** [/[^/]/], the characters of a Walmart order identifier in a link. *)
Definition notSlashChar (c : ascii) : bool := negb (Ascii.eqb c "/").

(** The link a listing entry takes its identifier from: the [href] of the
    first link to an order on Amazon, of the return link on Walmart. *)
Definition linkOf (p : provider) (doc : document) (el : path) : option string :=
  match p with
  | AmazonProvider =>
      attr doc
        (find doc [el] (Compound [Tag "a"; AttrIncludes "href" "orderID="]))
        "href"
  | WalmartProvider => Walmart.returnLinkOf doc el
  end.

(** The pattern the identifier is cut out of the link with. *)
Definition idRegex (p : provider) : regex :=
  match p with
  | AmazonProvider => Amazon.orderID_regex
  | WalmartProvider => Walmart.orders_regex
  end.

(** A pattern that captures nothing: it leaves the groups as they are. *)
Definition keepsGroups (K : regex) : Prop :=
  forall x y : mstate, In y (Regex.run K x) -> snd y = snd x.





(* ------------------------------------------------------------------ *)
(** ** Notions for the progress callbacks and the listing pages *)

(** The phase of the scan of the listing pages. *)
Definition pageScanPhase (p : provider) : ProgressPhase :=
  match p with
  | AmazonProvider => AmazonPageScan
  | WalmartProvider => WalmartPageScan
  end.

(** What the scan of the listing reports after page [i] of [endPage]. *)
Definition scanProgress (p : provider) (endPage i : Z) : ProgressState.t :=
  {| ProgressState.phase := pageScanPhase p;
     ProgressState.total := endPage;
     ProgressState.complete := i |}.

(** The callback an event gives while the result array is [all]. *)
Definition progressOf (all : list Order.t) (ev : event)
  : list ProgressState.t :=
  match ev with
  | Did (OnProgress f) => [f all]
  | _ => []
  end.

(** One tick for each progress callback. *)
Definition progressTicks (ev : event) : list unit :=
  match ev with
  | Did (OnProgress _) => [tt]
  | _ => []
  end.

(** [lo <= x1 <= x2 <= ... <= xn <= hi] *)
Fixpoint ascends (lo : Z) (l : list Z) (hi : Z) : Prop :=
  match l with
  | [] => (lo <= hi)%Z
  | x :: l' => (lo <= x)%Z /\ ascends x l' hi
  end.

(** An event that reports progress reports it with [f]. *)
Definition reportsWith (f : list Order.t -> ProgressState.t) (ev : event)
  : Prop :=
  forall g, ev = Did (OnProgress g) -> g = f.

(** Listing page [i] cannot be had: the request is rejected with [e], or
    reading the body fails with [e]. *)
Definition failsPage (net : network) (p : provider) (year : option Z)
           (i : Z) (e : exn) : Prop :=
  net (pageUrl p year i) = inl e \/
  exists res : Response.t,
    net (pageUrl p year i) = inr res /\ Response.text res = inl e.

(** The detail page of [order] cannot be had. *)
Definition failsDetail (net : network) (p : provider) (order : Order.t)
           (e : exn) : Prop :=
  net (detailUrl p order) = inl e \/
  exists res : Response.t,
    net (detailUrl p order) = inr res /\ Response.text res = inl e.

(** The order [order] with the transactions [txs]. *)
Definition withTransactions (order : Order.t) (txs : list OrderTransaction.t)
  : Order.t :=
  {| Order.id := Order.id order; Order.date := Order.date order;
     Order.walmartStorePurchase := Order.walmartStorePurchase order;
     Order.transactions := Some txs |}.

(** The events an observer of the network and of the progress callback
    sees: everything but the entries of the diagnostic log. *)
Definition isLog (ev : event) : bool :=
  match ev with
  | Did (DebugLog _) => true
  | _ => false
  end.

Definition visible (t : list event) : list event :=
  List.filter (fun ev => negb (isLog ev)) t.

(** What the scan does for listing page [i]: the request, and the callback
    once the page is read. *)
Definition pageEvents (p : provider) (year : option Z) (endPage i : Z)
  : list event :=
  [Requested (pageUrl p year i);
   Did (OnProgress (fun _ => scanProgress p endPage i))].

(* ------------------------------------------------------------------ *)
(** ** Notions for the amounts and the page count *)

(** A number that is not negative: NaN, positive infinity, or a rational
    that is zero or more. *)
Definition notNegative (x : number) : Prop :=
  match x with
  | NaN | PosInfinity => True
  | NegInfinity => False
  | Finite q => (0 <= q)%Q
  end.

(** The numbers the entries of Amazon's pagination control read as. *)
Definition paginationNumbers (doc : document) : list Z :=
  flat_map
    (fun el =>
       match parseIntZ (trim (text doc [el])) with
       | Some numPage => [numPage]
       | None => []
       end)
    (select doc (Descendant (Compound [Class "a-pagination"]) [Tag "li"])).

(** The year an option of the filter is read as. *)
Definition yearOf (value : string) : number :=
  parseInt (replace (trim value) "year-" EmptyString).

(* ------------------------------------------------------------------ *)
(** ** Notions for the detail pages *)

(** The rows of the payment details of an Amazon detail page, and the line
    a row is read as. *)
Definition paymentRows (doc : document) : selection :=
  find doc (first (select doc (Compound [Class "a-expander-inline-content"])))
    (Compound [Class "a-row"]).

Definition rowLine (doc : document) (el : path) : string :=
  replaceAll (trim (text doc [el])) LF EmptyString.

(** The error a method call on [undefined] throws. *)
Definition undefinedRead (reading : string) : exn :=
  TypeError ("Cannot read properties of undefined (reading '"
             ++ reading ++ "')").

(** A character of an identifier that [replace] leaves as it is: no [$],
    which starts a substitution pattern, and no brace, which starts a
    placeholder of the URL template. *)
Definition plainIdChar (c : ascii) : bool :=
  negb (Ascii.eqb c "$" || Ascii.eqb c "{").

(** A pattern has a first match that ends in the state [y]. *)
Definition firstRun (r : regex) (x y : mstate) : Prop :=
  exists more : list mstate, Regex.run r x = y :: more.

(** The text of a Walmart date: a month word, two digits of the day and
    four digits of the year. *)
Definition walmartDate (month : string) (d1 d2 y1 y2 y3 y4 : ascii) : string :=
  month ++ " " ++ String d1 (String d2 (", " ++ String y1 (String y2 (String y3 (String y4 EmptyString))))).

(* ------------------------------------------------------------------ *)
(** ** Notions for the rows of Amazon's payment details *)

(** [sep] starts at no position of [pre] in [pre ++ sep ++ rest]: the
    occurrence after [pre] is the first. *)
Fixpoint firstOccurrence (pre sep rest : string) : bool :=
  match pre with
  | EmptyString => true
  | String _ pre' =>
      negb (startsWith (pre ++ sep ++ rest) sep)
      && firstOccurrence pre' sep rest
  end.

Definition notChar (k c : ascii) : bool := negb (Ascii.eqb c k).

(** What a row is taken for: a shipment ([Some false]), a refund
    ([Some true]), or neither. *)
Definition rowKind (line : string) : option bool :=
  if includes line "Items shipped" then Some false
  else if includes line "Refund: Completed" then Some true
  else None.

(** The label the date and the amount are looked for after. *)
Definition rowLabel (refund : bool) : string :=
  if refund then ": Completed" else "shipped:".


(* ------------------------------------------------------------------ *)
(** ** Sample pages and networks *)

Module Samples.

Definition testid (tag value : string) (children : list node) : node :=
  Element tag [("data-testid", value)] children.

Definition cls (tag class : string) (children : list node) : node :=
  Element tag [("class", class)] children.

(** A small page to try the queries on. *)
Definition sample_page : document :=
  Element "html" []
    [ Element "div" [("id", "od-subtotals")]
        [ cls "div" "a-column a-span7" [Text "Gift Card Amount:"];
          Text " ";
          cls "div" "a-column a-span5" [Text "-$10.00"] ];
      cls "ul" "a-pagination"
        [ Element "li" [] [Text "1"]; Element "li" [] [Text " 2 "];
          Element "li" [] [Text "Next"] ] ].

(** An item tile of a Walmart detail page. *)
Definition tile (title price : string) : node :=
  testid "div" "itemtile-stack"
    [ testid "span" "productName" [Text title];
      cls "div" "column3" [cls "span" "f5 b black tr" [Text price]] ].

(** A Walmart detail page with two delivered items, one refunded item, and
    two transaction blocks: the bill of the purchase and the bill of the
    refund. *)
Definition walmart_detail : document :=
  Element "html" []
    [ testid "div" "category-accordion-delivered"
        [ testid "h2" "category-label" [Text "Delivered"];
          tile " Paper towels " "$12.98";
          tile "Olive oil" "$1,008.47" ];
      testid "div" "category-accordion-refunded"
        [ testid "h2" "category-label" [Text "Refunded"];
          tile "Batteries" "$5.00" ];
      cls "div" "print-bill-body"
        [ cls "h1" "print-bill-date" [Text "May 04, 2024 order"];
          cls "div" "bill-order-total-payment"
            [ Element "h2" [] [Text "Total"];
              Element "h2" [] [Text " $1,021.45 "] ] ];
      cls "div" "print-bill-body"
        [ testid "span" "category-label" [Text "Refunded"];
          cls "h1" "print-bill-date" [Text "May 09, 2024 order"];
          cls "div" "bill-order-total-payment"
            [ Element "h2" [] [Text "-$5.00"] ] ] ].

Definition walmart_order : Order.t :=
  {| Order.id := "200011223344"; Order.date := "May 04, 2024";
     Order.walmartStorePurchase := Some false; Order.transactions := None |}.

(** An item row of an Amazon detail page. *)
Definition yoItem (title price : string) : node :=
  cls "div" "yohtmlc-item"
    [ cls "a" "a-link-normal" [Text title];
      cls "span" "a-color-price" [Text price] ].

(** An Amazon detail page with three items, a shipment and a refund. *)
Definition amazon_detail : document :=
  Element "html" []
    [ yoItem " USB cable " "$7.99";
      yoItem "Notebook" "$3.50";
      yoItem "Desk lamp" "$21.00";
      cls "div" "a-expander-inline-content"
        [ cls "div" "a-row" [Text "Items shipped: May 2, 2024 - Visa ending in 1234: $32.49"];
          cls "div" "a-row" [Text "Refund: Completed May 9, 2024 - $21.00"] ] ].

Definition amazon_order : Order.t :=
  {| Order.id := "111-2223334-4445556"; Order.date := "May 1, 2024";
     Order.walmartStorePurchase := None; Order.transactions := None |}.

(** A network on which every request fails. *)
Definition offline : network := fun _ => inl (TypeError "Failed to fetch").

Definition ok (doc : document) : exn + Response.t :=
  inr {| Response.status := 200; Response.text := inr doc |}.

(** A network that serves one page and fails every other request. *)
Definition serve (url : string) (doc : document) : network :=
  fun u => if String.eqb u url then ok doc
           else inl (TypeError "Failed to fetch").

Definition opt (value label : string) : node :=
  Element "option" [("value", value)] [Text label].

(** The sign-in page Amazon answers with when the session has expired; the
    page still carries a year filter. *)
Definition amazon_signin : document :=
  Element "html" []
    [ Element "h1" [("class", "a-spacing-small")] [Text " Sign in "];
      Element "select" [("id", "time-filter")]
        [ opt "year-2024" "2024"; opt "year-2023" "2023" ] ].

Definition walmart_signin : document :=
  Element "html" []
    [ cls "div" "mw3 center" [Element "h2" [] [Text "Sign In or create account"]];
      Element "select" [("id", "time-filter")] [ opt "year-2022" "2022" ] ].


(** An order history whose filter offers no year. *)
Definition history_without_years : document :=
  Element "html" []
    [ Element "h1" [] [Text "Your Orders"];
      Element "select" [("id", "time-filter")]
        [ opt "last30" "last 30 days"; opt "months-3" "past 3 months" ] ].

(** A card of an Amazon listing; [href] is the link to the order, if any. *)
Definition card (date : string) (href : option string) : node :=
  cls "div" "a-box-group js-order-card"
    ([ cls "div" "order-info"
         [ cls "span" "label" [Text "Order placed"];
           cls "span" "value" [Text date];
           cls "span" "value" [Text "$32.49"] ] ]
     ++ match href with
        | Some h => [ Element "a" [("class", "a-link-normal"); ("href", h)]
                        [Text "View order details"] ]
        | None => []
        end).

(** An Amazon listing: two cards with a link to their order, one without. *)
Definition amazon_listing : document :=
  Element "html" []
    [ card " May 1, 2024 "
        (Some "/gp/your-account/order-details?orderID=111-2223334-4445556&ref=ppx");
      card "April 3, 2024" None;
      card "March 9, 2024"
        (Some "/gp/css/summary/print.html?ie=UTF8&orderID=D01-9876543-1234567#top") ].

(** An entry of a Walmart listing. *)
Definition orderGroupEntry (n heading : string) (href : option string) : node :=
  testid "div" ("orderGroup-" ++ n)
    ([ Element "h3" [] [Text heading] ]
     ++ match href with
        | Some h => [ Element "a" [("link-identifier", "Start a return"); ("href", h)]
                        [Text "Start a return"] ]
        | None => []
        end).

(** A Walmart listing: a store purchase, an entry without a return link, an
    online order, and an entry whose link is empty. *)
Definition walmart_listing : document :=
  Element "html" []
    [ orderGroupEntry "0" " May 04, 2024 purchase "
        (Some "/orders/200011223344/returns?orderSource=STORE");
      orderGroupEntry "1" "Apr 28, 2024 purchase" None;
      orderGroupEntry "2" "Delivered on Apr 02"
        (Some "https://www.walmart.com/orders/900055667788/returns");
      orderGroupEntry "3" "Mar 15, 2024 purchase" (Some EmptyString) ].

(** A shop with thirteen orders, ten on the first listing page and three on
    the second. *)
Definition amazonId (n : nat) : string :=
  "111-2223334-4445" ++ string_of_nat (100 + n).

Definition amazonOrder (n : nat) : Order.t :=
  {| Order.id := amazonId n; Order.date := "May 1, 2024";
     Order.walmartStorePurchase := None; Order.transactions := None |}.

Definition amazon_page (start count : nat) : document :=
  Element "html" []
    (map (fun n =>
            card "May 1, 2024"
              (Some ("/gp/your-account/order-details?orderID=" ++ amazonId n
                     ++ "&ref=ppx_yo_dt_b_order_details")%string))
       (seq start count)
     ++ [ cls "ul" "a-pagination"
            [ Element "li" [] [Text "1"]; Element "li" [] [Text "2"];
              Element "li" [] [Text "Next"] ] ]).

(** The shop on Amazon; the detail page of order [failing], if any, cannot
    be fetched. *)
Definition amazon_shop (failing : option nat) : network :=
  fun url =>
    if String.eqb url Amazon.ORDER_PAGES_URL then ok (amazon_page 0 10)
    else if String.eqb url (Amazon.ORDER_PAGES_URL ++ "&startIndex=10")
    then ok (amazon_page 10 3)
    else if startsWith url (Amazon.ORDER_DETAILS_URL ++ "?orderID=") then
      match failing with
      | Some n =>
          if String.eqb url (Amazon.ORDER_DETAILS_URL ++ "?orderID=" ++ amazonId n)
          then inl (TypeError "Failed to fetch")
          else ok amazon_detail
      | None => ok amazon_detail
      end
    else inl (TypeError "Failed to fetch").

Definition walmartId (n : nat) : string :=
  "200011223" ++ string_of_nat (100 + n).

Definition walmart_page (start count : nat) : document :=
  Element "html" []
    (map (fun n =>
            orderGroupEntry (string_of_nat n) "May 04, 2024 purchase"
              (Some ("/orders/" ++ walmartId n ++ "/returns")%string))
       (seq start count)).

(** The same shop on Walmart. *)
Definition walmart_shop : network :=
  fun url =>
    if String.eqb url Walmart.ORDER_PAGES_URL then ok (walmart_page 0 10)
    else if String.eqb url (Walmart.ORDER_PAGES_URL ++ "?startIndex=10")
    then ok (walmart_page 10 3)
    else if startsWith url (Walmart.ORDER_PAGES_URL ++ "/") then ok walmart_detail
    else inl (TypeError "Failed to fetch").

(** A schedule in which thirteen tasks take turns. *)
Definition taking_turns : list nat := concat (repeat (seq 0 13) 6).

End Samples.

(* ------------------------------------------------------------------ *)
(** ** More sample pages: the edges of the extraction *)

Module EdgeSamples.

Import Samples.

(** An order history whose filter has an option [yearly]: it includes
    [year] and reads as no number. *)
Definition history_with_yearly : document :=
  Element "html" []
    [ Element "h1" [] [Text "Your Orders"];
      Element "select" [("id", "time-filter")]
        [ opt "year-2024" "2024";
          opt "yearly" "Yearly summary";
          opt "year-2019" "2019" ] ].

(** An order history whose filter offers no year: two periods, and an
    option [This year] that has no [value] attribute. *)
Definition history_with_this_year : document :=
  Element "html" []
    [ Element "h1" [] [Text "Your Orders"];
      Element "select" [("id", "time-filter")]
        [ opt "last30" "last 30 days";
          opt "months-3" "past 3 months";
          Element "option" [] [Text "This year"] ] ].

(** An Amazon detail page whose shipment row lacks the colon of its
    label. *)
Definition amazon_detail_without_label : document :=
  Element "html" []
    [ yoItem "Notebook" "$3.50";
      cls "div" "a-expander-inline-content"
        [ cls "div" "a-row" [Text "Refund: Completed May 9, 2024 - $3.50"];
          cls "div" "a-row" [Text "Items shipped on May 2, 2024 - $3.50"] ] ].

(** A Walmart listing whose entry links to its return by another path. *)
Definition walmart_listing_other_link : document :=
  Element "html" []
    [ orderGroupEntry "0" "May 04, 2024 purchase"
        (Some "/account/returns?order=200011223344") ].

End EdgeSamples.

(* ------------------------------------------------------------------ *)
(** * Examples: the primitives on concrete inputs *)

Import Samples.

Example sample_elements :
  elements sample_page = [[]; [0]; [0; 0]; [0; 2]; [1]; [1; 0]; [1; 1]; [1; 2]].
Proof. reflexivity. Qed.

Example sample_adjacent :
  text sample_page
    (select sample_page
       (Adjacent (Descendant (Compound [Id "od-subtotals"])
                    [Class "a-column"; Contains "Gift Card"])
          [Class "a-column"]))
  = "-$10.00".
Proof. reflexivity. Qed.

Example sample_find :
  find sample_page (select sample_page (Compound [Class "a-pagination"]))
    (Compound [Tag "li"]) = [[1; 0]; [1; 1]; [1; 2]].
Proof. reflexivity. Qed.

Example sample_closest :
  closest sample_page [0; 2] (Compound [Id "od-subtotals"]) = [[0]].
Proof. reflexivity. Qed.

Example regex_greedy_star :
  replace_by_group1 "a/orders/1/orders/22/x"
    (Seq (Star dot)
       (Seq (Lit "orders/")
          (Seq (Group 1 (Plus (Chr (fun c => negb (Ascii.eqb c "/")))))
             (Seq (Lit "/") (Star dot))))) = "22".
Proof. reflexivity. Qed.

Example regex_no_match :
  replace_by_group1 "nothing here"
    (Seq (Lit "orders/") (Group 1 (Plus dot))) = "nothing here".
Proof. reflexivity. Qed.


(** The partition scenario on the Walmart provider. *)
Example walmart_partition_scenario :
  map (fun tx => (OrderTransaction.refund tx,
                  map Item.title (OrderTransaction.items tx)))
    (Walmart.transactions walmart_order walmart_detail)
  = [(false, ["Paper towels"; "Olive oil"]); (true, ["Batteries"])].
Proof. reflexivity. Qed.

(** The same shape of page on the Amazon provider: both transactions hold
    the three items. *)
Example amazon_all_items_everywhere :
  match outcome offline (Amazon.transactions amazon_order amazon_detail) with
  | inr txs =>
      map (fun tx => (OrderTransaction.refund tx,
                      map Item.title (OrderTransaction.items tx))) txs
  | inl _ => []
  end
  = [(false, ["USB cable"; "Notebook"; "Desk lamp"]);
     (true, ["USB cable"; "Notebook"; "Desk lamp"])].
Proof. reflexivity. Qed.

Example amazon_listing_orders :
  fst (run offline (Amazon.orderListFromPage amazon_listing) World.empty)
  = inr [ {| Order.id := "111-2223334-4445556"; Order.date := "May 1, 2024";
             Order.walmartStorePurchase := None; Order.transactions := None |};
          {| Order.id := "D01-9876543-1234567"; Order.date := "March 9, 2024";
             Order.walmartStorePurchase := None; Order.transactions := None |} ].
Proof. reflexivity. Qed.

Example walmart_listing_orders :
  run offline (Walmart.orderListFromPage walmart_listing) World.empty
  = (inr [ {| Order.id := "200011223344"; Order.date := "May 04, 2024";
              Order.walmartStorePurchase := Some true;
              Order.transactions := None |};
           {| Order.id := "900055667788"; Order.date := EmptyString;
              Order.walmartStorePurchase := Some false;
              Order.transactions := None |} ],
     {| World.requests := []; World.log := [noOrderId; noOrderId];
        World.progress := []; World.allOrders := [] |}).
Proof. reflexivity. Qed.

(* ------------------------------------------------------------------ *)
(** * Running programs: sequencing, catching, loops *)

Section RunningFacts.

Variable net : network.

Lemma outcome_bind {A B : Type} (m : prog A) (f : A -> prog B) :
  outcome net (bind m f) =
  match outcome net m with
  | inr a => outcome net (f a)
  | inl e => inl e
  end.
Proof. induction m; simpl; auto. Qed.

Lemma trace_bind {A B : Type} (m : prog A) (f : A -> prog B) :
  trace net (bind m f) =
  trace net m ++ match outcome net m with
                 | inr a => trace net (f a)
                 | inl _ => []
                 end.
Proof.
  induction m; simpl; auto.
  - now rewrite H.
  - now rewrite IHm.
Qed.

Lemma outcome_try_catch {A : Type} (m : prog A) (h : exn -> prog A) :
  outcome net (try_catch m h) =
  match outcome net m with
  | inr a => inr a
  | inl e => outcome net (h e)
  end.
Proof. induction m; simpl; auto. Qed.

Lemma trace_try_catch {A : Type} (m : prog A) (h : exn -> prog A) :
  trace net (try_catch m h) =
  trace net m ++ match outcome net m with
                 | inr _ => []
                 | inl e => trace net (h e)
                 end.
Proof.
  induction m; simpl; auto.
  - now rewrite H.
  - now rewrite IHm.
Qed.

Lemma run_bind {A B : Type} (m : prog A) (f : A -> prog B) (w : World.t) :
  run net (bind m f) w =
  match run net m w with
  | (inr a, w') => run net (f a) w'
  | (inl e, w') => (inl e, w')
  end.
Proof.
  unfold run. rewrite outcome_bind, trace_bind, fold_left_app.
  destruct (outcome net m); simpl; auto.
Qed.

(** A loop whose callbacks neither throw nor do anything gives what they
    push, in order. *)
Lemma each_pure {A : Type} (els : selection) (f : path -> prog (list A))
      (g : path -> list A) :
  (forall el, f el = Ret (g el)) -> each els f = Ret (flat_map g els).
Proof.
  intros Hf. induction els as [|el rest IH]; simpl; auto.
  now rewrite Hf, IH.
Qed.

Lemma outcome_each {A : Type} (els : selection) (f : path -> prog (list A))
      (g : path -> list A) :
  (forall el, outcome net (f el) = inr (g el)) ->
  outcome net (each els f) = inr (flat_map g els).
Proof.
  intros Hf. induction els as [|el rest IH]; simpl; auto.
  rewrite outcome_bind, Hf, outcome_bind, IH. reflexivity.
Qed.

Lemma trace_each {A : Type} (els : selection) (f : path -> prog (list A))
      (g : path -> list A) :
  (forall el, outcome net (f el) = inr (g el)) ->
  trace net (each els f) = flat_map (fun el => trace net (f el)) els.
Proof.
  intros Hf. induction els as [|el rest IH]; simpl; auto.
  rewrite trace_bind, Hf, trace_bind, IH, (outcome_each _ _ _ Hf).
  simpl. now rewrite app_nil_r.
Qed.

End RunningFacts.

(* ------------------------------------------------------------------ *)
(** * Documents: an element of the tree is selected when it matches *)

Lemma children_elements_In (cs : list node) :
  forall (k i : nat) (c : node) (p : path),
    nth_error cs i = Some c ->
    In p (elements c) ->
    In ((k + i) :: p)
       ((fix go (i : nat) (cs : list node) : list path :=
           match cs with
           | [] => []
           | c :: cs' => map (cons i) (elements c) ++ go (S i) cs'
           end) k cs).
Proof.
  induction cs as [|c0 cs IH]; intros k i c p Hnth Hin.
  - destruct i; discriminate.
  - apply in_or_app. destruct i as [|i]; simpl in Hnth.
    + injection Hnth as ->. left. rewrite Nat.add_0_r. now apply in_map.
    + right. replace (k + S i) with (S k + i) by lia. eapply IH; eauto.
Qed.

Lemma elements_get (p : path) :
  forall (doc n : node),
    get doc p = Some n -> isElement n = true -> In p (elements doc).
Proof.
  induction p as [|i p IH]; intros doc n Hget Hel.
  - simpl in Hget. injection Hget as ->. destruct n; [discriminate|].
    simpl. now left.
  - destruct doc as [|tag attribs cs]; [discriminate|]. simpl in Hget.
    destruct (nth_error cs i) as [c|] eqn:Hnth; [|discriminate].
    simpl. right.
    apply (@children_elements_In cs 0 i c p Hnth). eapply IH; eauto.
Qed.

Lemma matchesSimple_isElement (n : node) (s : simple) :
  matchesSimple n s = true -> isElement n = true.
Proof. destruct n; simpl; auto. Qed.

Lemma holds_select (doc : document) (s : simple) (ss : list simple) :
  holds doc (s :: ss) -> select doc (Compound (s :: ss)) <> [].
Proof.
  intros (p & n & Hget & Hm) Hnil.
  assert (Hin : In p (select doc (Compound (s :: ss)))).
  { unfold select. apply filter_In. split.
    - apply (@elements_get p doc n Hget). simpl in Hm.
      apply andb_prop in Hm as [Hs _]. eapply matchesSimple_isElement; eauto.
    - simpl. unfold matchesCompound. now rewrite Hget. }
  rewrite Hnil in Hin. contradiction.
Qed.

(* ------------------------------------------------------------------ *)
(** * Numbers: reading back a decimal numeral *)

Lemma digits_stop (rest : string) (acc : Z) (n : nat) :
  stopsDigits rest -> digits rest acc n = (acc, n, rest).
Proof. destruct rest; simpl; intros H; [reflexivity | now rewrite H]. Qed.

Lemma digits_string_of_uint (d : Decimal.uint) :
  forall (acc n : nat) (rest : string),
    stopsDigits rest ->
    digits (NilEmpty.string_of_uint d ++ rest) (Z.of_nat acc) n
    = (Z.of_nat (Nat.of_uint_acc d acc), Decimal.nb_digits d + n, rest).
Proof.
  induction d; intros acc n rest Hrest;
    try (cbn [NilEmpty.string_of_uint String.append digits Nat.of_uint_acc
              Decimal.nb_digits];
         match goal with
         | |- context [isDigit ?c] =>
             change (isDigit c) with true; cbv iota;
             change (digitValue c) with (Z.of_nat (code c - 48))
         end;
         rewrite <- Nat2Z.inj_mul with (n := 10), <- Nat2Z.inj_add;
         rewrite <- Nat.tail_mul_spec;
         match goal with
         | |- digits _ (Z.of_nat ?a) _ = (Z.of_nat (Nat.of_uint_acc _ ?b), _, _) =>
             replace a with b by (cbn; lia)
         end;
         rewrite IHd by assumption; f_equal; f_equal; lia).
  simpl. now apply digits_stop.
Qed.

Lemma append_empty (s : string) : (s ++ EmptyString)%string = s.
Proof. induction s; simpl; congruence. Qed.


Lemma nb_digits_pos (d : Decimal.uint) :
  d <> Decimal.Nil -> (Decimal.nb_digits d + 0 =? 0) = false.
Proof. destruct d; [contradiction|..]; reflexivity. Qed.






(* ------------------------------------------------------------------ *)
(** * Numbers: reading a decimal literal *)

Lemma of_uint_acc_value (d : Decimal.uint) :
  forall acc : nat,
    Nat.of_uint_acc d acc = acc * 10 ^ Decimal.nb_digits d + Nat.of_uint d.
Proof.
  unfold Nat.of_uint.
  induction d; intros acc; cbn [Nat.of_uint_acc Decimal.nb_digits];
    [cbn; lia|..];
    match goal with
    | |- Nat.of_uint_acc d ?a = _ + Nat.of_uint_acc d ?b =>
        rewrite (IHd a), (IHd b)
    end;
    rewrite !Nat.tail_mul_spec, Nat.pow_succ_r';
    generalize (10 ^ Decimal.nb_digits d) (Nat.of_uint_acc d 0); intros P F;
    ring.
Qed.

Lemma literal_head (i f : Decimal.uint) :
  i <> Decimal.Nil \/ f <> Decimal.Nil ->
  let body := literal false i f in
  trimStart body = body /\ sign body = (false, body)
  /\ startsWith body "Infinity" = false.
Proof.
  intros Hif.
  destruct i; [destruct f; [destruct Hif; contradiction|..]|..];
    repeat split; reflexivity.
Qed.

Lemma literal_sign (neg : bool) (i f : Decimal.uint) :
  i <> Decimal.Nil \/ f <> Decimal.Nil ->
  sign (trimStart (literal neg i f)) = (neg, literal false i f).
Proof.
  intros Hif. destruct (literal_head Hif) as (Ht & Hs & _).
  destruct neg; [reflexivity|]. now rewrite Ht.
Qed.

(** The digits of the integer part, and what follows them. *)
Lemma literal_digits (i f : Decimal.uint) :
  digits (literal false i f) 0%Z 0
  = (Z.of_nat (Nat.of_uint i), Decimal.nb_digits i + 0,
     match f with
     | Decimal.Nil => EmptyString
     | _ => String "." (NilEmpty.string_of_uint f)
     end).
Proof.
  unfold literal. cbn [String.append]. change 0%Z with (Z.of_nat 0).
  rewrite digits_string_of_uint; [reflexivity|].
  destruct f; simpl; auto.
Qed.

Lemma pow10_neg (n : nat) :
  n <> 0 -> pow10 (0 - Z.of_nat n) = Qmake 1 (Z.to_pos (10 ^ Z.of_nat n)).
Proof.
  intros Hn. unfold pow10.
  destruct (Z.leb_spec 0 (0 - Z.of_nat n)); [lia|].
  now replace (- (0 - Z.of_nat n))%Z with (Z.of_nat n) by lia.
Qed.

Lemma signed_mul (neg : bool) (a b : Z) :
  (signed neg a * b = signed neg (a * b))%Z.
Proof. destruct neg; simpl; lia. Qed.

(** [parseFloat] reads a decimal literal as its value. *)
Lemma parseFloat_literal (neg : bool) (i f : Decimal.uint) :
  i <> Decimal.Nil \/ f <> Decimal.Nil ->
  parseFloat (literal neg i f) = Finite (literalValue neg i f).
Proof.
  intros Hif. unfold parseFloat. rewrite (literal_sign neg Hif).
  destruct (literal_head Hif) as (_ & _ & ->).
  rewrite literal_digits. unfold literalValue.
  destruct (Decimal.uint_eq_dec f Decimal.Nil) as [->|Hf].
  - assert (Hi : i <> Decimal.Nil) by (destruct Hif; congruence).
    rewrite (nb_digits_pos Hi). cbn [andb exponent Decimal.nb_digits Z.of_nat].
    f_equal. apply Qred_complete.
    unfold Qeq, pow10. cbn.
    now rewrite !Z.mul_1_r, Z.add_0_r.
  - assert (Htail : match f with
                    | Decimal.Nil => EmptyString
                    | _ => String "." (NilEmpty.string_of_uint f)
                    end = String "." (NilEmpty.string_of_uint f))
      by (destruct f; [contradiction|..]; reflexivity).
    rewrite Htail. cbv iota beta.
    rewrite <- (append_empty (NilEmpty.string_of_uint f)).
    rewrite digits_string_of_uint by exact I.
    rewrite (nb_digits_pos Hf), andb_false_r. cbv beta iota.
    rewrite (nb_digits_pos Hf), andb_false_r.
    cbn [exponent]. f_equal. apply Qred_complete.
    rewrite Nat.add_0_r, pow10_neg
      by (intros H0; apply Hf; now apply DecimalFacts.nb_digits_0).
    rewrite of_uint_acc_value.
    unfold Qeq. cbn [Qnum Qden Qmult inject_Z]. rewrite Pos.mul_1_l.
    rewrite Nat2Z.inj_add, Nat2Z.inj_mul, Nat2Z.inj_pow.
    f_equal. now rewrite Z.mul_1_r.
Qed.

Lemma numeric_without_digits (text : string) :
  JsString.filter isDigit text = EmptyString ->
  onlyPointMinus (JsString.filter Walmart.numeric text).
Proof.
  induction text as [|c text IH]; cbn [JsString.filter]; [constructor|].
  unfold Walmart.numeric at 1.
  destruct (isDigit c); [discriminate|]. intros Hno. cbn [orb].
  destruct (Ascii.eqb_spec c "."); [subst; split; auto|].
  destruct (Ascii.eqb_spec c "-"); [subst; split; auto|].
  cbn [orb]. auto.
Qed.

(** Without a digit there is no number to read. *)
Lemma parseFloat_onlyPointMinus (s : string) :
  onlyPointMinus s -> parseFloat s = NaN.
Proof.
  destruct s as [|c1 [|c2 [|c3 s3]]]; cbn [onlyPointMinus]; intros H;
    repeat match goal with
           | H : _ /\ _ |- _ => destruct H
           | H : _ \/ _ |- _ => destruct H
           end; subst; reflexivity.
Qed.

(** Walmart's amount parsing reads a literal, noise apart, as its value. *)
Lemma walmart_parsesAmounts : parsesAmounts Walmart.amountOf.
Proof.
  intros neg i f text Hif Hlit. unfold Walmart.amountOf.
  destruct text as [|c text].
  - exfalso. cbn in Hlit.
    destruct neg; [discriminate|].
    destruct i; [destruct f; [destruct Hif; contradiction|..]|..];
      discriminate.
  - cbn [JsString.truthy]. rewrite Hlit. now apply parseFloat_literal.
Qed.

(* ------------------------------------------------------------------ *)
(** * The auth probe *)

(** What [find] gives for a compound selector matches every part of it. *)
Lemma find_compound_In (doc : document) (set : selection) (ss : list simple)
      (q : path) :
  In q (find doc set (Compound ss)) ->
  exists n : node, get doc q = Some n /\ forallb (matchesSimple n) ss = true.
Proof.
  unfold find. intros Hin. apply filter_In in Hin as [_ Hex].
  apply existsb_exists in Hex as (el & _ & Hm).
  apply andb_prop in Hm as [_ Hm]. cbn [matches] in Hm.
  unfold matchesCompound in Hm.
  destruct (get doc q) as [n|]; [eauto|discriminate].
Qed.

(** On an option, [attr] reads the value the option shows. *)
Lemma attr_option_value (doc : document) (el : path) (n : node) :
  get doc el = Some n ->
  matchesSimple n (Tag "option") = true ->
  attr doc [el] "value" = Some (shownValue n).
Proof.
  intros Hget Htag. unfold attr. rewrite Hget.
  destruct n as [|tag attribs cs]; [discriminate|].
  cbn [matchesSimple] in Htag.
  unfold attrOf, shownValue, attribute.
  destruct (lookup "value" attribs); [reflexivity|].
  now rewrite Htag.
Qed.

(** The loop of the probes, option by option. *)
Lemma yearOptions_nodes (doc : document) :
  yearOptions doc = flat_map pushedBy (optionNodes doc).
Proof.
  unfold yearOptions, optionNodes, timeFilterOptions.
  assert (Hall : forall el,
             In el (find doc (select doc (Compound [Id "time-filter"]))
                      (Compound [Tag "option"])) ->
             exists n : node,
               get doc el = Some n /\ matchesSimple n (Tag "option") = true).
  { intros el Hin. destruct (find_compound_In _ _ _ _ Hin) as (n & Hget & Hm).
    exists n. split; [exact Hget|]. cbn [forallb] in Hm.
    now apply andb_prop in Hm as [Hm _]. }
  induction (find doc (select doc (Compound [Id "time-filter"]))
               (Compound [Tag "option"])) as [|el els IH];
    cbn [flat_map]; [reflexivity|].
  destruct (Hall el (or_introl eq_refl)) as (n & Hget & Htag).
  rewrite (attr_option_value _ _ Hget Htag), Hget, IH
    by (intros el' Hin; apply Hall; now right).
  cbn [flat_map app]. f_equal.
  unfold pushedBy, yearValued, attribs. now rewrite Hget.
Qed.









(** No option that passes the test of the loop: nothing is pushed. *)
Lemma yearOptions_none (nodes : list node) :
  Forall (fun n => yearValued (shownValue n) = false) nodes ->
  flat_map pushedBy nodes = [].
Proof.
  induction 1 as [|n ns Hn _ IH]; cbn [flat_map]; [reflexivity|].
  unfold pushedBy at 1. now rewrite Hn.
Qed.

(** A [value] attribute of an option belongs to an option of the page. *)
Lemma optionValues_nodes (doc : document) (value : string) :
  In value (optionValues doc) ->
  exists n : node,
    In n (optionNodes doc) /\ attribute n "value" = Some value.
Proof.
  unfold optionValues, optionNodes. intros Hin.
  apply in_flat_map in Hin as (el & Hel & Hin). unfold attribs in Hin.
  destruct (get doc el) as [n|] eqn:Hget; [|contradiction].
  destruct (attribute n "value") as [v|] eqn:Hattr; [|contradiction].
  destruct Hin as [<-|[]]. exists n. split; [|exact Hattr].
  apply in_flat_map. exists el. split; [exact Hel|]. rewrite Hget. now left.
Qed.

Lemma select_holds (doc : document) (ss : list simple) :
  select doc (Compound ss) <> [] -> holds doc ss.
Proof.
  destruct (select doc (Compound ss)) as [|p l] eqn:Hsel; [congruence|].
  intros _. assert (Hin : In p (select doc (Compound ss)))
    by (rewrite Hsel; now left).
  apply filter_In in Hin as [_ Hm]. simpl in Hm. unfold matchesCompound in Hm.
  destruct (get doc p) as [n|] eqn:Hget; [|discriminate].
  now exists p, n.
Qed.

Lemma not_holds_select (doc : document) (ss : list simple) :
  ~ holds doc ss -> select doc (Compound ss) = [].
Proof.
  intros Hno. destruct (select doc (Compound ss)) eqn:Hsel; auto.
  exfalso. apply Hno, select_holds. congruence.
Qed.

Lemma signInMarker_parts (p : provider) :
  signInMarker p = Compound (markerParts p).
Proof. destruct p; reflexivity. Qed.

Section Probe.

Variable net : network.
Variable w : World.t.

(** What a probe gives once the page is read. *)
Lemma probe_page (p : provider) (res : Response.t) (doc : document) :
  net (authUrl p) = inr res ->
  Response.text res = inr doc ->
  fst (run net (probeAuth p) w)
  = inr (if 0 <? length (select doc (signInMarker p))
         then {| AuthInfo.status := NotLoggedIn; AuthInfo.startingYear := None |}
         else {| AuthInfo.status := Success;
                 AuthInfo.startingYear :=
                   Some (Math_min (map parseIntOf (yearOptions doc))) |}).
Proof.
  intros Hnet Htext. unfold run. cbn [fst].
  destruct p; cbn [probeAuth authUrl signInMarker] in *;
    unfold Amazon.checkAmazonAuth, Walmart.doCheckAuth;
    rewrite outcome_try_catch;
    cbn [outcome bind fetch debugLog]; rewrite Hnet;
    cbn [outcome bind]; unfold load_text; rewrite Htext;
    cbn [outcome bind];
    match goal with |- context [0 <? ?n] => destruct (0 <? n) end;
    reflexivity.
Qed.

(** What a probe gives when an exception is raised inside. *)
Lemma probe_exception (p : provider) (e : exn) :
  raisedInside net p e ->
  fst (run net (probeAuth p) w)
  = inr {| AuthInfo.status := Failure; AuthInfo.startingYear := None |}
  /\ exists entries : list logged,
       World.log (snd (run net (probeAuth p) w))
       = World.log w ++ entries ++ [authFailureEntry p e].
Proof.
  intros [Hnet | (res & Hnet & Htext)]; unfold run; cbn [fst snd];
    destruct p; cbn [probeAuth authUrl authFailureEntry] in *;
    unfold Amazon.checkAmazonAuth, Walmart.doCheckAuth;
    rewrite outcome_try_catch, trace_try_catch;
    cbn [outcome trace bind fetch debugLog]; rewrite Hnet;
    cbn [outcome trace bind]; unfold load_text; try rewrite Htext;
    cbn [outcome trace bind app fold_left apply World.log];
    (split; [reflexivity|]).
  - exists [LogString "Checking Amazon auth"]. now rewrite <- app_assoc.
  - exists []. reflexivity.
  - eexists [_; _]. now rewrite <- !app_assoc.
  - exists []. reflexivity.
Qed.

(** A probe returns, whatever the network does. *)
Lemma probe_returns (p : provider) :
  exists info : AuthInfo.t, fst (run net (probeAuth p) w) = inr info.
Proof.
  destruct (net (authUrl p)) as [e|res] eqn:Hnet.
  - eexists. apply (@probe_exception p e). now left.
  - destruct (Response.text res) as [e|doc] eqn:Htext.
    + eexists. apply (@probe_exception p e). right. eauto.
    + eexists. apply (@probe_page p res doc); assumption.
Qed.

End Probe.

(* ------------------------------------------------------------------ *)
(** * Detail extraction *)

Section DetailFacts.

Variable net : network.

(** What a loop gives satisfies what every callback's pushes satisfy. *)
Lemma outcome_each_Forall {A : Type} (P : A -> Prop) (f : path -> prog (list A)) :
  (forall el xs, outcome net (f el) = inr xs -> Forall P xs) ->
  forall (els : selection) (l : list A),
    outcome net (each els f) = inr l -> Forall P l.
Proof.
  intros Hf. induction els as [|el rest IH]; intros l; cbn [each].
  - cbn. intros [= <-]. constructor.
  - rewrite outcome_bind.
    destruct (outcome net (f el)) as [e|xs] eqn:Hel; [discriminate|].
    rewrite outcome_bind.
    destruct (outcome net (each rest f)) as [e|ys] eqn:Hrest; [discriminate|].
    cbn. intros [= <-]. apply Forall_app. split; eauto.
Qed.

Lemma dateAndAmountOf_items (order : Order.t) (items : list Item.t)
      (refund : bool) (line label : string) (xs : list OrderTransaction.t) :
  outcome net (Amazon.dateAndAmountOf order items refund line label) = inr xs ->
  Forall (fun tx => OrderTransaction.items tx = items) xs.
Proof.
  unfold Amazon.dateAndAmountOf, Amazon.second.
  destruct (nth_error (split line label) 1) as [s|]; cbn [bind outcome];
    [|discriminate].
  destruct (nth_error (split (trim s) "-") 1) as [a|]; cbn [bind outcome];
    [|discriminate].
  intros [= <-]. repeat constructor.
Qed.

(** Every transaction of an Amazon detail page holds all the items. *)
Lemma amazon_transactions_items (order : Order.t) (doc : document)
      (txs : list OrderTransaction.t) :
  outcome net (Amazon.transactions order doc) = inr txs ->
  Forall (fun tx => OrderTransaction.items tx = Amazon.items doc) txs.
Proof.
  unfold Amazon.transactions. rewrite outcome_bind.
  destruct (outcome net (each _ _)) as [e|rows] eqn:Hrows; [discriminate|].
  cbn [outcome]. intros [= <-]. apply Forall_app. split.
  - unfold Amazon.giftCard.
    destruct (JsNumber.truthy _); repeat constructor.
  - revert Hrows. apply outcome_each_Forall. intros el xs.
    unfold Amazon.detailRow.
    destruct (includes _ "Items shipped");
      [apply dateAndAmountOf_items|].
    destruct (includes _ "Refund: Completed");
      [apply dateAndAmountOf_items|].
    cbn. intros [= <-]. constructor.
Qed.

Lemma amazon_fetchOrderTransactions_page (order : Order.t) (res : Response.t)
      (doc : document) :
  net (detailUrl AmazonProvider order) = inr res ->
  Response.text res = inr doc ->
  outcome net (Amazon.fetchOrderTransactions order)
  = match outcome net (Amazon.transactions order doc) with
    | inr txs =>
        inr {| Order.id := Order.id order; Order.date := Order.date order;
               Order.walmartStorePurchase := Order.walmartStorePurchase order;
               Order.transactions := Some txs |}
    | inl e => inl e
    end.
Proof.
  intros Hnet Htext. unfold Amazon.fetchOrderTransactions.
  cbn [detailUrl] in Hnet.
  cbn [outcome bind fetch debugLog]. rewrite Hnet.
  cbn [outcome bind]. unfold load_text. rewrite Htext.
  cbn [outcome bind]. rewrite outcome_bind.
  destruct (outcome net (Amazon.transactions order doc)); reflexivity.
Qed.







End DetailFacts.



(* ------------------------------------------------------------------ *)
(** * Listing extraction *)

Lemma amazon_orderCard (doc : document) (el : path) :
  Amazon.orderCard doc el = Ret (amazonOrderOf doc el).
Proof.
  unfold Amazon.orderCard, amazonOrderOf.
  destruct (Amazon.cardId doc el) as [id|]; [|reflexivity].
  destruct (JsString.truthy id); reflexivity.
Qed.

(** Amazon's listing extraction is a pure function of the page. *)
Lemma amazon_orderListFromPage (doc : document) :
  Amazon.orderListFromPage doc
  = Ret (flat_map (amazonOrderOf doc) (entries AmazonProvider doc)).
Proof. apply each_pure, amazon_orderCard. Qed.

Section ListingFacts.

Variable net : network.

Lemma walmart_orderGroup_outcome (doc : document) (el : path) :
  outcome net (Walmart.orderGroup doc el) = inr (walmartOrderOf doc el).
Proof.
  unfold Walmart.orderGroup, walmartOrderOf. rewrite outcome_try_catch.
  destruct (Walmart.noId (Walmart.groupId doc el)); reflexivity.
Qed.

Lemma walmart_orderGroup_trace (doc : document) (el : path) :
  trace net (Walmart.orderGroup doc el)
  = if Walmart.noId (Walmart.groupId doc el) then [Did (DebugLog noOrderId)]
    else [].
Proof.
  unfold Walmart.orderGroup. rewrite trace_try_catch.
  destruct (Walmart.noId (Walmart.groupId doc el)); reflexivity.
Qed.

Lemma orderListFromPage_outcome (p : provider) (doc : document) :
  outcome net (orderListFromPage p doc) = inr (listed p doc).
Proof.
  destruct p; cbn [orderListFromPage listed].
  - now rewrite amazon_orderListFromPage.
  - apply outcome_each, walmart_orderGroup_outcome.
Qed.

Lemma orderListFromPage_trace (p : provider) (doc : document) :
  trace net (orderListFromPage p doc)
  = map (fun v => Did (DebugLog v)) (skipEntries p doc).
Proof.
  destruct p; cbn [orderListFromPage skipEntries].
  - now rewrite amazon_orderListFromPage.
  - unfold Walmart.orderListFromPage.
    rewrite (trace_each net _ _ _ (walmart_orderGroup_outcome doc)).
    cbn [entries]. unfold recoverable. cbn [entryId].
    induction (select doc (Compound [AttrStarts "data-testid" "orderGroup-"]))
      as [|el els IH]; cbn [flat_map List.filter]; auto.
    rewrite walmart_orderGroup_trace, IH, negb_involutive.
    destruct (Walmart.noId (Walmart.groupId doc el)); reflexivity.
Qed.



End ListingFacts.

Lemma truthy_nonempty (s : string) :
  JsString.truthy s = true -> s <> EmptyString.
Proof. destruct s; [discriminate | congruence]. Qed.

(** The identifiers of the orders listed are those of the well-formed
    entries, in document order. *)
Lemma listed_ids (p : provider) (doc : document) :
  map Order.id (listed p doc) = recoveredIds p doc.
Proof.
  unfold recoveredIds.
  destruct p; cbn [listed entries entryId];
    match goal with |- context [flat_map _ ?l] => induction l as [|el els IH] end;
    cbn [flat_map]; auto; rewrite map_app, IH; f_equal.
  - unfold amazonOrderOf. destruct (Amazon.cardId doc el) as [id|]; auto.
    destruct (JsString.truthy id); reflexivity.
  - unfold walmartOrderOf, Walmart.noId.
    destruct (Walmart.groupId doc el) as [id|]; auto.
    destruct (JsString.truthy id); reflexivity.
Qed.

(** One identifier for each well-formed entry. *)
Lemma recoveredIds_length (p : provider) (doc : document) :
  length (recoveredIds p doc)
  = length (List.filter (recoverable p doc) (entries p doc)).
Proof.
  unfold recoveredIds, recoverable, Walmart.noId.
  induction (entries p doc) as [|el els IH]; cbn [flat_map List.filter]; auto.
  rewrite length_app, IH.
  destruct (entryId p doc el) as [id|]; auto.
  destruct (JsString.truthy id); reflexivity.
Qed.

Lemma recoveredIds_nonempty (p : provider) (doc : document) :
  Forall (fun id => id <> EmptyString) (recoveredIds p doc).
Proof.
  unfold recoveredIds. apply Forall_flat_map, Forall_forall. intros el _.
  destruct (entryId p doc el) as [id|]; [|constructor].
  destruct (JsString.truthy id) eqn:Hid; constructor; [|constructor].
  now apply truthy_nonempty.
Qed.

(* ------------------------------------------------------------------ *)
(** * Interleavings: what every schedule of [Throttle.all] preserves *)

Section Interleavings.

Lemma nth_error_replace_nth {X : Type} (l : list X) :
  forall (i : nat) (x y : X),
    nth_error l i = Some y -> nth_error (replace_nth i x l) i = Some x.
Proof.
  induction l as [|z l IH]; intros [|i] x y H; simpl in *;
    try discriminate; eauto.
Qed.

Lemma Forall_replace_nth {X : Type} (P : X -> Prop) (l : list X) :
  forall (i : nat) (x : X),
    P x -> Forall P l -> Forall P (replace_nth i x l).
Proof.
  induction l as [|z l IH]; intros [|i] x Hx Hl; simpl; auto;
    inversion Hl; subst; constructor; auto.
Qed.

Lemma finished_nth (pool : list (list event)) (i : nat) (t : list event) :
  finished pool = true -> nth_error pool i = Some t -> t = [].
Proof.
  unfold finished. rewrite forallb_forall. intros Hall Hnth.
  apply nth_error_In in Hnth. specialize (Hall t Hnth). now destruct t.
Qed.

Lemma finished_flat_map {X : Type} (g : list event -> list X)
      (pool : list (list event)) :
  g [] = [] -> finished pool = true -> flat_map g pool = [].
Proof.
  intros Hg. induction pool as [|t pool IH]; simpl; auto.
  destruct t; [|discriminate]. intros H. now rewrite Hg, IH.
Qed.

(** Taking the next event of a task out of the pool. *)
Lemma flat_map_replace_nth {X : Type} (proj : event -> list X)
      (pool : list (list event)) :
  forall (i : nat) (ev : event) (rest : list event),
    nth_error pool i = Some (ev :: rest) ->
    Permutation (flat_map (flat_map proj) pool)
      (proj ev ++ flat_map (flat_map proj) (replace_nth i rest pool)).
Proof.
  induction pool as [|t pool IH]; intros [|i] ev rest H; simpl in *;
    try discriminate.
  - injection H as ->. simpl. now rewrite app_assoc.
  - rewrite (IH i ev rest H). apply Permutation_app_swap_app.
Qed.

(** A field of the world that every event extends is, after any schedule,
    what it was, followed by what the tasks added in some order. *)
Lemma interleave_field {X : Type} (fld : World.t -> list X)
      (proj : event -> list X) :
  (forall w ev, fld (apply w ev) = fld w ++ proj ev) ->
  forall (sched : list nat) (pool : list (list event)) (w : World.t)
         (pool' : list (list event)) (w' : World.t),
    interleave sched pool w = (pool', w') ->
    exists delta : list X,
      fld w' = fld w ++ delta
      /\ Permutation (delta ++ flat_map (flat_map proj) pool')
           (flat_map (flat_map proj) pool).
Proof.
  intros Hstep. induction sched as [|i sched IH]; intros pool w pool' w' Hrun.
  - injection Hrun as <- <-. exists []. now rewrite app_nil_r.
  - simpl in Hrun.
    destruct (nth_error pool i) as [[|ev rest]|] eqn:Hnth; eauto.
    destruct (IH _ _ _ _ Hrun) as (delta & Hfld & Hperm).
    exists (proj ev ++ delta). split.
    + now rewrite Hfld, Hstep, app_assoc.
    + rewrite (@flat_map_replace_nth _ proj pool i _ _ Hnth), <- app_assoc.
      now apply Permutation_app_head.
Qed.

(** When every task ends by reporting progress, the last callback received
    after a schedule that finishes them all is up to date. *)
Lemma interleave_upToDate (f : list Order.t -> ProgressState.t) :
  forall (sched : list nat) (pool : list (list event)) (w : World.t)
         (pool' : list (list event)) (w' : World.t),
    Forall (reportsLast f) pool ->
    interleave sched pool w = (pool', w') ->
    finished pool' = true ->
    (finished pool = true /\ w' = w) \/ upToDate f w'.
Proof.
  induction sched as [|i sched IH]; intros pool w pool' w' Hshape Hrun Hfin.
  - injection Hrun as <- <-. now left.
  - simpl in Hrun.
    destruct (nth_error pool i) as [[|ev rest]|] eqn:Hnth; eauto.
    assert (Hev : reportsLast f (ev :: rest)).
    { rewrite Forall_forall in Hshape. eapply Hshape, nth_error_In; eauto. }
    assert (Hrest : reportsLast f rest).
    { destruct Hev as [|[pre Hpre]]; [discriminate|].
      destruct pre as [|ev' pre]; simpl in Hpre; injection Hpre as -> ->;
        [now left | right; eauto]. }
    destruct (IH _ _ _ _ (@Forall_replace_nth _ _ _ i _ Hrest Hshape) Hrun Hfin)
      as [[Hfin1 ->]|Hup]; [|now right].
    right.
    assert (rest = []) as ->
      by (eapply finished_nth; eauto using nth_error_replace_nth).
    destruct Hev as [|[pre Hpre]]; [discriminate|].
    destruct pre as [|ev' [|ev'' pre]]; simpl in Hpre; try discriminate.
    injection Hpre as ->. exists (World.progress w). reflexivity.
Qed.

Lemma interleave_app (s1 s2 : list nat) :
  forall (pool : list (list event)) (w : World.t),
    interleave (s1 ++ s2) pool w
    = let (pool1, w1) := interleave s1 pool w in interleave s2 pool1 w1.
Proof.
  induction s1 as [|i s1 IH]; intros pool w; simpl; auto.
  destruct (nth_error pool i) as [[|ev rest]|]; apply IH.
Qed.

(** Naming one task as many times as it has events runs it to its end. *)
Lemma interleave_repeat (pre post : list (list event)) (t : list event) :
  forall w : World.t,
    interleave (repeat (length pre) (length t)) (pre ++ t :: post) w
    = (pre ++ [] :: post, fold_left apply t w).
Proof.
  induction t as [|ev t IH]; intros w; simpl; auto.
  rewrite nth_error_app2, Nat.sub_diag by lia. simpl.
  replace (replace_nth (length pre) t (pre ++ (ev :: t) :: post))
    with (pre ++ t :: post); [apply IH|].
  clear. induction pre; simpl; congruence.
Qed.

(** The schedule that runs the tasks one after the other finishes them. *)
Lemma interleave_one_by_one (pool : list (list event)) :
  forall (pre : list (list event)) (w : World.t),
    interleave (one_by_one (length pre) pool) (pre ++ pool) w
    = (pre ++ map (fun _ => []) pool, fold_left apply (concat pool) w).
Proof.
  induction pool as [|t pool IH]; intros pre w; simpl; auto.
  rewrite interleave_app, interleave_repeat.
  replace (S (length pre)) with (length (pre ++ [[]]))
    by (rewrite length_app; simpl; lia).
  change (pre ++ [] :: pool) with (pre ++ [[]] ++ pool).
  rewrite app_assoc, IH, fold_left_app, <- app_assoc. reflexivity.
Qed.

Lemma finished_map_nil {X : Type} (l : list X) :
  finished (map (fun _ => []) l) = true.
Proof. induction l; simpl; auto. Qed.

End Interleavings.

(* ------------------------------------------------------------------ *)
(** * The task of one order *)

Section Tasks.

Variable net : network.

Lemma trace_each_nil {A : Type} (f : path -> prog (list A)) (els : selection) :
  (forall el, trace net (f el) = []) -> trace net (each els f) = [].
Proof.
  intros Hf. induction els as [|el rest IH]; simpl; auto.
  rewrite trace_bind, Hf. destruct (outcome net (f el)); auto.
  rewrite trace_bind, IH. now destruct (outcome net (each rest f)).
Qed.

Lemma amazon_dateAndAmountOf_trace (order : Order.t) (items : list Item.t)
      (refund : bool) (line label : string) :
  trace net (Amazon.dateAndAmountOf order items refund line label) = [].
Proof.
  unfold Amazon.dateAndAmountOf, Amazon.second.
  destruct (nth_error (split line label) 1) as [s|]; cbn [bind trace]; auto.
  destruct (nth_error (split (trim s) "-") 1); reflexivity.
Qed.

Lemma amazon_transactions_trace (order : Order.t) (doc : document) :
  trace net (Amazon.transactions order doc) = [].
Proof.
  unfold Amazon.transactions. rewrite trace_bind, trace_each_nil.
  - now destruct (outcome net (each _ _)).
  - intros el. unfold Amazon.detailRow.
    destruct (includes _ "Items shipped");
      [apply amazon_dateAndAmountOf_trace|].
    destruct (includes _ "Refund: Completed");
      [apply amazon_dateAndAmountOf_trace | reflexivity].
Qed.

(** Fetching the detail page of an order requests it once, pushes nothing
    and reports no progress; what it logs are messages, not errors, and on
    Walmart it logs nothing. *)
Lemma fetchOrderTransactions_trace (p : provider) (order : Order.t) :
  flat_map pushesOf (trace net (fetchOrderTransactions p order)) = []
  /\ errorsLogged (flat_map logsOf (trace net (fetchOrderTransactions p order))) = []
  /\ (p = WalmartProvider ->
      flat_map logsOf (trace net (fetchOrderTransactions p order)) = [])
  /\ flat_map requestsOf (trace net (fetchOrderTransactions p order))
     = [detailUrl p order]
  /\ Forall (fun ev => forall f, ev <> Did (OnProgress f))
       (trace net (fetchOrderTransactions p order)).
Proof.
  destruct p; cbn [fetchOrderTransactions detailUrl].
  - unfold Amazon.fetchOrderTransactions. cbn [trace bind fetch debugLog].
    destruct (net _) as [e|res]; cbn [trace bind].
    + repeat split; try discriminate; repeat constructor; discriminate.
    + unfold load_text. destruct (Response.text res) as [e|doc];
        cbn [trace bind]; [|rewrite trace_bind, amazon_transactions_trace;
                            destruct (outcome net _)];
        repeat split; try discriminate; repeat constructor; discriminate.
  - unfold Walmart.fetchOrderTransactions. cbn [trace bind fetch].
    destruct (net _) as [e|res]; cbn [trace bind];
      [|unfold load_text; destruct (Response.text res); cbn [trace bind]];
      repeat split; repeat constructor; discriminate.
Qed.

(** The events of a task: those of the fetch, then the push of the order or
    the log of the error, then the progress report. *)
Lemma processOrder_trace (p : provider) (orders : list Order.t) (order : Order.t) :
  trace net (processOrder p orders order)
  = trace net (fetchOrderTransactions p order)
    ++ match outcome net (fetchOrderTransactions p order) with
       | inr orderData => [Did (Push orderData)]
       | inl e => [Did (DebugLog (LogError e))]
       end
    ++ [Did (OnProgress (downloadProgress p orders))].
Proof.
  destruct p; cbn [processOrder fetchOrderTransactions];
    unfold Amazon.processOrder, Walmart.processOrder;
    rewrite trace_bind, trace_try_catch, outcome_try_catch, trace_bind,
      outcome_bind;
    destruct (outcome net _);
    cbn [trace outcome debugLog onProgress push app];
    rewrite ?app_nil_r, <- ?app_assoc; reflexivity.
Qed.

(** A task never throws: [failFast] has nothing to act on. *)
Lemma processOrder_outcome (p : provider) (orders : list Order.t)
      (order : Order.t) :
  outcome net (processOrder p orders order) = inr tt.
Proof.
  destruct p; cbn [processOrder];
    unfold Amazon.processOrder, Walmart.processOrder;
    rewrite outcome_bind, outcome_try_catch, outcome_bind;
    destruct (outcome net _); reflexivity.
Qed.

Lemma first_error_tasks (p : provider) (orders tasks : list Order.t) :
  first_error (map (outcome net) (map (processOrder p orders) tasks)) = inr tt.
Proof.
  induction tasks as [|o tasks IH]; simpl; auto.
  now rewrite processOrder_outcome.
Qed.

Lemma processOrder_reportsLast (p : provider) (orders : list Order.t)
      (order : Order.t) :
  reportsLast (downloadProgress p orders)
    (trace net (processOrder p orders order)).
Proof.
  right. rewrite processOrder_trace, app_assoc. eauto.
Qed.

(** What the tasks of a list of orders push: the orders fetched without an
    error, in the order of the list. *)
Lemma tasks_pushes (p : provider) (orders tasks : list Order.t) :
  flat_map (flat_map pushesOf)
    (map (trace net) (map (processOrder p orders) tasks))
  = detailed p net tasks.
Proof.
  unfold detailed. induction tasks as [|o tasks IH]; simpl; auto.
  rewrite IH, processOrder_trace, !flat_map_app.
  destruct (fetchOrderTransactions_trace p o) as (-> & _).
  destruct (outcome net (fetchOrderTransactions p o)); reflexivity.
Qed.

(** The errors the tasks log: one for each order whose fetch throws. *)
Lemma tasks_errors (p : provider) (orders tasks : list Order.t) :
  errorsLogged
    (flat_map (flat_map logsOf)
       (map (trace net) (map (processOrder p orders) tasks)))
  = flat_map
      (fun order =>
         match outcome net (fetchOrderTransactions p order) with
         | inr _ => []
         | inl e => [e]
         end)
      tasks.
Proof.
  unfold errorsLogged.
  induction tasks as [|o tasks IH]; simpl; auto.
  rewrite flat_map_app, IH, processOrder_trace, !flat_map_app.
  destruct (fetchOrderTransactions_trace p o) as (_ & He & _).
  unfold errorsLogged in He. rewrite He.
  destruct (outcome net (fetchOrderTransactions p o)); reflexivity.
Qed.

End Tasks.

(* ------------------------------------------------------------------ *)
(** * The detail phase under every schedule *)

Section DetailPhase.

Variable net : network.

Lemma fetchOrders_phases (p : provider) (sched : list nat)
      (year maxPages : option Z) (w : World.t) :
  fetchOrders p net sched year maxPages w
  = match run net (listOrders p year maxPages) w with
    | (inl e, w1) => Some (inl e, w1)
    | (inr orders, w1) =>
        match Throttle_all net sched (map (processOrder p orders) orders)
                (withEmptyResult w1) with
        | Some (inl e, w2) => Some (inl e, w2)
        | Some (inr _, w2) => Some (inr (World.allOrders w2), w2)
        | None => None
        end
    end.
Proof. destruct p; reflexivity. Qed.

Lemma apply_allOrders (w : World.t) (ev : event) :
  World.allOrders (apply w ev) = World.allOrders w ++ pushesOf ev.
Proof. destruct ev as [url|[v|f|o]]; simpl; now rewrite ?app_nil_r. Qed.

Lemma apply_log (w : World.t) (ev : event) :
  World.log (apply w ev) = World.log w ++ logsOf ev.
Proof. destruct ev as [url|[v|f|o]]; simpl; now rewrite ?app_nil_r. Qed.

Lemma apply_requests (w : World.t) (ev : event) :
  World.requests (apply w ev) = World.requests w ++ requestsOf ev.
Proof. destruct ev as [url|[v|f|o]]; simpl; now rewrite ?app_nil_r. Qed.

(** Under every schedule that finishes the tasks, the call resolves, the
    result array holds the orders fetched without an error, in some order,
    the log grows by the entries of the tasks, among them one error for each
    fetch that threw, and the last progress callback is up to date. *)
Lemma Throttle_all_tasks (p : provider) (orders : list Order.t)
      (sched : list nat) (w1 : World.t) (r : exn + unit) (w' : World.t) :
  Throttle_all net sched (map (processOrder p orders) orders)
    (withEmptyResult w1) = Some (r, w') ->
  r = inr tt
  /\ Permutation (World.allOrders w') (detailed p net orders)
  /\ (exists delta : list logged,
         World.log w' = World.log w1 ++ delta
         /\ Permutation (errorsLogged delta) (detailErrors p net orders)
         /\ (p = WalmartProvider ->
             delta = map LogError (errorsLogged delta)))
  /\ (orders <> [] -> upToDate (downloadProgress p orders) w').
Proof.
  unfold Throttle_all.
  destruct (interleave sched _ _) as [pool' w2] eqn:Hrun.
  destruct (finished pool') eqn:Hfin; [|discriminate].
  intros [= <- <-]. split; [apply first_error_tasks|].
  split; [|split].
  - destruct (interleave_field World.allOrders pushesOf apply_allOrders
                _ _ _ Hrun) as (delta & Hfld & Hperm).
    rewrite (finished_flat_map (flat_map pushesOf) pool' eq_refl Hfin),
      app_nil_r, tasks_pushes in Hperm.
    now rewrite Hfld.
  - destruct (interleave_field World.log logsOf apply_log _ _ _ Hrun)
      as (delta & Hfld & Hperm).
    rewrite (finished_flat_map (flat_map logsOf) pool' eq_refl Hfin),
      app_nil_r in Hperm.
    exists delta. split; [exact Hfld|]. split.
    + unfold detailErrors. rewrite <- tasks_errors with (orders := orders).
      unfold errorsLogged. now apply Permutation_flat_map.
    + intros ->.
      assert (Hall : Forall (fun v => exists e, v = LogError e) delta).
      { assert (Hsrc : Forall (fun v => exists e, v = LogError e)
                         (flat_map (flat_map logsOf)
                            (map (trace net)
                               (map (processOrder WalmartProvider orders) orders))));
          [|rewrite Forall_forall in *; intros v Hv;
            apply Hsrc; eapply Permutation_in; eauto].
        clear. apply Forall_flat_map, Forall_forall. intros t Ht.
        apply in_map_iff in Ht as (task & <- & Ht).
        apply in_map_iff in Ht as (o & <- & _).
        rewrite processOrder_trace, !flat_map_app.
        destruct (fetchOrderTransactions_trace net WalmartProvider o)
          as (_ & _ & Hlogs & _).
        rewrite (Hlogs eq_refl).
        destruct (outcome net _); repeat constructor; eauto. }
      clear -Hall. induction Hall as [|v delta [e ->] _ IH]; simpl; auto.
      now rewrite <- IH.
  - intros Hne.
    assert (Hshape : Forall (reportsLast (downloadProgress p orders))
                       (map (trace net) (map (processOrder p orders) orders))).
    { rewrite map_map. apply Forall_map, Forall_forall. intros o _.
      apply processOrder_reportsLast. }
    destruct (@interleave_upToDate (downloadProgress p orders) sched _ _
                pool' w2 Hshape Hrun Hfin) as [[Hfin0 _]|Hup]; auto.
    exfalso. destruct orders as [|o orders']; [congruence|].
    simpl in Hfin0. rewrite processOrder_trace in Hfin0.
    destruct (trace net (fetchOrderTransactions p o)); simpl in Hfin0;
      [destruct (outcome net _)|]; discriminate.
Qed.

(** Some schedule finishes the tasks: the one that runs them in turn. *)
Lemma Throttle_all_finishes (tasks : list (prog unit)) (w : World.t) :
  Throttle_all net (one_by_one 0 (map (trace net) tasks)) tasks w <> None.
Proof.
  unfold Throttle_all.
  pose proof (interleave_one_by_one (map (trace net) tasks) [] w) as Hrun.
  cbn [app length] in Hrun. rewrite Hrun, finished_map_nil. discriminate.
Qed.

End DetailPhase.

(* ------------------------------------------------------------------ *)
(** * The listing phase *)

Section ListingPhase.

Variable net : network.

Lemma requests_of_logs (entries : list logged) :
  flat_map requestsOf (map (fun v => Did (DebugLog v)) entries) = [].
Proof. induction entries; simpl; auto. Qed.

Lemma run_requests {A : Type} (m : prog A) (w : World.t) :
  World.requests (snd (run net m w))
  = World.requests w ++ flat_map requestsOf (trace net m).
Proof.
  unfold run. cbn [snd]. revert w.
  induction (trace net m) as [|ev evs IH]; intros w; cbn [fold_left flat_map].
  - now rewrite app_nil_r.
  - now rewrite IH, apply_requests, app_assoc.
Qed.

Lemma pagesFrom2_range (endPage i : Z) :
  In i (pagesFrom2 endPage) -> (2 <= i <= endPage)%Z.
Proof.
  unfold pagesFrom2. intros Hin. apply in_map_iff in Hin as (n & <- & Hn).
  apply in_seq in Hn. lia.
Qed.

(** A page after the first: one request, with the index of its first
    record, and the orders of the page. *)
Lemma processOrders_page (p : provider) (year : option Z) (i : Z)
      (doc : document) (endPage : Z) (rest : list Z) (orders : list Order.t) :
  (i =? 1)%Z = false ->
  servesPage net p year i doc ->
  outcome net (morePages p year endPage (i :: rest) orders)
  = outcome net (morePages p year endPage rest (orders ++ listed p doc))
  /\ flat_map requestsOf (trace net (morePages p year endPage (i :: rest) orders))
     = pageUrl p year i
       :: flat_map requestsOf
            (trace net (morePages p year endPage rest (orders ++ listed p doc))).
Proof.
  intros Hi (res & Hnet & Htext).
  pose proof (orderListFromPage_outcome net p doc) as Hout.
  pose proof (orderListFromPage_trace net p doc) as Htrace.
  destruct p; cbn [morePages pageUrl orderListFromPage] in *;
    rewrite Hi in *;
    cbn [Amazon.morePages Walmart.morePages];
    unfold Amazon.processOrders, Walmart.processOrders;
    cbn [bind fetch debugLog outcome trace flat_map requestsOf app];
    rewrite Hnet; cbn [bind outcome trace flat_map requestsOf app];
    unfold load_text; rewrite Htext; cbn [bind];
    rewrite outcome_bind, trace_bind, Hout, Htrace, flat_map_app,
      requests_of_logs;
    cbn [bind onProgress outcome trace flat_map requestsOf app];
    auto.
Qed.

(** The pages after the first are requested in turn and their orders are
    appended in that order. *)
Lemma morePages_pages (p : provider) (year : option Z) (endPage : Z)
      (page : Z -> document) (pages : list Z) :
  forall orders : list Order.t,
    (forall i, In i pages -> (i =? 1)%Z = false /\ servesPage net p year i (page i)) ->
    outcome net (morePages p year endPage pages orders)
    = inr (orders ++ flat_map (fun i => listed p (page i)) pages)
    /\ flat_map requestsOf (trace net (morePages p year endPage pages orders))
       = map (pageUrl p year) pages.
Proof.
  induction pages as [|i pages IH]; intros orders Hpages.
  - destruct p; cbn; now rewrite app_nil_r.
  - destruct (Hpages i (or_introl eq_refl)) as (Hi & Hserved).
    destruct (processOrders_page endPage pages orders Hi Hserved) as (-> & ->).
    destruct (IH (orders ++ listed p (page i))) as (-> & ->);
      [intros j Hj; apply Hpages; now right|].
    cbn [flat_map map]. now rewrite app_assoc.
Qed.

(** The listing phase: page 1, then the pages 2 to the page count, each
    requested with its index, and the orders of the pages in page order. *)
Lemma listOrders_pages (p : provider) (year maxPages : option Z)
      (page : Z -> document) (w : World.t) :
  let endPage := pageCount p (page 1%Z) maxPages in
  (forall i, In i (pageNumbers endPage) -> servesPage net p year i (page i)) ->
  fst (run net (listOrders p year maxPages) w)
  = inr (flat_map (fun i => listed p (page i)) (pageNumbers endPage))
  /\ World.requests (snd (run net (listOrders p year maxPages) w))
     = World.requests w ++ map (pageUrl p year) (pageNumbers endPage).
Proof.
  intros endPage Hpages. rewrite run_requests. unfold run. cbn [fst].
  destruct (Hpages 1%Z (or_introl eq_refl)) as (res & Hnet & Htext).
  destruct (@morePages_pages p year endPage page (pagesFrom2 endPage)
              (listed p (page 1%Z))) as (Hout & Hreq).
  { intros i Hi. split; [apply pagesFrom2_range in Hi; lia|].
    apply Hpages. now right. }
  pose proof (orderListFromPage_outcome net p (page 1%Z)) as Hfirst.
  pose proof (orderListFromPage_trace net p (page 1%Z)) as Htrace.
  unfold pageNumbers. cbn [flat_map map].
  destruct p;
    cbn [listOrders pageUrl pageCount morePages orderListFromPage] in *;
    change (1 =? 1)%Z with true in *; cbv iota in *;
    unfold Amazon.listOrders, Walmart.listOrders;
    cbn [bind fetch debugLog outcome trace flat_map requestsOf app];
    rewrite Hnet; cbn [bind outcome trace flat_map requestsOf app];
    unfold load_text; rewrite Htext;
    cbn [bind onProgress outcome trace flat_map requestsOf app];
    rewrite outcome_bind, trace_bind, Hfirst, Htrace, flat_map_app,
      requests_of_logs;
    cbn [outcome trace flat_map requestsOf app];
    fold endPage; rewrite Hout, Hreq; auto.
Qed.

End ListingPhase.

(* ------------------------------------------------------------------ *)
(** * The whole of [fetchOrders] *)

Section Pipeline.

Variable net : network.

Lemma detailed_app (p : provider) (l1 l2 : list Order.t) :
  detailed p net (l1 ++ l2) = detailed p net l1 ++ detailed p net l2.
Proof. apply flat_map_app. Qed.

Lemma detailErrors_app (p : provider) (l1 l2 : list Order.t) :
  detailErrors p net (l1 ++ l2) = detailErrors p net l1 ++ detailErrors p net l2.
Proof. apply flat_map_app. Qed.

Lemma allDetailed_length (p : provider) (orders : list Order.t) :
  allDetailed p net orders ->
  length (detailed p net orders) = length orders
  /\ detailErrors p net orders = [].
Proof.
  unfold detailed, detailErrors.
  induction 1 as [|o orders [od Ho] _ [IHl IHe]]; simpl; auto.
  rewrite Ho. simpl. now rewrite IHl, IHe.
Qed.

(** What [fetchOrders] gives once the listing is known, under a schedule
    that finishes the tasks. *)
Lemma fetchOrders_result (p : provider) (sched : list nat)
      (year maxPages : option Z) (w w1 : World.t) (orders : list Order.t)
      (r : exn + list Order.t) (w' : World.t) :
  run net (listOrders p year maxPages) w = (inr orders, w1) ->
  fetchOrders p net sched year maxPages w = Some (r, w') ->
  exists result : list Order.t,
    r = inr result
    /\ Permutation result (detailed p net orders)
    /\ (exists delta : list logged,
           World.log w' = World.log w1 ++ delta
           /\ Permutation (errorsLogged delta) (detailErrors p net orders)
           /\ (p = WalmartProvider -> delta = map LogError (errorsLogged delta)))
    /\ (orders <> [] -> upToDate (downloadProgress p orders) w'
                        /\ World.allOrders w' = result).
Proof.
  intros Hlist. rewrite fetchOrders_phases, Hlist.
  destruct (Throttle_all net sched _ _) as [[r2 w2]|] eqn:Hall; [|discriminate].
  destruct (Throttle_all_tasks net p orders sched w1 Hall)
    as (-> & Hperm & Hlog & Hup).
  intros [= <- <-]. exists (World.allOrders w2).
  split; [reflexivity|]. split; [exact Hperm|]. split; [exact Hlog|].
  intros Hne. split; auto.
Qed.

Lemma fetchOrders_returns (p : provider) (year maxPages : option Z)
      (w : World.t) :
  exists sched : list nat, fetchOrders p net sched year maxPages w <> None.
Proof.
  destruct (run net (listOrders p year maxPages) w) as [[e|orders] w1] eqn:Hlist.
  - exists []. rewrite fetchOrders_phases, Hlist. discriminate.
  - exists (one_by_one 0 (map (trace net) (map (processOrder p orders) orders))).
    rewrite fetchOrders_phases, Hlist.
    pose proof (@Throttle_all_finishes net (map (processOrder p orders) orders)
                  (withEmptyResult w1)) as Hfin.
    destruct (Throttle_all net _ _ _) as [[[e|u] w2]|]; congruence.
Qed.

Lemma amazon_endPageOf_positive (doc : document) :
  (1 <= Amazon.endPageOf doc)%Z.
Proof.
  unfold Amazon.endPageOf.
  generalize (select doc (Descendant (Compound [Class "a-pagination"]) [Tag "li"])).
  assert (H : forall (els : selection) (start : Z),
             (1 <= start)%Z ->
             (1 <= fold_left
                     (fun endPage el =>
                        match parseIntZ (trim (text doc [el])) with
                        | Some numPage =>
                            if (numPage >? endPage)%Z then numPage else endPage
                        | None => endPage
                        end) els start)%Z).
  { induction els as [|el els IH]; intros start Hs; simpl; auto.
    apply IH. destruct (parseIntZ _) as [n|]; auto.
    destruct (Z.gtb_spec n start); lia. }
  intros els. now apply H.
Qed.

Lemma walmart_endPageOf_one (maxPages : option Z) :
  maxPages = None \/ (exists m, maxPages = Some m /\ (1 <= m)%Z) ->
  Walmart.endPageOf maxPages = 1%Z.
Proof.
  intros [->|(m & -> & Hm)]; [reflexivity|]. unfold Walmart.endPageOf.
  destruct (Z.ltb_spec m 1); [lia|]. now rewrite andb_false_r.
Qed.

End Pipeline.

(* ------------------------------------------------------------------ *)
(** * Regular expressions: what the patterns of the listing capture *)

Lemma string_length_app (a b : string) :
  String.length (a ++ b) = String.length a + String.length b.
Proof. induction a; simpl; auto. Qed.

(** A greedy star over a character class, unfolded. *)
Lemma run_star_chr (p : ascii -> bool) (s : string) :
  forall (n : nat) (caps : captures),
    String.length s <= n ->
    (fix loop (n : nat) (x : mstate) : list mstate :=
       match n with
       | O => [x]
       | S n' =>
           flat_map (loop n')
             (List.filter
                (fun y => String.length (fst y) <? String.length (fst x))
                (Regex.run (Chr p) x))
           ++ [x]
       end) n (s, caps)
    = star_states p s caps.
Proof.
  induction s as [|c s IH]; intros n caps Hn.
  - destruct n; reflexivity.
  - destruct n as [|n]; [simpl in Hn; lia|].
    cbn [Regex.run fst snd star_states]. destruct (p c); cbn [List.filter flat_map app].
    + cbn [fst String.length].
      rewrite (proj2 (Nat.ltb_lt _ _) (Nat.lt_succ_diag_r _)).
      cbn [flat_map]. rewrite app_nil_r, IH by (simpl in Hn; lia). reflexivity.
    + reflexivity.
Qed.

Lemma run_Star_Chr (p : ascii -> bool) (s : string) (caps : captures) :
  Regex.run (Star (Chr p)) (s, caps) = star_states p s caps.
Proof. cbn [Regex.run]. now apply run_star_chr. Qed.

(** A literal reads itself and nothing else. *)
Lemma run_Lit (l : string) :
  forall (s : string) (caps : captures),
    Regex.run (Lit l) (s, caps)
    = if startsWith s l then [(drop (String.length l) s, caps)] else [].
Proof.
  induction l as [|a l IH]; intros s caps; [reflexivity|].
  cbn [Lit Regex.run fst snd startsWith String.length drop].
  destruct s as [|b s]; [reflexivity|].
  destruct (Ascii.eqb a b); cbn [flat_map andb]; [|reflexivity].
  rewrite app_nil_r. apply IH.
Qed.

(** The longest Regex.run comes first: when [a] is made of [p] and [r] stops
    there, the star reads all of [a]. *)
Lemma star_states_head (p : ascii -> bool) (a r : string) (caps : captures) :
  every p a = true -> stopsAt p r = true ->
  exists more : list mstate, star_states p (a ++ r) caps = (r, caps) :: more.
Proof.
  intros Ha Hr. induction a as [|c a IH]; cbn [String.append].
  - destruct r as [|c r]; cbn [star_states]; [eauto|].
    cbn in Hr. destruct (p c); [discriminate|]. cbn. eauto.
  - cbn in Ha. apply andb_prop in Ha as [Hc Ha].
    destruct (IH Ha) as [more Hmore].
    cbn [star_states]. rewrite Hc, Hmore. cbn. eauto.
Qed.

(** The states of a star are the suffixes it can stop at. *)
Lemma star_states_suffix (p : ascii -> bool) (s : string) (caps : captures)
      (t : string) (c : captures) :
  In (t, c) (star_states p s caps) ->
  c = caps /\ exists pre : string, s = (pre ++ t)%string.
Proof.
  induction s as [|a s IH]; cbn [star_states]; intros Hin.
  - destruct Hin as [[= <- <-]|[]]. split; auto. now exists EmptyString.
  - apply in_app_or in Hin as [Hin|[[= <- <-]|[]]].
    + destruct (p a); [|contradiction].
      destruct (IH Hin) as (-> & pre & ->). split; auto.
      now exists (String a pre).
    + split; auto. now exists EmptyString.
Qed.

(** Past a prefix every character of which the star can read, the states
    of the rest come first. *)
Lemma star_states_app (p : ascii -> bool) (a t : string) (caps : captures) :
  every p a = true ->
  exists more : list mstate,
    star_states p (a ++ t) caps = star_states p t caps ++ more.
Proof.
  intros Ha. induction a as [|c a IH]; cbn [String.append].
  - exists []. now rewrite app_nil_r.
  - cbn in Ha. apply andb_prop in Ha as [Hc Ha].
    destruct (IH Ha) as [more Hmore].
    cbn [star_states]. rewrite Hc, Hmore, <- app_assoc. eauto.
Qed.

Lemma every_app (p : ascii -> bool) (a b : string) :
  every p (a ++ b) = every p a && every p b.
Proof.
  induction a as [|c a IH]; cbn [String.append every]; auto.
  now rewrite IH, andb_assoc.
Qed.

(** A text that does not include [key] starts with it at no suffix. *)
Lemma includes_suffix (key : string) (s : string) :
  forall pre t : string,
    s = (pre ++ t)%string -> includes s key = false -> startsWith t key = false.
Proof.
  intros pre. revert s. induction pre as [|c pre IH]; intros s t -> Hno.
  - cbn [String.append] in Hno. destruct t; cbn [includes] in Hno;
      now apply orb_false_elim in Hno.
  - cbn [String.append includes] in Hno. apply orb_false_elim in Hno as [_ Hno].
    eapply IH; eauto.
Qed.

Lemma taken_app (a r : string) : taken (a ++ r) r = a.
Proof.
  unfold taken. rewrite string_length_app, Nat.add_sub.
  induction a as [|c a IH]; cbn [String.append String.length].
  - destruct r; reflexivity.
  - cbn [substring]. now rewrite IH.
Qed.

Lemma drop_app (a r : string) : drop (String.length a) (a ++ r) = r.
Proof. induction a; cbn; auto. Qed.

Lemma startsWith_app (a r : string) : startsWith (a ++ r) a = true.
Proof.
  induction a as [|c a IH]; cbn [String.append startsWith]; [now destruct r|].
  now rewrite Ascii.eqb_refl, IH.
Qed.

Lemma run_Seq (a b : regex) (x : mstate) :
  Regex.run (Seq a b) x = flat_map (Regex.run b) (Regex.run a x).
Proof. reflexivity. Qed.

Lemma run_Group (i : nat) (a : regex) (x : mstate) :
  Regex.run (Group i a) x
  = map (fun y => (fst y, (i, taken (fst x) (fst y)) :: snd y)) (Regex.run a x).
Proof. reflexivity. Qed.

Lemma run_Chr (p : ascii -> bool) (c : ascii) (s : string) (caps : captures) :
  Regex.run (Chr p) (String c s, caps) = if p c then [(s, caps)] else [].
Proof. reflexivity. Qed.

(** One or more characters of a class, captured: the longest Regex.run first. *)
Lemma run_group_plus (p : ascii -> bool) (c : ascii) (a r : string)
      (caps : captures) :
  p c = true -> every p a = true -> stopsAt p r = true ->
  exists more : list mstate,
    Regex.run (Group 1 (Plus (Chr p))) (String c a ++ r, caps)%string
    = (r, (1, String c a) :: caps) :: more.
Proof.
  intros Hc Ha Hr. unfold Plus.
  rewrite run_Group, run_Seq. cbn [String.append]. rewrite run_Chr, Hc.
  cbn [flat_map]. rewrite app_nil_r, run_Star_Chr.
  destruct (star_states_head p a r caps Ha Hr) as [more ->].
  cbn [map fst snd].
  change (String c (a ++ r))%string with (String c a ++ r)%string.
  rewrite taken_app. eauto.
Qed.

Lemma flat_map_nil {A B : Type} (f : A -> list B) (l : list A) :
  (forall x, In x l -> f x = []) -> flat_map f l = [].
Proof.
  induction l as [|x l IH]; intros H; cbn; auto.
  rewrite (H x (or_introl eq_refl)), IH; auto. intros y Hy. apply H. now right.
Qed.

(** A leading [.*] gives way to the last place where the rest of the
    pattern matches: when the rest matches at [T] and at none of the places
    after it, the whole pattern matches there. *)
Lemma leading_dots (K : regex) (P : string) (k : ascii) (T' : string)
      (hit : mstate) (more : list mstate) :
  every notLineTerminator P = true ->
  notLineTerminator k = true ->
  (forall t c, In (t, c) (star_states notLineTerminator T' []) ->
               Regex.run K (t, c) = []) ->
  Regex.run K (String k T', []) = hit :: more ->
  exists more' : list mstate,
    Regex.run (Seq (Star dot) K) (P ++ String k T', [])%string = hit :: more'.
Proof.
  intros HP Hk Hlater Hhit. rewrite run_Seq.
  change dot with (Chr notLineTerminator). rewrite run_Star_Chr.
  destruct (star_states_app notLineTerminator P (String k T') [] HP)
    as [rest ->].
  cbn [star_states]. rewrite Hk, !flat_map_app.
  rewrite (flat_map_nil (Regex.run K)) by (intros [t c]; apply Hlater).
  cbn [flat_map app]. eexists. unfold mstate, captures in *.
  rewrite Hhit, app_nil_r.
  rewrite <- app_comm_cons. reflexivity.
Qed.

(** A pattern that starts with a literal matches nowhere in a text that
    does not include the literal. *)
Lemma literal_misses (key : string) (K : regex) (s t : string) (c caps : captures) :
  includes s key = false ->
  In (t, c) (star_states notLineTerminator s caps) ->
  Regex.run (Seq (Lit key) K) (t, c) = [].
Proof.
  intros Hno Hin. destruct (star_states_suffix _ _ _ _ _ Hin) as (_ & pre & Hs).
  rewrite run_Seq, run_Lit, (includes_suffix key pre t Hs Hno). reflexivity.
Qed.

Lemma exec_hit (r : regex) (s rest : string) (caps : captures)
      (more : list mstate) :
  Regex.run r (s, []) = (rest, caps) :: more ->
  exec r s = Some {| before := EmptyString; matched := taken s rest;
                     after := rest; groups := caps |}.
Proof. unfold exec. intros H. destruct s; cbn [exec_go]; now rewrite H. Qed.

Lemma dots_to_the_end (R : string) (caps : captures) :
  every notLineTerminator R = true ->
  exists more : list mstate,
    Regex.run (Star dot) (R, caps) = (EmptyString, caps) :: more.
Proof.
  intros HR. change dot with (Chr notLineTerminator). rewrite run_Star_Chr.
  rewrite <- (append_empty R).
  now apply star_states_head.
Qed.

(** The identifier of an Amazon link: the value of its [orderID]
    parameter. *)
Lemma orderID_regex_captures (P : string) (c : ascii) (ID R : string) :
  every notLineTerminator (P ++ "orderID=" ++ String c ID ++ R) = true ->
  notAmpHash c = true -> every notAmpHash ID = true ->
  stopsAt notAmpHash R = true ->
  includes (String c ID ++ R) "orderID=" = false ->
  replace_by_group1 (P ++ "orderID=" ++ String c ID ++ R) Amazon.orderID_regex
  = String c ID.
Proof.
  intros Hnl Hc HID HR Hno.
  rewrite every_app in Hnl. apply andb_prop in Hnl as [HP HT].
  rewrite every_app in HT. apply andb_prop in HT as [_ HX].
  rewrite (every_app _ (String c ID) R) in HX. apply andb_prop in HX as [_ HRnl].
  assert (Hrun : exists more,
             Regex.run Amazon.orderID_regex
               (P ++ "orderID=" ++ String c ID ++ R, [])%string
             = (EmptyString, [(1, String c ID)]) :: more).
  { unfold Amazon.orderID_regex.
    change ("orderID=" ++ String c ID ++ R)%string
      with (String "o" ("rderID=" ++ String c ID ++ R))%string.
    destruct (run_group_plus notAmpHash c ID R [] Hc HID HR) as [g Hg].
    destruct (dots_to_the_end R [(1, String c ID)] HRnl) as [d Hd].
    eapply leading_dots with
      (more := (d ++ flat_map (Regex.run (Star dot)) g) ++ []); auto.
    - intros t caps Hin.
      apply (@literal_misses "orderID=" _
               ("rderID=" ++ String c ID ++ R)%string t caps []);
        [|exact Hin].
      cbn [String.append includes startsWith Ascii.eqb Bool.eqb andb orb].
      exact Hno.
    - rewrite run_Seq, run_Lit.
      change (String "o" ("rderID=" ++ String c ID ++ R))%string
        with ("orderID=" ++ (String c ID ++ R))%string.
      rewrite startsWith_app, drop_app. cbn [flat_map].
      rewrite run_Seq.
      change (fun c0 => negb (Ascii.eqb c0 "&" || Ascii.eqb c0 "#"))
        with notAmpHash.
      unfold mstate, captures in *.
      rewrite Hg. cbn [flat_map]. rewrite Hd. reflexivity. }
  destruct Hrun as [more Hrun].
  unfold replace_by_group1. rewrite (@exec_hit _ _ _ _ _ Hrun).
  cbn [before after groups group Nat.eqb]. now rewrite append_empty.
Qed.

(** The identifier of a Walmart return link: the path segment after
    [orders/]. *)
Lemma orders_regex_captures (P : string) (c : ascii) (ID R : string) :
  every notLineTerminator (P ++ "orders/" ++ String c ID ++ "/" ++ R) = true ->
  notSlashChar c = true -> every notSlashChar ID = true ->
  includes (String c ID ++ "/" ++ R) "orders/" = false ->
  replace_by_group1 (P ++ "orders/" ++ String c ID ++ "/" ++ R)
    Walmart.orders_regex
  = String c ID.
Proof.
  intros Hnl Hc HID Hno.
  rewrite every_app in Hnl. apply andb_prop in Hnl as [HP HT].
  rewrite every_app in HT. apply andb_prop in HT as [_ HX].
  rewrite (every_app _ (String c ID) ("/" ++ R)) in HX.
  apply andb_prop in HX as [_ HRnl].
  rewrite (every_app _ "/" R) in HRnl. apply andb_prop in HRnl as [_ HRnl].
  assert (Hrun : exists more,
             Regex.run Walmart.orders_regex
               (P ++ "orders/" ++ String c ID ++ "/" ++ R, [])%string
             = (EmptyString, [(1, String c ID)]) :: more).
  { unfold Walmart.orders_regex, Walmart.notSlash.
    change ("orders/" ++ String c ID ++ "/" ++ R)%string
      with (String "o" ("rders/" ++ String c ID ++ "/" ++ R))%string.
    destruct (run_group_plus notSlashChar c ID ("/" ++ R) [] Hc HID eq_refl)
      as [g Hg].
    destruct (dots_to_the_end R [(1, String c ID)] HRnl) as [d Hd].
    eapply leading_dots with
      (more := d ++ flat_map (Regex.run (Seq (Lit "/") (Star dot))) g); auto.
    - intros t caps Hin.
      apply (@literal_misses "orders/" _
               ("rders/" ++ String c ID ++ "/" ++ R)%string t caps []);
        [|exact Hin].
      cbn [String.append includes startsWith Ascii.eqb Bool.eqb andb orb].
      exact Hno.
    - rewrite run_Seq, run_Lit.
      change (String "o" ("rders/" ++ String c ID ++ "/" ++ R))%string
        with ("orders/" ++ (String c ID ++ "/" ++ R))%string.
      rewrite startsWith_app, drop_app. cbn [flat_map].
      rewrite run_Seq.
      change (fun c0 => negb (Ascii.eqb c0 "/")) with notSlashChar.
      unfold mstate, captures in *.
      rewrite Hg. cbn [flat_map].
      rewrite run_Seq, run_Lit, startsWith_app, drop_app. cbn [flat_map].
      unfold mstate, captures in *.
      rewrite Hd, !app_nil_r. reflexivity. }
  destruct Hrun as [more Hrun].
  unfold replace_by_group1. rewrite (@exec_hit _ _ _ _ _ Hrun).
  cbn [before after groups group Nat.eqb]. now rewrite append_empty.
Qed.

(* ------------------------------------------------------------------ *)
(** * The identifier of a listing entry *)

Lemma keepsGroups_Star_Chr (p : ascii -> bool) : keepsGroups (Star (Chr p)).
Proof.
  intros [s c] [t c'] Hin. rewrite run_Star_Chr in Hin.
  now destruct (star_states_suffix _ _ _ _ _ Hin) as [-> _].
Qed.

Lemma keepsGroups_Lit (l : string) : keepsGroups (Lit l).
Proof.
  intros [s c] y Hin. rewrite run_Lit in Hin.
  destruct (startsWith s l); [|contradiction].
  now destruct Hin as [<-|[]].
Qed.

Lemma keepsGroups_Seq (a b : regex) :
  keepsGroups a -> keepsGroups b -> keepsGroups (Seq a b).
Proof.
  intros Ha Hb x y Hin. rewrite run_Seq in Hin.
  apply in_flat_map in Hin as (z & Hz & Hy).
  now rewrite (Hb _ _ Hy), (Ha _ _ Hz).
Qed.

(** One or more characters of a class, captured: the group is not empty. *)
Lemma run_group_plus_nonempty (p : ascii -> bool) (x y : mstate) :
  In y (Regex.run (Group 1 (Plus (Chr p))) x) ->
  exists g : string, snd y = (1, g) :: snd x /\ g <> EmptyString.
Proof.
  destruct x as [s c]. unfold Plus. rewrite run_Group, run_Seq.
  intros Hin. apply in_map_iff in Hin as ([t c'] & <- & Hin).
  apply in_flat_map in Hin as ([s' c''] & Hs' & Hin).
  destruct s as [|a s]; [contradiction|].
  rewrite run_Chr in Hs'. destruct (p a); [|contradiction].
  destruct Hs' as [[= <- <-]|[]].
  rewrite run_Star_Chr in Hin.
  destruct (star_states_suffix _ _ _ _ _ Hin) as (-> & pre & ->).
  cbn [fst snd]. exists (String a pre). split; [|discriminate].
  change (String a (pre ++ t))%string with (String a pre ++ t)%string.
  now rewrite taken_app.
Qed.

(** The patterns of the two listings capture a group that is not empty. *)
Lemma id_pattern_group (key : string) (p : ascii -> bool) (K : regex)
      (s : string) (y : mstate) :
  keepsGroups K ->
  In y (Regex.run (Seq (Star dot) (Seq (Lit key) (Seq (Group 1 (Plus (Chr p))) K)))
          (s, [])) ->
  exists g : string, snd y = [(1, g)] /\ g <> EmptyString.
Proof.
  intros HK Hin. rewrite run_Seq in Hin.
  apply in_flat_map in Hin as (x1 & H1 & Hin).
  apply (keepsGroups_Star_Chr) in H1. cbn [snd] in H1.
  rewrite run_Seq in Hin. apply in_flat_map in Hin as (x2 & H2 & Hin).
  apply keepsGroups_Lit in H2.
  rewrite run_Seq in Hin. apply in_flat_map in Hin as (x3 & H3 & Hin).
  apply run_group_plus_nonempty in H3 as (g & H3 & Hg).
  apply HK in Hin. exists g. split; [|exact Hg]. congruence.
Qed.

Lemma idRegex_group (p : provider) (s : string) (y : mstate) :
  In y (Regex.run (idRegex p) (s, [])) ->
  exists g : string, snd y = [(1, g)] /\ g <> EmptyString.
Proof.
  destruct p; cbn [idRegex]; apply id_pattern_group.
  - apply keepsGroups_Star_Chr.
  - apply keepsGroups_Seq; [apply keepsGroups_Lit | apply keepsGroups_Star_Chr].
Qed.

(** What [exec] returns comes from a Regex.run of the pattern. *)
Lemma exec_go_run (r : regex) (s : string) :
  forall (pre : string) (m : result),
    exec_go r pre s = Some m ->
    exists (t : string) (more : list mstate),
      Regex.run r (t, []) = (after m, groups m) :: more.
Proof.
  induction s as [|c s IH]; intros pre m; cbn [exec_go].
  - destruct (Regex.run r (EmptyString, [])) as [|[rest caps] more] eqn:Hrun;
      [discriminate|].
    intros [= <-]. cbn. eauto.
  - destruct (Regex.run r (String c s, [])) as [|[rest caps] more] eqn:Hrun.
    + apply IH.
    + intros [= <-]. cbn. eauto.
Qed.

Lemma append_nonempty (a b c : string) :
  b <> EmptyString -> (a ++ b ++ c)%string <> EmptyString.
Proof. destruct a; [|discriminate]. destruct b; [congruence|discriminate]. Qed.

(** Cutting the identifier out of a link that is not empty never gives an
    empty identifier. *)
Lemma replace_by_group1_nonempty (p : provider) (l : string) :
  l <> EmptyString -> replace_by_group1 l (idRegex p) <> EmptyString.
Proof.
  intros Hl. unfold replace_by_group1, exec.
  destruct (exec_go (idRegex p) EmptyString l) as [m|] eqn:Hexec; [|exact Hl].
  destruct (exec_go_run _ _ _ Hexec) as (t & more & Hrun).
  destruct (@idRegex_group p t (after m, groups m)) as (g & Hg & Hne).
  { rewrite Hrun. now left. }
  cbn [snd] in Hg. rewrite Hg. cbn [group Nat.eqb].
  now apply append_nonempty.
Qed.

Lemma replace_by_group1_empty (p : provider) :
  replace_by_group1 EmptyString (idRegex p) = EmptyString.
Proof. destruct p; vm_compute; reflexivity. Qed.

Lemma entryId_linkOf (p : provider) (doc : document) (el : path) :
  entryId p doc el
  = option_map (fun l => replace_by_group1 l (idRegex p)) (linkOf p doc el).
Proof. now destruct p. Qed.

Lemma truthy_iff (s : string) : JsString.truthy s = true <-> s <> EmptyString.
Proof. destruct s; cbn; split; congruence. Qed.

(** An element [find] gives for a compound selector matches every part of
    the selector. *)
Lemma find_first_matches (doc : document) (set : selection)
      (ss : list simple) (q : path) (rest : selection) :
  find doc set (Compound ss) = q :: rest ->
  exists n : node, get doc q = Some n /\ forallb (matchesSimple n) ss = true.
Proof.
  intros Hfind.
  assert (Hin : In q (find doc set (Compound ss))) by (rewrite Hfind; now left).
  unfold find in Hin. apply filter_In in Hin as [_ Hex].
  apply existsb_exists in Hex as (el & _ & Hm).
  apply andb_prop in Hm as [_ Hm]. cbn [matches] in Hm.
  unfold matchesCompound in Hm.
  destruct (get doc q) as [n|]; [eauto|discriminate].
Qed.

(** The link of an Amazon card, when there is one, names an order. *)
Lemma amazon_link_names_order (doc : document) (el : path) (l : string) :
  linkOf AmazonProvider doc el = Some l -> includes l "orderID=" = true.
Proof.
  cbn [linkOf]. unfold attr.
  destruct (find doc [el] (Compound [Tag "a"; AttrIncludes "href" "orderID="]))
    as [|q rest] eqn:Hfind; [discriminate|].
  destruct (find_first_matches _ _ _ Hfind) as (n & -> & Hm).
  cbn [forallb] in Hm. apply andb_prop in Hm as [_ Hm].
  apply andb_prop in Hm as [Hm _].
  destruct n as [|tag attribs cs]; [discriminate|].
  cbn [matchesSimple attrOf] in *.
  destruct (lookup "href" attribs) as [v|]; [|discriminate Hm].
  intros [= <-]. now apply andb_prop in Hm as [_ Hm].
Qed.

(* ------------------------------------------------------------------ *)
(** * The pipeline: requests, progress, results *)

Section PipelineFacts.

Variable net : network.

Lemma fold_apply_allOrders (t : list event) :
  forall w : World.t,
    World.allOrders (fold_left apply t w)
    = World.allOrders w ++ flat_map pushesOf t.
Proof.
  induction t as [|ev t IH]; intros w; cbn [fold_left flat_map].
  - now rewrite app_nil_r.
  - now rewrite IH, apply_allOrders, app_assoc.
Qed.

(** While nothing is pushed, the callbacks see the same result array. *)
Lemma fold_apply_progress (t : list event) :
  forall w : World.t,
    flat_map pushesOf t = [] ->
    World.progress (fold_left apply t w)
    = World.progress w ++ flat_map (progressOf (World.allOrders w)) t.
Proof.
  induction t as [|ev t IH]; intros w Hpush; cbn [fold_left flat_map].
  - now rewrite app_nil_r.
  - cbn [flat_map] in Hpush. apply app_eq_nil in Hpush as [Hev Ht].
    rewrite IH by exact Ht. rewrite app_assoc.
    destruct ev as [url|[v|f|o]]; cbn in Hev |- *;
      rewrite ?app_nil_r; try reflexivity.
    discriminate.
Qed.

Lemma tasks_requests (p : provider) (orders tasks : list Order.t) :
  flat_map (flat_map requestsOf)
    (map (trace net) (map (processOrder p orders) tasks))
  = map (detailUrl p) tasks.
Proof.
  induction tasks as [|o tasks IH]; cbn [map flat_map]; auto.
  rewrite IH, processOrder_trace, !flat_map_app.
  destruct (fetchOrderTransactions_trace net p o) as (_ & _ & _ & -> & _).
  destruct (outcome net (fetchOrderTransactions p o)); reflexivity.
Qed.

Lemma tasks_ticks (p : provider) (orders tasks : list Order.t) :
  length (flat_map (flat_map progressTicks)
            (map (trace net) (map (processOrder p orders) tasks)))
  = length tasks.
Proof.
  induction tasks as [|o tasks IH]; cbn [map flat_map length]; auto.
  rewrite length_app, IH, processOrder_trace, !flat_map_app, !length_app.
  destruct (fetchOrderTransactions_trace net p o) as (_ & _ & _ & _ & Hno).
  assert (Hfetch : flat_map progressTicks
                     (trace net (fetchOrderTransactions p o)) = []).
  { induction Hno as [|ev evs Hev _ IHno]; cbn [flat_map]; auto.
    rewrite IHno. destruct ev as [url|[v|f|o']]; auto.
    now destruct (Hev f). }
  rewrite Hfetch.
  destruct (outcome net (fetchOrderTransactions p o)); reflexivity.
Qed.

Lemma tasks_reportsWith (p : provider) (orders tasks : list Order.t) :
  Forall (Forall (reportsWith (downloadProgress p orders)))
    (map (trace net) (map (processOrder p orders) tasks)).
Proof.
  rewrite map_map. apply Forall_map, Forall_forall. intros o _.
  rewrite processOrder_trace.
  destruct (fetchOrderTransactions_trace net p o) as (_ & _ & _ & _ & Hno).
  apply Forall_app. split; [|apply Forall_app; split].
  - eapply Forall_impl; [|exact Hno]. intros ev Hev g ->. now destruct (Hev g).
  - destruct (outcome net _); repeat constructor; intros g [=].
  - repeat constructor. now intros g [= <-].
Qed.

End PipelineFacts.

Lemma ascends_weaken (l : list Z) :
  forall lo lo' hi : Z, (lo <= lo')%Z -> ascends lo' l hi -> ascends lo l hi.
Proof.
  destruct l as [|x l]; cbn [ascends]; intros lo lo' hi Hlo.
  - lia.
  - intros [Hx Hl]. split; [lia|exact Hl].
Qed.

Lemma ascends_upper (l : list Z) :
  forall lo hi hi' : Z, (hi <= hi')%Z -> ascends lo l hi -> ascends lo l hi'.
Proof.
  induction l as [|x l IH]; cbn [ascends]; intros lo hi hi' Hhi.
  - lia.
  - intros [Hx Hl]. split; [exact Hx|]. eapply IH; eauto.
Qed.

(** The callbacks of the download phase under a schedule: each reports the
    size of the result array at its time, which only grows. *)
Lemma interleave_progress (p : provider) (orders : list Order.t) :
  forall (sched : list nat) (pool : list (list event)) (w : World.t)
         (pool' : list (list event)) (w' : World.t),
    Forall (Forall (reportsWith (downloadProgress p orders))) pool ->
    interleave sched pool w = (pool', w') ->
    exists delta : list ProgressState.t,
      World.progress w' = World.progress w ++ delta
      /\ Forall (fun ps => ProgressState.phase ps = orderDownload p
                           /\ ProgressState.total ps = lengthZ orders) delta
      /\ ascends (lengthZ (World.allOrders w))
           (map ProgressState.complete delta)
           (lengthZ (World.allOrders w')).
Proof.
  induction sched as [|i sched IH]; intros pool w pool' w' Hshape Hrun.
  - injection Hrun as <- <-. exists []. rewrite app_nil_r.
    repeat split; [constructor | cbn; lia].
  - cbn [interleave] in Hrun.
    destruct (nth_error pool i) as [[|ev rest]|] eqn:Hnth; eauto.
    assert (Hev : Forall (reportsWith (downloadProgress p orders)) (ev :: rest)).
    { rewrite Forall_forall in Hshape. eapply Hshape, nth_error_In; eauto. }
    inversion Hev as [|? ? Hhead Hrest]; subst.
    destruct (IH _ _ _ _ (@Forall_replace_nth _ _ _ i _ Hrest Hshape) Hrun)
      as (delta & Hprog & Hall & Hasc).
    destruct ev as [url|[v|f|o]]; cbn [apply World.progress World.allOrders]
      in Hprog, Hasc.
    + exists delta. auto.
    + exists delta. auto.
    + rewrite (Hhead f eq_refl) in *.
      exists (downloadProgress p orders (World.allOrders w) :: delta).
      rewrite Hprog, <- app_assoc. split; [reflexivity|]. split.
      * constructor; [split; reflexivity | exact Hall].
      * cbn [map ascends downloadProgress ProgressState.complete].
        split; [lia | exact Hasc].
    + exists delta. split; [exact Hprog|]. split; [exact Hall|].
      eapply ascends_weaken; [|exact Hasc].
      unfold lengthZ. rewrite length_app. cbn [length]. lia.
Qed.

(* ------------------------------------------------------------------ *)
(** * The scan of the listing pages *)

Lemma visible_app (t1 t2 : list event) :
  visible (t1 ++ t2) = visible t1 ++ visible t2.
Proof. apply filter_app. Qed.

Lemma visible_logs (entries : list logged) :
  visible (map (fun v => Did (DebugLog v)) entries) = [].
Proof. induction entries; cbn; auto. Qed.

(** A projection that passes over the log reads the visible events. *)
Lemma flat_map_visible {X : Type} (proj : event -> list X) (t : list event) :
  (forall v, proj (Did (DebugLog v)) = []) ->
  flat_map proj (visible t) = flat_map proj t.
Proof.
  intros Hlog. induction t as [|ev t IH]; cbn [visible List.filter flat_map]; auto.
  fold (visible t). destruct ev as [url|[v|f|o]]; cbn [isLog negb flat_map];
    rewrite IH; auto.
  now rewrite Hlog.
Qed.

Lemma flat_map_compose {X Y W : Type} (f : X -> list Y) (g : Y -> list W)
      (l : list X) :
  flat_map g (flat_map f l) = flat_map (fun x => flat_map g (f x)) l.
Proof.
  induction l as [|x l IH]; cbn [flat_map]; auto.
  now rewrite flat_map_app, IH.
Qed.

Section ListingScan.

Variable net : network.

Lemma morePages_served (p : provider) (year : option Z) (i : Z)
      (doc : document) (endPage : Z) (rest : list Z) (orders : list Order.t) :
  (i =? 1)%Z = false ->
  servesPage net p year i doc ->
  visible (trace net (morePages p year endPage (i :: rest) orders))
  = pageEvents p year endPage i
    ++ visible (trace net (morePages p year endPage rest (orders ++ listed p doc))).
Proof.
  intros Hi (res & Hnet & Htext).
  pose proof (orderListFromPage_outcome net p doc) as Hout.
  pose proof (orderListFromPage_trace net p doc) as Htrace.
  unfold pageEvents.
  destruct p; cbn [morePages pageUrl orderListFromPage] in *;
    rewrite Hi in *;
    cbn [Amazon.morePages Walmart.morePages];
    unfold Amazon.processOrders, Walmart.processOrders;
    cbn [bind fetch debugLog trace];
    rewrite Hnet; cbn [bind trace];
    unfold load_text; rewrite Htext; cbn [bind];
    rewrite trace_bind, Hout, Htrace;
    cbn [visible List.filter isLog negb app];
    rewrite filter_app; fold (visible (map (fun v => Did (DebugLog v))
                                         (skipEntries AmazonProvider doc)));
    fold (visible (map (fun v => Did (DebugLog v))
                     (skipEntries WalmartProvider doc)));
    rewrite visible_logs;
    cbn [bind onProgress trace List.filter isLog negb app];
    reflexivity.
Qed.

Lemma morePages_fails (p : provider) (year : option Z) (i : Z) (e : exn)
      (endPage : Z) (rest : list Z) (orders : list Order.t) :
  (i =? 1)%Z = false ->
  failsPage net p year i e ->
  outcome net (morePages p year endPage (i :: rest) orders) = inl e
  /\ visible (trace net (morePages p year endPage (i :: rest) orders))
     = [Requested (pageUrl p year i)].
Proof.
  intros Hi Hfail.
  destruct p; cbn [morePages pageUrl] in *; unfold failsPage in Hfail;
    cbn [pageUrl] in Hfail; rewrite Hi in *;
    cbn [Amazon.morePages Walmart.morePages];
    unfold Amazon.processOrders, Walmart.processOrders;
    cbn [bind fetch debugLog trace outcome];
    (destruct Hfail as [Hnet|(res & Hnet & Htext)]; rewrite Hnet;
     cbn [bind trace outcome];
     [|unfold load_text; rewrite Htext; cbn [bind trace outcome]]);
    cbn [visible List.filter isLog negb]; auto.
Qed.

(** The scan past the pages [before], when each of them is served. *)
Lemma morePages_prefix (p : provider) (year : option Z) (endPage : Z)
      (page : Z -> document) (before rest : list Z) :
  forall orders : list Order.t,
    (forall i, In i before ->
               (i =? 1)%Z = false /\ servesPage net p year i (page i)) ->
    outcome net (morePages p year endPage (before ++ rest) orders)
    = outcome net (morePages p year endPage rest
                     (orders ++ flat_map (fun i => listed p (page i)) before))
    /\ visible (trace net (morePages p year endPage (before ++ rest) orders))
       = flat_map (pageEvents p year endPage) before
         ++ visible (trace net (morePages p year endPage rest
                                  (orders
                                   ++ flat_map (fun i => listed p (page i)) before))).
Proof.
  induction before as [|i before IH]; intros orders Hserved.
  - cbn [app flat_map]. now rewrite app_nil_r.
  - destruct (Hserved i (or_introl eq_refl)) as (Hi & Hpage).
    cbn [app flat_map].
    destruct (@processOrders_page net p year i (page i) endPage
                (before ++ rest) orders Hi Hpage) as (-> & _).
    rewrite (@morePages_served p year i (page i) endPage (before ++ rest)
               orders Hi Hpage).
    destruct (IH (orders ++ listed p (page i))) as (-> & ->);
      [intros j Hj; apply Hserved; now right|].
    now rewrite <- !app_assoc.
Qed.

End ListingScan.

Section ListingRun.

Variable net : network.

Lemma listOrders_first_fails (p : provider) (year maxPages : option Z)
      (e : exn) :
  failsPage net p year 1 e ->
  outcome net (listOrders p year maxPages) = inl e
  /\ visible (trace net (listOrders p year maxPages))
     = [Requested (pageUrl p year 1)].
Proof.
  intros Hfail.
  destruct p; cbn [listOrders]; unfold failsPage in Hfail;
    cbn [pageUrl] in *; change (1 =? 1)%Z with true in *; cbv iota in *;
    unfold Amazon.listOrders, Walmart.listOrders;
    cbn [bind fetch debugLog trace outcome];
    (destruct Hfail as [Hnet|(res & Hnet & Htext)]; rewrite Hnet;
     cbn [bind trace outcome];
     [|unfold load_text; rewrite Htext; cbn [bind trace outcome]]);
    cbn [visible List.filter isLog negb]; auto.
Qed.

Lemma listOrders_first_served (p : provider) (year maxPages : option Z)
      (doc : document) :
  servesPage net p year 1 doc ->
  let endPage := pageCount p doc maxPages in
  outcome net (listOrders p year maxPages)
  = outcome net (morePages p year endPage (pagesFrom2 endPage) (listed p doc))
  /\ visible (trace net (listOrders p year maxPages))
     = Requested (pageUrl p year 1)
       :: Did (OnProgress (fun _ => scanProgress p endPage 0))
       :: Did (OnProgress (fun _ => scanProgress p endPage 1))
       :: visible (trace net (morePages p year endPage (pagesFrom2 endPage)
                                (listed p doc))).
Proof.
  intros (res & Hnet & Htext) endPage.
  pose proof (orderListFromPage_outcome net p doc) as Hfirst.
  pose proof (orderListFromPage_trace net p doc) as Htrace.
  destruct p;
    cbn [listOrders pageUrl pageCount morePages orderListFromPage] in *;
    change (1 =? 1)%Z with true in *; cbv iota in *;
    unfold Amazon.listOrders, Walmart.listOrders;
    cbn [bind fetch debugLog outcome trace];
    rewrite Hnet; cbn [bind outcome trace];
    unfold load_text; rewrite Htext;
    cbn [bind onProgress outcome trace];
    rewrite outcome_bind, trace_bind, Hfirst, Htrace;
    cbn [outcome trace bind visible List.filter isLog negb app];
    rewrite filter_app;
    fold (visible (map (fun v => Did (DebugLog v))
                     (skipEntries AmazonProvider doc)));
    fold (visible (map (fun v => Did (DebugLog v))
                     (skipEntries WalmartProvider doc)));
    rewrite visible_logs;
    cbn [outcome trace bind List.filter isLog negb app];
    split; reflexivity.
Qed.

(** What a sequential run leaves in the world, read off its visible
    events. *)
Lemma run_visible {A : Type} (m : prog A) (w : World.t) :
  flat_map pushesOf (visible (trace net m)) = [] ->
  World.requests (snd (run net m w))
  = World.requests w ++ flat_map requestsOf (visible (trace net m))
  /\ World.progress (snd (run net m w))
     = World.progress w
       ++ flat_map (progressOf (World.allOrders w)) (visible (trace net m))
  /\ World.allOrders (snd (run net m w)) = World.allOrders w.
Proof.
  intros Hpush.
  rewrite (flat_map_visible pushesOf) in Hpush by reflexivity.
  rewrite !flat_map_visible by reflexivity.
  split; [apply run_requests|]. unfold run. cbn [snd].
  split; [now apply fold_apply_progress|].
  now rewrite fold_apply_allOrders, Hpush, app_nil_r.
Qed.

End ListingRun.

(* ------------------------------------------------------------------ *)
(** * What a detail fetch returns *)

Section DetailShape.

Variable net : network.

Lemma dateAndAmountOf_ids (order : Order.t) (items : list Item.t)
      (refund : bool) (line label : string) (xs : list OrderTransaction.t) :
  outcome net (Amazon.dateAndAmountOf order items refund line label) = inr xs ->
  Forall (fun tx => OrderTransaction.id tx = Order.id order
                    /\ OrderTransaction.refund tx = refund) xs.
Proof.
  unfold Amazon.dateAndAmountOf, Amazon.second.
  destruct (nth_error (split line label) 1) as [s|]; cbn [bind outcome];
    [|discriminate].
  destruct (nth_error (split (trim s) "-") 1) as [a|]; cbn [bind outcome];
    [|discriminate].
  intros [= <-]. repeat constructor.
Qed.

Lemma amazon_transactions_ids (order : Order.t) (doc : document)
      (txs : list OrderTransaction.t) :
  outcome net (Amazon.transactions order doc) = inr txs ->
  Forall (fun tx => OrderTransaction.id tx = Order.id order) txs.
Proof.
  unfold Amazon.transactions. rewrite outcome_bind.
  destruct (outcome net (each _ _)) as [e|rows] eqn:Hrows; [discriminate|].
  cbn [outcome]. intros [= <-]. apply Forall_app. split.
  - unfold Amazon.giftCard.
    destruct (JsNumber.truthy _); repeat constructor.
  - revert Hrows. apply outcome_each_Forall. intros el xs.
    unfold Amazon.detailRow.
    destruct (includes _ "Items shipped").
    { intros H. apply dateAndAmountOf_ids in H.
      eapply Forall_impl; [|exact H]. now intros tx [Hid _]. }
    destruct (includes _ "Refund: Completed").
    { intros H. apply dateAndAmountOf_ids in H.
      eapply Forall_impl; [|exact H]. now intros tx [Hid _]. }
    cbn. intros [= <-]. constructor.
Qed.

(** A detail fetch that succeeds gives the order it was called on, with
    transactions that carry its identifier. *)
Lemma fetchOrderTransactions_shape (p : provider) (order o : Order.t) :
  outcome net (fetchOrderTransactions p order) = inr o ->
  exists txs : list OrderTransaction.t,
    o = withTransactions order txs
    /\ Forall (fun tx => OrderTransaction.id tx = Order.id order) txs.
Proof.
  destruct p; cbn [fetchOrderTransactions].
  - unfold Amazon.fetchOrderTransactions. cbn [outcome bind fetch debugLog].
    destruct (net _) as [e|res]; cbn [outcome bind]; [discriminate|].
    unfold load_text. destruct (Response.text res) as [e|doc];
      cbn [outcome bind]; [discriminate|].
    rewrite outcome_bind.
    destruct (outcome net (Amazon.transactions order doc)) as [e|txs] eqn:Htxs;
      [discriminate|].
    cbn [outcome]. intros [= <-]. exists txs. split; [reflexivity|].
    now apply amazon_transactions_ids with (doc := doc).
  - unfold Walmart.fetchOrderTransactions. cbn [outcome bind fetch].
    destruct (net _) as [e|res]; cbn [outcome bind]; [discriminate|].
    unfold load_text. destruct (Response.text res) as [e|doc];
      cbn [outcome bind]; [discriminate|].
    intros [= <-]. exists (Walmart.transactions order doc).
    split; [reflexivity|].
    unfold Walmart.transactions. apply Forall_map, Forall_forall.
    reflexivity.
Qed.

Lemma detailed_shape (p : provider) (orders : list Order.t) :
  Forall
    (fun o =>
       exists (order : Order.t) (txs : list OrderTransaction.t),
         In order orders
         /\ o = withTransactions order txs
         /\ Forall (fun tx => OrderTransaction.id tx = Order.id order) txs)
    (detailed p net orders).
Proof.
  unfold detailed. apply Forall_flat_map, Forall_forall. intros order Hin.
  destruct (outcome net (fetchOrderTransactions p order)) as [e|o] eqn:Hout;
    [constructor|].
  destruct (fetchOrderTransactions_shape _ _ Hout) as (txs & -> & Hids).
  repeat constructor. exists order, txs. auto.
Qed.

Lemma detailed_length (p : provider) (orders : list Order.t) :
  length (detailed p net orders) <= length orders.
Proof.
  unfold detailed. induction orders as [|o os IH]; cbn [flat_map length]; auto.
  rewrite length_app.
  destruct (outcome net (fetchOrderTransactions p o)); cbn [length]; lia.
Qed.

End DetailShape.

Lemma flat_map_concat {X Y : Type} (f : X -> list Y) (l : list (list X)) :
  flat_map f (concat l) = flat_map (flat_map f) l.
Proof.
  induction l as [|x l IH]; cbn [concat flat_map]; auto.
  now rewrite flat_map_app, IH.
Qed.

(* ------------------------------------------------------------------ *)
(** * Amounts, years and page counts *)

Lemma every_filter (p : ascii -> bool) (s : string) :
  every p (JsString.filter p s) = true.
Proof.
  induction s as [|c s IH]; cbn [JsString.filter every]; auto.
  destruct (p c) eqn:Hc; cbn [every]; auto. now rewrite Hc.
Qed.

Lemma every_trimStart (p : ascii -> bool) (s : string) :
  every p s = true -> every p (trimStart s) = true.
Proof.
  induction s as [|c s IH]; cbn [trimStart every]; auto.
  intros H. apply andb_prop in H as [Hc Hs].
  destruct (isWhiteSpace c); [auto|]. cbn [every]. now rewrite Hc, Hs.
Qed.

(** A text without a minus sign has no negative sign. *)
Lemma sign_without_minus (p : ascii -> bool) (s : string) :
  p "-"%char = false -> every p s = true -> fst (sign s) = false.
Proof.
  intros Hp Hs. destruct s as [|c s]; [reflexivity|].
  cbn [every] in Hs. apply andb_prop in Hs as [Hc _].
  unfold sign.
  destruct c as [[] [] [] [] [] [] [] []]; try reflexivity.
  cbn in Hp. congruence.
Qed.

Lemma digits_nonneg (s : string) :
  forall (acc : Z) (n : nat),
    (0 <= acc)%Z -> (0 <= fst (fst (digits s acc n)))%Z.
Proof.
  induction s as [|c s IH]; intros acc n Hacc; cbn [digits fst]; auto.
  destruct (isDigit c); cbn [fst]; auto.
  apply IH. unfold digitValue. lia.
Qed.

Lemma pow10_pos (e : Z) : (0 < pow10 e)%Q.
Proof.
  unfold pow10. destruct (0 <=? e)%Z eqn:He.
  - apply Z.leb_le in He. unfold Qlt, inject_Z. cbn.
    rewrite Z.mul_1_r. apply Z.pow_pos_nonneg; lia.
  - reflexivity.
Qed.

(** A text without a negative sign parses to a number that is not
    negative. *)
Lemma parseFloat_notNegative (s : string) :
  fst (sign (trimStart s)) = false -> notNegative (parseFloat s).
Proof.
  unfold parseFloat. destruct (sign (trimStart s)) as [neg t].
  cbn [fst]. intros ->.
  destruct (startsWith t "Infinity"); [exact I|].
  pose proof (@digits_nonneg t 0%Z 0 (Z.le_refl 0)) as Hi.
  destruct (digits t 0%Z 0) as [[i ni] r1]. cbn [fst] in Hi.
  assert (Hfin : forall (m : Z) (e : Z),
             (0 <= m)%Z ->
             notNegative
               (Finite (Qred (inject_Z (signed false m) * pow10 e)))).
  { intros m e Hm. cbn [notNegative signed]. rewrite Qred_correct.
    apply Qmult_le_0_compat; [|apply Qlt_le_weak, pow10_pos].
    unfold Qle, inject_Z. cbn. lia. }
  assert (Hdefault : notNegative
                       (let '(m, nf, r2) := (i, 0, r1) in
                        if (ni =? 0) && (nf =? 0) then NaN
                        else Finite (Qred (inject_Z (signed false m)
                                           * pow10 (exponent r2 - Z.of_nat nf))))).
  { cbv beta iota. destruct ((ni =? 0) && (0 =? 0)); [exact I|]. now apply Hfin. }
  destruct r1 as [|c r]; [exact Hdefault|].
  destruct c as [[] [] [] [] [] [] [] []]; try exact Hdefault.
  pose proof (@digits_nonneg r i 0 Hi) as Hm.
  destruct (digits r i 0) as [[m n] r2]. cbn [fst] in Hm.
  destruct ((ni =? 0) && (n =? 0)); [exact Hdefault|].
  destruct ((ni =? 0) && (n =? 0)); [exact I|]. now apply Hfin.
Qed.

(** [moneyToNumber] with [absoluteValue] never gives a negative number. *)
Lemma moneyToNumber_notNegative (money : option string) :
  notNegative (Amazon.moneyToNumber money true).
Proof.
  destruct money as [m|]; cbn [Amazon.moneyToNumber].
  - apply parseFloat_notNegative.
    apply sign_without_minus
      with (p := fun c => negb (Amazon.stripped true c)); [reflexivity|].
    apply every_trimStart, every_filter.
  - vm_compute. exact I.
Qed.

(** NaN wins over everything in [Math.min]. *)
Lemma Math_min_NaN (xs : list number) : In NaN xs -> Math_min xs = NaN.
Proof.
  unfold Math_min. generalize PosInfinity.
  induction xs as [|x xs IH]; intros acc []; cbn [fold_left].
  - subst x. replace (min2 acc NaN) with NaN by (now destruct acc).
    clear. induction xs as [|x xs IH]; cbn [fold_left]; auto.
  - now apply IH.
Qed.

(** The page count is the largest of one and the numbers of the control. *)
Lemma endPageOf_fold (doc : document) (els : selection) :
  forall start : Z,
    let numbers :=
      flat_map
        (fun el =>
           match parseIntZ (trim (text doc [el])) with
           | Some numPage => [numPage]
           | None => []
           end) els in
    fold_left
      (fun endPage el =>
         let page := trim (text doc [el]) in
         match parseIntZ page with
         | Some numPage => if (numPage >? endPage)%Z then numPage else endPage
         | None => endPage
         end) els start
    = fold_left Z.max numbers start.
Proof.
  induction els as [|el els IH]; intros start; cbn [fold_left flat_map]; auto.
  cbv zeta in *. rewrite IH.
  destruct (parseIntZ (trim (text doc [el]))) as [n|]; cbn [app fold_left]; auto.
  f_equal. destruct (Z.gtb_spec n start); lia.
Qed.

Lemma fold_max_bounds (l : list Z) :
  forall start : Z,
    (start <= fold_left Z.max l start)%Z
    /\ Forall (fun n => (n <= fold_left Z.max l start)%Z) l
    /\ (fold_left Z.max l start = start \/ In (fold_left Z.max l start) l).
Proof.
  induction l as [|n l IH]; intros start; cbn [fold_left].
  - repeat split; [lia | constructor | now left].
  - destruct (IH (Z.max start n)) as (Hlo & Hall & Hin).
    split; [lia|]. split; [constructor; [lia | exact Hall]|].
    destruct Hin as [Heq|Hin]; [|right; now right].
    rewrite Heq. destruct (Z.max_spec start n) as [[_ ->]|[_ ->]];
      [right; now left | now left].
Qed.

Section AmazonAmounts.

Variable net : network.

Lemma amazon_items_prices (doc : document) :
  Forall (fun item => notNegative (Item.price item)) (Amazon.items doc).
Proof.
  unfold Amazon.items. apply Forall_flat_map, Forall_forall. intros el _.
  destruct (JsString.truthy _); repeat constructor.
  apply moneyToNumber_notNegative.
Qed.

Lemma dateAndAmountOf_amounts (order : Order.t) (items : list Item.t)
      (refund : bool) (line label : string) (xs : list OrderTransaction.t) :
  outcome net (Amazon.dateAndAmountOf order items refund line label) = inr xs ->
  Forall (fun tx => notNegative (OrderTransaction.amount tx)) xs.
Proof.
  unfold Amazon.dateAndAmountOf, Amazon.second.
  destruct (nth_error (split line label) 1) as [s|]; cbn [bind outcome];
    [|discriminate].
  destruct (nth_error (split (trim s) "-") 1) as [a|]; cbn [bind outcome];
    [|discriminate].
  intros [= <-]. repeat constructor. apply moneyToNumber_notNegative.
Qed.

Lemma amazon_transactions_amounts (order : Order.t) (doc : document)
      (txs : list OrderTransaction.t) :
  outcome net (Amazon.transactions order doc) = inr txs ->
  Forall (fun tx => notNegative (OrderTransaction.amount tx)) txs.
Proof.
  unfold Amazon.transactions. rewrite outcome_bind.
  destruct (outcome net (each _ _)) as [e|rows] eqn:Hrows; [discriminate|].
  cbn [outcome]. intros [= <-]. apply Forall_app. split.
  - unfold Amazon.giftCard.
    destruct (JsNumber.truthy _); repeat constructor.
    apply moneyToNumber_notNegative.
  - revert Hrows. apply outcome_each_Forall. intros el xs.
    unfold Amazon.detailRow.
    destruct (includes _ "Items shipped");
      [apply dateAndAmountOf_amounts|].
    destruct (includes _ "Refund: Completed");
      [apply dateAndAmountOf_amounts|].
    cbn. intros [= <-]. constructor.
Qed.

End AmazonAmounts.

(* ------------------------------------------------------------------ *)
(** * Detail pages: where extraction can throw *)

Lemma append_assoc_char (a : string) (c : ascii) (b : string) :
  ((a ++ String c EmptyString) ++ b)%string = (a ++ String c b)%string.
Proof. induction a as [|x a IH]; cbn; auto. now rewrite IH. Qed.

(** A text that does not include the separator is one piece. *)
Lemma split_go_without (sep : string) (s : string) :
  forall cur : string,
    includes s sep = false -> split_go sep s 0 cur = [(cur ++ s)%string].
Proof.
  induction s as [|c s IH]; intros cur Hno; cbn [split_go].
  - now rewrite append_empty.
  - cbn [includes] in Hno. apply orb_false_elim in Hno as [Hhere Hlater].
    rewrite Hhere, IH by exact Hlater. now rewrite append_assoc_char.
Qed.

Lemma split_without (s sep : string) :
  includes s sep = false -> split s sep = [s].
Proof. intros Hno. unfold split. now rewrite split_go_without. Qed.

Section DetailErrors.

Variable net : network.

(** A loop throws as soon as one of its callbacks does. *)
Lemma outcome_each_throws {A : Type} (P : exn -> Prop)
      (f : path -> prog (list A)) (els : selection) (el : path) :
  (forall el' e, outcome net (f el') = inl e -> P e) ->
  In el els ->
  (exists e, outcome net (f el) = inl e) ->
  exists e, outcome net (each els f) = inl e /\ P e.
Proof.
  intros HP. induction els as [|x els IH]; intros Hin Hthrows; [contradiction|].
  cbn [each]. rewrite outcome_bind.
  destruct (outcome net (f x)) as [e|xs] eqn:Hx.
  - exists e. split; [reflexivity|]. eapply HP; eauto.
  - destruct Hin as [->|Hin].
    + destruct Hthrows as [e He]. congruence.
    + destruct (IH Hin Hthrows) as (e & He & HPe).
      rewrite outcome_bind, He. eauto.
Qed.

(** What a row of the payment details throws is the error of a method
    call on [undefined]. *)
Lemma detailRow_errors (order : Order.t) (items : list Item.t)
      (doc : document) (el : path) (e : exn) :
  outcome net (Amazon.detailRow order items doc el) = inl e ->
  exists reading : string, e = undefinedRead reading.
Proof.
  unfold Amazon.detailRow.
  assert (H : forall refund line label,
             outcome net (Amazon.dateAndAmountOf order items refund line label)
             = inl e ->
             exists reading : string, e = undefinedRead reading).
  { intros refund line label.
    unfold Amazon.dateAndAmountOf, Amazon.second.
    destruct (nth_error (split line label) 1) as [s|]; cbn [bind outcome].
    - destruct (nth_error (split (trim s) "-") 1) as [a|]; cbn [bind outcome];
        [discriminate|].
      intros [= <-]. now exists "split".
    - intros [= <-]. now exists "trim". }
  destruct (includes _ "Items shipped"); [apply H|].
  destruct (includes _ "Refund: Completed"); [apply H|].
  discriminate.
Qed.

Lemma detailRow_without_label (order : Order.t) (items : list Item.t)
      (doc : document) (el : path) :
  includes (rowLine doc el) "Items shipped" = true ->
  includes (rowLine doc el) "shipped:" = false ->
  outcome net (Amazon.detailRow order items doc el) = inl (undefinedRead "trim").
Proof.
  intros Hrow Hno. unfold Amazon.detailRow. fold (rowLine doc el).
  rewrite Hrow. unfold Amazon.dateAndAmountOf, Amazon.second.
  now rewrite (split_without _ _ Hno).
Qed.

End DetailErrors.

(* ------------------------------------------------------------------ *)
(** * String replacement and the detail URL of Walmart *)

(** A replacement text without [$] stands for itself. *)
Lemma substitution_plain (repl matched before after : string) :
  every (fun c => negb (Ascii.eqb c "$")) repl = true ->
  substitution repl matched before after = repl.
Proof.
  induction repl as [|c r IH]; [reflexivity|].
  cbn [every]. intros H. apply andb_prop in H as [Hc Hr].
  assert (Hstep : substitution (String c r) matched before after
                  = String c (substitution r matched before after)).
  { destruct c as [[] [] [] [] [] [] [] []]; try reflexivity.
    discriminate Hc. }
  now rewrite Hstep, IH.
Qed.

(** [replace] passes over the characters that cannot start the pattern. *)
Lemma replace_go_skip (k : ascii) (pat' repl : string) (a : string) :
  forall rest before : string,
    every (fun c => negb (Ascii.eqb c k)) a = true ->
    replace_go (a ++ rest) (String k pat') repl before
    = replace_go rest (String k pat') repl (before ++ a).
Proof.
  induction a as [|c a IH]; intros rest before Ha.
  - now rewrite append_empty.
  - cbn [every] in Ha. apply andb_prop in Ha as [Hc Ha].
    cbn [String.append replace_go startsWith].
    rewrite Ascii.eqb_sym. apply negb_true_iff in Hc. rewrite Hc.
    cbn [andb]. rewrite IH by exact Ha. now rewrite append_assoc_char.
Qed.

Lemma replace_go_here (s pat repl before : string) :
  startsWith s pat = true ->
  replace_go s pat repl before
  = (before ++ substitution repl pat before (drop (String.length pat) s)
     ++ drop (String.length pat) s)%string.
Proof. intros H. destruct s; cbn [replace_go]; now rewrite H. Qed.

(** The first occurrence of a pattern, past a text in which it cannot
    start. *)
Lemma replace_first (k : ascii) (pat' repl a b : string) :
  every (fun c => negb (Ascii.eqb c k)) a = true ->
  replace (a ++ String k pat' ++ b) (String k pat') repl
  = (a ++ substitution repl (String k pat') a b ++ b)%string.
Proof.
  intros Ha. unfold replace. rewrite replace_go_skip by exact Ha.
  rewrite replace_go_here by apply startsWith_app.
  now rewrite drop_app.
Qed.

Lemma every_impl (p q : ascii -> bool) (s : string) :
  (forall c, p c = true -> q c = true) -> every p s = true -> every q s = true.
Proof.
  intros Hpq. induction s as [|c s IH]; cbn [every]; auto.
  intros H. apply andb_prop in H as [Hc Hs]. now rewrite (Hpq c Hc), IH.
Qed.

Lemma append_assoc (a b c : string) :
  ((a ++ b) ++ c)%string = (a ++ b ++ c)%string.
Proof. induction a as [|x a IH]; cbn; auto. now rewrite IH. Qed.

(* ------------------------------------------------------------------ *)
(** * The first match of a pattern *)

Lemma firstRun_Seq (a b : regex) (x y z : mstate) :
  firstRun a x y -> firstRun b y z -> firstRun (Seq a b) x z.
Proof.
  intros [m1 H1] [m2 H2]. unfold firstRun. rewrite run_Seq.
  unfold mstate, captures in *. rewrite H1. cbn [flat_map]. rewrite H2.
  rewrite <- app_comm_cons. eauto.
Qed.

Lemma firstRun_Lit (l rest : string) (caps : captures) :
  firstRun (Lit l) ((l ++ rest)%string, caps) (rest, caps).
Proof.
  unfold firstRun. rewrite run_Lit, startsWith_app, drop_app. eauto.
Qed.

Lemma firstRun_Chr (p : ascii -> bool) (c : ascii) (s : string)
      (caps : captures) :
  p c = true -> firstRun (Chr p) (String c s, caps) (s, caps).
Proof. intros Hc. unfold firstRun. rewrite run_Chr, Hc. eauto. Qed.

Lemma firstRun_Eps (x : mstate) : firstRun Eps x x.
Proof. unfold firstRun. cbn. eauto. Qed.

Lemma firstRun_Plus (p : ascii -> bool) (c : ascii) (a r : string)
      (caps : captures) :
  p c = true -> every p a = true -> stopsAt p r = true ->
  firstRun (Plus (Chr p)) ((String c a ++ r)%string, caps) (r, caps).
Proof.
  intros Hc Ha Hr. unfold Plus. eapply firstRun_Seq.
  - cbn [String.append]. now apply firstRun_Chr.
  - unfold firstRun. rewrite run_Star_Chr. now apply star_states_head.
Qed.

Lemma firstRun_Group (i : nat) (a : regex) (s t : string) (caps caps' : captures) :
  firstRun a (s, caps) (t, caps') ->
  firstRun (Group i a) (s, caps) (t, (i, taken s t) :: caps').
Proof.
  intros [more H]. unfold firstRun. rewrite run_Group.
  unfold mstate, captures in *. rewrite H. cbn [map fst snd]. eauto.
Qed.

Lemma firstRun_Alt_left (a b : regex) (x y : mstate) :
  firstRun a x y -> firstRun (Alt a b) x y.
Proof.
  intros [more H]. unfold firstRun. cbn [Regex.run].
  unfold mstate, captures in *. rewrite H. rewrite <- app_comm_cons. eauto.
Qed.

Lemma firstRun_Alt_right (a b : regex) (x y : mstate) :
  Regex.run a x = [] -> firstRun b x y -> firstRun (Alt a b) x y.
Proof.
  intros Ha [more H]. unfold firstRun. cbn [Regex.run].
  unfold mstate, captures in *. rewrite Ha, H. cbn [app]. eauto.
Qed.

Lemma exec_first (r : regex) (s rest : string) (caps : captures) :
  firstRun r (s, []) (rest, caps) ->
  exec r s = Some {| before := EmptyString; matched := taken s rest;
                     after := rest; groups := caps |}.
Proof. intros [more H]. now apply exec_hit with (more := more). Qed.

(** The date group reads a month word, two digits, a comma and four
    digits, and captures them. *)
Lemma date_group_first (month : string) (c d1 d2 y1 y2 y3 y4 : ascii)
      (tail : string) :
  isWordChar c = true -> every isWordChar month = true ->
  isDigit d1 = true -> isDigit d2 = true ->
  isDigit y1 = true -> isDigit y2 = true ->
  isDigit y3 = true -> isDigit y4 = true ->
  firstRun Walmart.date_group
    ((walmartDate (String c month) d1 d2 y1 y2 y3 y4 ++ tail)%string, [])
    (tail, [(1, walmartDate (String c month) d1 d2 y1 y2 y3 y4)]).
Proof.
  intros Hc Hmonth H1 H2 H3 H4 H5 H6.
  unfold Walmart.date_group.
  rewrite <- (taken_app (walmartDate (String c month) d1 d2 y1 y2 y3 y4) tail)
    at 2.
  apply firstRun_Group.
  unfold walmartDate. rewrite !append_assoc.
  eapply firstRun_Seq.
  { unfold Walmart.word. apply firstRun_Plus; auto. }
  eapply firstRun_Seq; [apply firstRun_Lit|].
  eapply firstRun_Seq.
  { cbn [Repeat String.append]. unfold Walmart.digit.
    eapply firstRun_Seq; [now apply firstRun_Chr|].
    eapply firstRun_Seq; [now apply firstRun_Chr|]. apply firstRun_Eps. }
  eapply firstRun_Seq.
  { change (String "," (String " " ?x)) with (", " ++ x)%string.
    apply (firstRun_Lit ", "). }
  cbn [Repeat String.append]. unfold Walmart.digit.
  repeat (eapply firstRun_Seq; [now apply firstRun_Chr|]).
  apply firstRun_Eps.
Qed.

(* ------------------------------------------------------------------ *)
(** * Splitting a row of Amazon's payment details *)

(** Passing over the rest of a separator. *)
Lemma split_go_skip (sep a : string) :
  forall rest cur : string,
    split_go sep (a ++ rest) (String.length a) cur = split_go sep rest 0 cur.
Proof.
  induction a as [|c a IH]; intros rest cur; [reflexivity|].
  cbn [String.append String.length split_go]. apply IH.
Qed.

Lemma split_go_here (k : ascii) (sep' rest cur : string) :
  split_go (String k sep') (String k sep' ++ rest) 0 cur
  = cur :: split_go (String k sep') rest 0 EmptyString.
Proof.
  cbn [String.append split_go].
  change (String k (sep' ++ rest)) with (String k sep' ++ rest)%string.
  rewrite startsWith_app. cbn [String.length Nat.sub].
  rewrite Nat.sub_0_r. now rewrite split_go_skip.
Qed.

(** The piece before the first occurrence of the separator. *)
Lemma split_go_first (k : ascii) (sep' : string) (pre : string) :
  forall rest cur : string,
    firstOccurrence pre (String k sep') rest = true ->
    split_go (String k sep') (pre ++ String k sep' ++ rest) 0 cur
    = (cur ++ pre)%string :: split_go (String k sep') rest 0 EmptyString.
Proof.
  induction pre as [|c pre IH]; intros rest cur Hfirst.
  - cbn [String.append]. rewrite append_empty.
    change (String k (sep' ++ rest)) with (String k sep' ++ rest)%string.
    apply split_go_here.
  - cbn [firstOccurrence] in Hfirst. apply andb_prop in Hfirst as [Hhere Hlater].
    apply negb_true_iff in Hhere.
    change ((String c pre ++ String k sep' ++ rest)%string)
      with (String c (pre ++ String k sep' ++ rest)) in *.
    cbn [split_go].
    rewrite Hhere, IH by exact Hlater. now rewrite append_assoc_char.
Qed.

Lemma split_first (k : ascii) (sep' pre rest : string) :
  firstOccurrence pre (String k sep') rest = true ->
  includes rest (String k sep') = false ->
  split (pre ++ String k sep' ++ rest) (String k sep') = [pre; rest].
Proof.
  intros Hfirst Hno. unfold split.
  rewrite split_go_first by exact Hfirst.
  now rewrite split_go_without.
Qed.

(** A text without the character [k] holds no occurrence of it. *)
Lemma firstOccurrence_char (k : ascii) (a rest : string) :
  every (notChar k) a = true ->
  firstOccurrence a (String k EmptyString) rest = true.
Proof.
  induction a as [|c a IH]; cbn [every firstOccurrence]; auto.
  intros H. apply andb_prop in H as [Hc Ha]. rewrite IH by exact Ha.
  cbn [String.append startsWith]. unfold notChar in Hc.
  apply negb_true_iff in Hc. rewrite Ascii.eqb_sym, Hc. reflexivity.
Qed.

Lemma includes_char (k : ascii) (a : string) :
  every (notChar k) a = true -> includes a (String k EmptyString) = false.
Proof.
  induction a as [|c a IH]; cbn [every includes startsWith]; auto.
  intros H. apply andb_prop in H as [Hc Ha]. rewrite IH by exact Ha.
  unfold notChar in Hc. apply negb_true_iff in Hc.
  rewrite Ascii.eqb_sym, Hc. reflexivity.
Qed.

Lemma split_char (k : ascii) (a b : string) :
  every (notChar k) a = true -> every (notChar k) b = true ->
  split (a ++ String k EmptyString ++ b) (String k EmptyString) = [a; b].
Proof.
  intros Ha Hb. apply split_first.
  - now apply firstOccurrence_char.
  - now apply includes_char.
Qed.

Lemma every_app_inv (p : ascii -> bool) (a b : string) :
  every p (a ++ b) = true -> every p a = true /\ every p b = true.
Proof. rewrite every_app. apply andb_prop. Qed.

(** The transaction of a row that reads [pre label D - M $ A]. *)
Lemma dateAndAmountOf_reads (net : network) (order : Order.t)
      (items : list Item.t) (refund : bool) (k : ascii)
      (label' pre rest D M A : string) :
  firstOccurrence pre (String k label') rest = true ->
  includes rest (String k label') = false ->
  trim rest = (D ++ "-" ++ M ++ "$" ++ A)%string ->
  every (notChar "-") (D ++ M ++ A) = true ->
  every (notChar "$") (M ++ A) = true ->
  outcome net
    (Amazon.dateAndAmountOf order items refund
       (pre ++ String k label' ++ rest) (String k label'))
  = inr [{| OrderTransaction.id := Order.id order;
            OrderTransaction.amount := Amazon.moneyToNumber (Some A) true;
            OrderTransaction.date := trim D;
            OrderTransaction.refund := refund;
            OrderTransaction.items := items |}].
Proof.
  intros Hfirst Hno Htrim Hminus Hdollar.
  apply every_app_inv in Hminus as [HD HMA].
  apply every_app_inv in HMA as [HM HA].
  apply every_app_inv in Hdollar as [HM' HA'].
  unfold Amazon.dateAndAmountOf, Amazon.second.
  rewrite (split_first _ _ _ _ Hfirst Hno). cbn [nth_error bind outcome].
  rewrite Htrim.
  assert (Hsplit : split (D ++ "-" ++ M ++ "$" ++ A) "-"
                   = [D; (M ++ "$" ++ A)%string]).
  { apply split_char; [exact HD|].
    rewrite every_app, HM. cbn [String.append every]. now rewrite HA. }
  rewrite Hsplit. cbn [nth_error nth bind outcome].
  now rewrite (split_char "$" M A HM' HA').
Qed.

(* ------------------------------------------------------------------ *)
(** * A link the pattern of the identifier does not match *)

(** A pattern that asks for a literal after [.*] matches nowhere in a text
    without the literal. *)
Lemma exec_go_misses (key : string) (K : regex) (s : string) :
  forall pre : string,
    includes s key = false ->
    exec_go (Seq (Star dot) (Seq (Lit key) K)) pre s = None.
Proof.
  assert (Hrun : forall t : string,
             includes t key = false ->
             Regex.run (Seq (Star dot) (Seq (Lit key) K)) (t, []) = []).
  { intros t Hno. rewrite run_Seq.
    change dot with (Chr notLineTerminator). rewrite run_Star_Chr.
    apply flat_map_nil. intros [u c] Hin.
    now apply (@literal_misses key K t u c []). }
  induction s as [|c s IH]; intros pre Hno; cbn [exec_go];
    rewrite (Hrun _ Hno); [reflexivity|].
  apply IH. cbn [includes] in Hno. now apply orb_false_elim in Hno as [_ Hno].
Qed.

(* ------------------------------------------------------------------ *)
(** * Trimmed titles *)

Lemma trimEnd_kept (c : ascii) (s : string) :
  isWhiteSpace c = false -> trimEnd (String c s) = String c (trimEnd s).
Proof. intros Hc. cbn [trimEnd]. rewrite Hc. now destruct (trimEnd s). Qed.

Lemma trimEnd_trimEnd (s : string) : trimEnd (trimEnd s) = trimEnd s.
Proof.
  induction s as [|c s IH]; [reflexivity|].
  cbn [trimEnd]. destruct (trimEnd s) as [|d t] eqn:Ht.
  - destruct (isWhiteSpace c) eqn:Hc; [reflexivity|].
    cbn [trimEnd]. now rewrite Hc.
  - cbn [trimEnd]. cbn [trimEnd] in IH. now rewrite IH.
Qed.

Lemma trimStart_head (s : string) :
  trimStart s = EmptyString
  \/ exists (c : ascii) (s' : string),
       trimStart s = String c s' /\ isWhiteSpace c = false.
Proof.
  induction s as [|c s IH]; [now left|].
  cbn [trimStart]. destruct (isWhiteSpace c) eqn:Hc; [exact IH|].
  right. eauto.
Qed.

(** Trimming a trimmed text changes nothing. *)
Lemma trim_trim (s : string) : trim (trim s) = trim s.
Proof.
  unfold trim. destruct (trimStart_head s) as [->|(c & s' & -> & Hc)];
    [reflexivity|].
  rewrite (@trimEnd_kept c s' Hc). cbn [trimStart]. rewrite Hc.
  rewrite (@trimEnd_kept c (trimEnd s') Hc). now rewrite trimEnd_trimEnd.
Qed.

Lemma interleave_nil (sched : list nat) (w : World.t) :
  interleave sched [] w = ([], w).
Proof.
  induction sched as [|i sched IH]; [reflexivity|].
  cbn [interleave]. now destruct i.
Qed.

(* ------------------------------------------------------------------ *)
(** * What a schedule can change *)

(** What the tasks add to a field of the world that grows event by event
    is, under every schedule, a permutation of what they add one after the
    other. *)
Lemma Throttle_all_field {X : Type} (net : network)
      (fld : World.t -> list X) (proj : event -> list X)
      (sched : list nat) (tasks : list (prog unit)) (w : World.t)
      (r : exn + unit) (w' : World.t) :
  (forall w0 ev, fld (apply w0 ev) = fld w0 ++ proj ev) ->
  Throttle_all net sched tasks w = Some (r, w') ->
  exists delta : list X,
    fld w' = fld w ++ delta
    /\ Permutation delta (flat_map (flat_map proj) (map (trace net) tasks)).
Proof.
  intros Hstep. unfold Throttle_all.
  destruct (interleave sched _ _) as [pool' w2] eqn:Hrun.
  destruct (finished pool') eqn:Hfin; [|discriminate].
  intros [= _ <-].
  destruct (interleave_field fld proj Hstep _ _ _ Hrun)
    as (delta & Hfld & Hperm).
  exists delta. split; [exact Hfld|].
  assert (Hnil : flat_map (flat_map proj) pool' = []).
  { clear -Hfin. induction pool' as [|t pool IH]; [reflexivity|].
    cbn [finished forallb] in Hfin. apply andb_prop in Hfin as [Ht Hpool].
    destruct t; [|discriminate]. cbn [flat_map app]. now apply IH. }
  now rewrite Hnil, app_nil_r in Hperm.
Qed.

Lemma Throttle_all_same_field {X : Type} (net : network)
      (fld : World.t -> list X) (proj : event -> list X)
      (tasks : list (prog unit)) (w : World.t)
      (sched1 sched2 : list nat) (r1 r2 : exn + unit) (w1 w2 : World.t) :
  (forall w0 ev, fld (apply w0 ev) = fld w0 ++ proj ev) ->
  Throttle_all net sched1 tasks w = Some (r1, w1) ->
  Throttle_all net sched2 tasks w = Some (r2, w2) ->
  Permutation (fld w1) (fld w2).
Proof.
  intros Hstep H1 H2.
  destruct (Throttle_all_field net fld proj _ _ _ Hstep H1) as (d1 & -> & Hp1).
  destruct (Throttle_all_field net fld proj _ _ _ Hstep H2) as (d2 & -> & Hp2).
  apply Permutation_app_head.
  etransitivity; [exact Hp1 | symmetry; exact Hp2].
Qed.

Lemma apply_ticks (w : World.t) (ev : event) :
  flat_map (fun _ => [tt]) (World.progress (apply w ev))
  = flat_map (fun _ : ProgressState.t => [tt]) (World.progress w)
    ++ progressTicks ev.
Proof.
  destruct ev as [url|[v|f|o]]; cbn [apply World.progress progressTicks];
    rewrite ?app_nil_r, ?flat_map_app; reflexivity.
Qed.

Lemma length_ticks {X : Type} (l : list X) :
  length (flat_map (fun _ => [tt]) l) = length l.
Proof. induction l; cbn; auto. Qed.

(* ------------------------------------------------------------------ *)
(** * The entries of a listing, read by their links *)





(* ------------------------------------------------------------------ *)
(** * The claims *)

Import Samples.
Import EdgeSamples.

(** C8.  For every provider, when the page the probe fetches holds the
    provider's sign-in marker (an [h1] containing "Sign in" for Amazon, an
    element of class [mw3] containing "Sign In" for Walmart), the probe
    returns NotLoggedIn, whatever else the page holds. *)
Theorem sign_in_marker_gives_NotLoggedIn
        (p : provider) (net : network) (w : World.t)
        (res : Response.t) (doc : document) :
  net (authUrl p) = inr res ->
  Response.text res = inr doc ->
  holds doc (markerParts p) ->
  fst (run net (probeAuth p) w)
  = inr {| AuthInfo.status := NotLoggedIn; AuthInfo.startingYear := None |}.
Proof.
  intros Hnet Htext Hmark.
  rewrite (probe_page net w p Hnet Htext), signInMarker_parts.
  assert (Hsel : select doc (Compound (markerParts p)) <> []).
  { destruct p; apply holds_select; exact Hmark. }
  destruct (select doc (Compound (markerParts p))); [congruence | reflexivity].
Qed.

Lemma sign_in_marker_witness :
  fst (run (serve Amazon.ORDER_PAGES_URL amazon_signin)
         (probeAuth AmazonProvider) World.empty)
  = inr {| AuthInfo.status := NotLoggedIn; AuthInfo.startingYear := None |}
  /\ fst (run (serve Walmart.ORDER_PAGES_URL walmart_signin)
            (probeAuth WalmartProvider) World.empty)
     = inr {| AuthInfo.status := NotLoggedIn; AuthInfo.startingYear := None |}.
Proof.
  split.
  - apply (@sign_in_marker_gives_NotLoggedIn AmazonProvider
             (serve Amazon.ORDER_PAGES_URL amazon_signin) World.empty
             {| Response.status := 200; Response.text := inr amazon_signin |}
             amazon_signin); [reflexivity | reflexivity |].
    exists [0], (Element "h1" [("class", "a-spacing-small")] [Text " Sign in "]).
    split; reflexivity.
  - apply (@sign_in_marker_gives_NotLoggedIn WalmartProvider
             (serve Walmart.ORDER_PAGES_URL walmart_signin) World.empty
             {| Response.status := 200; Response.text := inr walmart_signin |}
             walmart_signin); [reflexivity | reflexivity |].
    exists [0],
      (cls "div" "mw3 center" [Element "h2" [] [Text "Sign In or create account"]]).
    split; reflexivity.
Defined.

(** C9.  When an exception is raised inside the auth probe (the request is
    rejected, or reading the body fails), the probe catches it, records a
    diagnostic entry that names the error, and returns Failure as a value:
    the run ends with a result, not with a thrown error. *)
Theorem auth_probe_exception_gives_Failure
        (p : provider) (net : network) (w : World.t) (e : exn) :
  raisedInside net p e ->
  fst (run net (probeAuth p) w)
  = inr {| AuthInfo.status := Failure; AuthInfo.startingYear := None |}
  /\ exists entries : list logged,
       World.log (snd (run net (probeAuth p) w))
       = World.log w ++ entries ++ [authFailureEntry p e].
Proof. apply probe_exception. Qed.

Lemma auth_probe_exception_witness :
  fst (run offline (probeAuth WalmartProvider) World.empty)
  = inr {| AuthInfo.status := Failure; AuthInfo.startingYear := None |}
  /\ exists entries : list logged,
       World.log (snd (run offline (probeAuth WalmartProvider) World.empty))
       = World.log World.empty ++ entries
         ++ [authFailureEntry WalmartProvider (TypeError "Failed to fetch")].
Proof.
  apply (@auth_probe_exception_gives_Failure WalmartProvider offline World.empty
           (TypeError "Failed to fetch")).
  left. reflexivity.
Defined.

(** C10, as amended.  When the page has no sign-in marker and no option of
    its year filter shows a value that includes [year] (the value an option
    shows is its [value] attribute, or its text when it has none), the probe
    returns Success with [startingYear] positive infinity, the minimum of no
    years. *)
Theorem no_year_option_gives_infinity
        (p : provider) (net : network) (w : World.t)
        (res : Response.t) (doc : document) :
  net (authUrl p) = inr res ->
  Response.text res = inr doc ->
  ~ holds doc (markerParts p) ->
  Forall (fun n => yearValued (shownValue n) = false) (optionNodes doc) ->
  fst (run net (probeAuth p) w)
  = inr {| AuthInfo.status := Success;
           AuthInfo.startingYear := Some PosInfinity |}.
Proof.
  intros Hnet Htext Hmark Hnone.
  rewrite (probe_page net w p Hnet Htext), signInMarker_parts.
  rewrite (not_holds_select Hmark). cbn [length Nat.ltb Nat.leb].
  now rewrite yearOptions_nodes, (yearOptions_none Hnone).
Qed.

Lemma not_holds_by_select (doc : document) (s : simple) (ss : list simple) :
  select doc (Compound (s :: ss)) = [] -> ~ holds doc (s :: ss).
Proof. intros Hsel Hh. now apply (@holds_select doc s ss). Qed.

(** An option whose [value] attribute does not start with [year-], or that
    has none, carries no year. *)
Lemma carries_no_year (n : node) :
  match attribute n "value" with
  | Some value => startsWith (trim value) "year-" = false
  | None => True
  end ->
  ~ (exists y : nat, carriesYear n y).
Proof.
  intros Hn (y & value & Hattr & Htrim). rewrite Hattr, Htrim in Hn.
  discriminate.
Qed.

(** A filter with two periods and no year. *)
Lemma no_year_option_witness :
  fst (run (serve Amazon.ORDER_PAGES_URL history_without_years)
         (probeAuth AmazonProvider) World.empty)
  = inr {| AuthInfo.status := Success;
           AuthInfo.startingYear := Some PosInfinity |}.
Proof.
  apply (@no_year_option_gives_infinity AmazonProvider
           (serve Amazon.ORDER_PAGES_URL history_without_years) World.empty
           {| Response.status := 200;
              Response.text := inr history_without_years |}
           history_without_years); [reflexivity | reflexivity | |].
  - apply not_holds_by_select. vm_compute. reflexivity.
  - vm_compute. repeat constructor.
Defined.

(** C10 as stated fails: the filter holds two periods and an option
    [This year] without a [value] attribute, so none of its options carries
    a year; the option passes the test of the loop on its text, [undefined]
    is pushed, and [startingYear] is NaN. *)
Lemma no_year_option_counterexample :
  ~ givesInfinityWithoutYears AmazonProvider history_with_this_year.
Proof.
  intros Hclaim.
  assert (Hnet : serve Amazon.ORDER_PAGES_URL history_with_this_year
                   (authUrl AmazonProvider)
                 = inr {| Response.status := 200;
                          Response.text := inr history_with_this_year |})
    by (vm_compute; reflexivity).
  assert (Hmark : ~ holds history_with_this_year (markerParts AmazonProvider))
    by (apply not_holds_by_select; vm_compute; reflexivity).
  assert (Hnodes : optionNodes history_with_this_year
                   = [opt "last30" "last 30 days";
                      opt "months-3" "past 3 months";
                      Element "option" [] [Text "This year"]])
    by (vm_compute; reflexivity).
  assert (Hyears : yearsAmong (optionNodes history_with_this_year) []).
  { rewrite Hnodes.
    repeat (apply yearsAmong_other;
            [apply carries_no_year; vm_compute; auto|]).
    apply yearsAmong_nil. }
  pose proof (Hclaim _ World.empty _ Hnet eq_refl Hmark Hyears) as Hinf.
  vm_compute in Hinf. discriminate.
Qed.










(** C6, as amended.  Walmart's amount parsing removes every character that
    is not a digit, a point or a minus sign (currency symbols, white space
    and thousands separators go, the sign and the decimal point stay): when
    a decimal literal remains it returns the value of the literal, for an
    empty text it returns zero, and for a text without a digit NaN.
    Amazon's [moneyToNumber] removes the dollar sign, white space and, with
    [absoluteValue] at its default, the minus sign: when an unsigned decimal
    literal remains it returns its value, so the sign is dropped; an
    undefined or empty input gives NaN.  Both are total: nothing throws. *)
Theorem amount_parsing :
  parsesAmounts Walmart.amountOf
  /\ (forall (i f : Decimal.uint) (money : string),
         i <> Decimal.Nil \/ f <> Decimal.Nil ->
         JsString.filter (fun c => negb (Amazon.stripped true c)) money
         = literal false i f ->
         Amazon.moneyToNumber (Some money) true
         = Finite (literalValue false i f))
  /\ Walmart.amountOf EmptyString = ofZ 0
  /\ (forall text : string,
         JsString.filter isDigit text = EmptyString ->
         text <> EmptyString ->
         Walmart.amountOf text = NaN)
  /\ Amazon.moneyToNumber None true = NaN
  /\ Amazon.moneyToNumber (Some EmptyString) true = NaN.
Proof.
  refine (conj walmart_parsesAmounts (conj _ (conj eq_refl (conj _ (conj eq_refl eq_refl))))).
  - intros i f money Hif Hlit. unfold Amazon.moneyToNumber.
    rewrite Hlit. now apply parseFloat_literal.
  - intros text Hno Htext. unfold Walmart.amountOf.
    destruct text; [congruence|]. cbn [JsString.truthy].
    now apply parseFloat_onlyPointMinus, numeric_without_digits.
Qed.

(** A price with a currency symbol and a thousands separator on Walmart, a
    refund on Amazon, and a text without a digit. *)
Lemma amount_parsing_witness :
  Walmart.amountOf "$1,008.47" = Finite (100847 # 100)
  /\ Amazon.moneyToNumber (Some " -$21.50") true = Finite (43 # 2)
  /\ Walmart.amountOf "N/A" = NaN.
Proof.
  refine (conj _ (conj _ _)).
  - apply (proj1 amount_parsing false
             (Decimal.D1 (Decimal.D0 (Decimal.D0 (Decimal.D8 Decimal.Nil))))
             (Decimal.D4 (Decimal.D7 Decimal.Nil)) "$1,008.47");
      [left; discriminate | reflexivity].
  - apply (proj1 (proj2 amount_parsing)
             (Decimal.D2 (Decimal.D1 Decimal.Nil))
             (Decimal.D5 (Decimal.D0 Decimal.Nil)) " -$21.50");
      [left; discriminate | reflexivity].
  - apply (proj1 (proj2 (proj2 (proj2 amount_parsing))));
      [reflexivity | discriminate].
Defined.

(** C6 as stated fails on Amazon's [moneyToNumber]: the sign of a negative
    amount is lost. *)
Lemma amount_parsing_counterexample :
  ~ parsesAmounts (fun money => Amazon.moneyToNumber (Some money) true).
Proof.
  intros Hclaim.
  assert (Hdigits : Decimal.D5 Decimal.Nil <> Decimal.Nil
                    \/ Decimal.D0 (Decimal.D0 Decimal.Nil) <> Decimal.Nil)
    by (left; discriminate).
  pose proof (Hclaim true (Decimal.D5 Decimal.Nil)
                (Decimal.D0 (Decimal.D0 Decimal.Nil)) "-$5.00" Hdigits)
    as Hfive.
  assert (Hlit : JsString.filter Walmart.numeric "-$5.00"
                 = literal true (Decimal.D5 Decimal.Nil)
                     (Decimal.D0 (Decimal.D0 Decimal.Nil)))
    by (vm_compute; reflexivity).
  specialize (Hfive Hlit).
  vm_compute in Hfive. discriminate.
Qed.

(** C2.  When the listing gives N orders, the detail fetch of exactly one of
    them throws and the others succeed, then under every schedule of the
    tasks [fetchOrders] returns (the exception stays inside the task of that
    order), the result holds the N-1 other orders with their transactions,
    and the log receives exactly one entry for the failure: the error, which
    on Walmart is all the tasks log.  Some schedule finishes the tasks. *)
Theorem one_failed_fetch_drops_one_order
        (p : provider) (net : network) (year maxPages : option Z)
        (w w1 : World.t) (before after : list Order.t) (bad : Order.t)
        (e : exn) :
  run net (listOrders p year maxPages) w = (inr (before ++ bad :: after), w1) ->
  outcome net (fetchOrderTransactions p bad) = inl e ->
  allDetailed p net (before ++ after) ->
  (exists sched : list nat, fetchOrders p net sched year maxPages w <> None)
  /\ forall (sched : list nat) (r : exn + list Order.t) (w' : World.t),
       fetchOrders p net sched year maxPages w = Some (r, w') ->
       exists (result : list Order.t) (delta : list logged),
         r = inr result
         /\ S (length result) = length (before ++ bad :: after)
         /\ Permutation result (detailed p net (before ++ after))
         /\ World.log w' = World.log w1 ++ delta
         /\ errorsLogged delta = [e]
         /\ (p = WalmartProvider -> delta = [LogError e]).
Proof.
  intros Hlist Hbad Hothers. split; [apply fetchOrders_returns|].
  intros sched r w' Hrun.
  destruct (@fetchOrders_result net p sched year maxPages w w1 _ r w' Hlist Hrun)
    as (result & -> & Hperm & (delta & Hlog & Herr & Hw) & _).
  assert (Hdetailed : detailed p net (before ++ bad :: after)
                      = detailed p net (before ++ after)).
  { rewrite !detailed_app. unfold detailed at 2. cbn [flat_map].
    now rewrite Hbad. }
  assert (Herrors : detailErrors p net (before ++ bad :: after) = [e]).
  { apply Forall_app in Hothers as [Hb Ha].
    rewrite detailErrors_app. unfold detailErrors at 2. cbn [flat_map].
    rewrite Hbad.
    fold (detailErrors p net after).
    destruct (@allDetailed_length net p _ Hb) as [_ ->].
    destruct (@allDetailed_length net p _ Ha) as [_ ->]. reflexivity. }
  rewrite Hdetailed in Hperm. rewrite Herrors in Herr.
  apply Permutation_sym, Permutation_length_1_inv in Herr.
  exists result, delta. repeat split; auto.
  - rewrite (Permutation_length Hperm).
    destruct (@allDetailed_length net p _ Hothers) as [-> _].
    rewrite !length_app. simpl. lia.
  - intros Hp. specialize (Hw Hp). now rewrite Herr in Hw.
Qed.

(** Thirteen orders on Amazon, the detail page of the eighth cannot be
    fetched: twelve orders come back and the log holds one error. *)
Lemma one_failed_fetch_witness :
  exists (result : list Order.t) (w' : World.t),
    fetchOrders AmazonProvider (amazon_shop (Some 7)) taking_turns None None
      World.empty = Some (inr result, w')
    /\ length result = 12
    /\ errorsLogged (World.log w') = [TypeError "Failed to fetch"].
Proof.
  assert (Hrun : exists r w',
             fetchOrders AmazonProvider (amazon_shop (Some 7)) taking_turns
               None None World.empty = Some (r, w'))
    by (eexists; eexists; vm_compute; reflexivity).
  destruct Hrun as (r & w' & Hrun).
  destruct (@one_failed_fetch_drops_one_order AmazonProvider
              (amazon_shop (Some 7)) None None World.empty
              (snd (run (amazon_shop (Some 7))
                      (listOrders AmazonProvider None None) World.empty))
              (map amazonOrder (seq 0 7)) (map amazonOrder (seq 8 5))
              (amazonOrder 7) (TypeError "Failed to fetch"))
    as [_ Hall].
  - vm_compute. reflexivity.
  - vm_compute. reflexivity.
  - repeat (constructor; [eexists; vm_compute; reflexivity|]). constructor.
  - destruct (Hall taking_turns r w' Hrun)
      as (result & delta & -> & Hlen & _ & Hlog & Herr & _).
    exists result, w'. split; [exact Hrun|]. split.
    + rewrite length_app in Hlen. cbn [length] in Hlen.
      rewrite !length_map, !length_seq in Hlen. lia.
    + rewrite Hlog. unfold errorsLogged in *. rewrite flat_map_app, Herr.
      vm_compute. reflexivity.
Defined.

(** C4, as amended.  [fetchOrders] fetches the listing pages one after the
    other in page order 1..N, page i from the second on with
    [startIndex = (i-1)*10], and concatenates their orders in page order.
    On Amazon N is read off the pagination control of the first page (it is
    at least 1) and there is no [maxPages]; on Walmart N is 1 whenever
    [maxPages] is absent or at least 1, so only the first page is fetched.
    When the listing gives at least one order and every detail fetch
    succeeds, every schedule that finishes the tasks returns as many orders
    as were listed, and the last progress callback reports
    [complete = total =] that number. *)
Theorem listing_pages_in_order
        (p : provider) (net : network) (year maxPages : option Z)
        (page : Z -> document) (w : World.t) :
  let endPage := pageCount p (page 1%Z) maxPages in
  let orders := flat_map (fun i => listed p (page i)) (pageNumbers endPage) in
  (forall i, In i (pageNumbers endPage) -> servesPage net p year i (page i)) ->
  fst (run net (listOrders p year maxPages) w) = inr orders
  /\ World.requests (snd (run net (listOrders p year maxPages) w))
     = World.requests w ++ map (pageUrl p year) (pageNumbers endPage)
  /\ ((1 <= endPage)%Z ->
      pageNumbers endPage = map Z.of_nat (seq 1 (Z.to_nat endPage)))
  /\ (forall i : Z, (2 <= i)%Z ->
        exists front back : string,
          pageUrl p year i
          = (front ++ "startIndex=" ++ string_of_Z ((i - 1) * 10) ++ back)%string)
  /\ (p = AmazonProvider -> (1 <= endPage)%Z)
  /\ (p = WalmartProvider ->
      maxPages = None \/ (exists m, maxPages = Some m /\ (1 <= m)%Z) ->
      endPage = 1%Z)
  /\ (orders <> [] ->
      allDetailed p net orders ->
      (exists sched : list nat, fetchOrders p net sched year maxPages w <> None)
      /\ forall (sched : list nat) (r : exn + list Order.t) (w' : World.t),
           fetchOrders p net sched year maxPages w = Some (r, w') ->
           exists result : list Order.t,
             r = inr result
             /\ length result = length orders
             /\ finalProgress w'
                  {| ProgressState.phase := orderDownload p;
                     ProgressState.total := lengthZ orders;
                     ProgressState.complete := lengthZ orders |}).
Proof.
  intros endPage orders Hpages.
  destruct (@listOrders_pages net p year maxPages page w Hpages)
    as (Hout & Hreq).
  fold endPage in Hout, Hreq. fold orders in Hout.
  split; [exact Hout|]. split; [exact Hreq|]. split; [|split; [|split; [|split]]].
  - intros Hend. unfold pageNumbers, pagesFrom2.
    replace (Z.to_nat endPage) with (S (Z.to_nat endPage - 1)) at 2 by lia.
    reflexivity.
  - intros i Hi. assert (Hne : (i =? 1)%Z = false) by lia.
    destruct p; cbn [pageUrl]; rewrite Hne.
    + exists (Amazon.ORDER_PAGES_URL ++ "&")%string, (Amazon.timeFilter year).
      reflexivity.
    + exists (Walmart.ORDER_PAGES_URL ++ "?")%string,
        (match truthyYear year with
         | Some y => "&timeFilter=year-" ++ string_of_Z y
         | None => EmptyString
         end)%string.
      reflexivity.
  - intros ->. apply amazon_endPageOf_positive.
  - intros -> Hmax. now apply walmart_endPageOf_one.
  - intros Hne Hall. split; [apply fetchOrders_returns|].
    intros sched r w' Hrun.
    assert (Hlist : run net (listOrders p year maxPages) w
                    = (inr orders, snd (run net (listOrders p year maxPages) w))).
    { rewrite <- Hout. apply surjective_pairing. }
    destruct (@fetchOrders_result net p sched year maxPages w _ orders r w'
                Hlist Hrun) as (result & -> & Hperm & _ & Hup).
    destruct (Hup Hne) as ((earlier & Hprogress) & Hresult).
    destruct (@allDetailed_length net p orders Hall) as (Hlen & _).
    assert (Hcount : length result = length orders)
      by (now rewrite (Permutation_length Hperm)).
    exists result. split; [reflexivity|]. split; [exact Hcount|].
    exists earlier. rewrite Hprogress, Hresult.
    unfold downloadProgress, lengthZ. now rewrite Hcount.
Qed.

(** The scenario of the claim on Amazon: a listing of two pages, ten orders
    on the first and three on the second, every detail page resolving. *)
Lemma listing_pages_witness :
  World.requests
    (snd (run (amazon_shop None) (listOrders AmazonProvider None None)
            World.empty))
  = [Amazon.ORDER_PAGES_URL; (Amazon.ORDER_PAGES_URL ++ "&startIndex=10")%string]
  /\ exists (result : list Order.t) (w' : World.t),
       fetchOrders AmazonProvider (amazon_shop None) taking_turns None None
         World.empty = Some (inr result, w')
       /\ length result = 13
       /\ finalProgress w'
            {| ProgressState.phase := AmazonOrderDownload;
               ProgressState.total := 13;
               ProgressState.complete := 13 |}.
Proof.
  pose (page := fun i : Z =>
                  if (i =? 1)%Z then amazon_page 0 10 else amazon_page 10 3).
  assert (Hrun : exists r w',
             fetchOrders AmazonProvider (amazon_shop None) taking_turns
               None None World.empty = Some (r, w'))
    by (eexists; eexists; vm_compute; reflexivity).
  destruct Hrun as (r & w' & Hrun).
  assert (Hcount : pageCount AmazonProvider (page 1%Z) None = 2%Z)
    by (vm_compute; reflexivity).
  assert (Horders : flat_map (fun i => listed AmazonProvider (page i))
                      (pageNumbers 2)
                    = map amazonOrder (seq 0 13))
    by (vm_compute; reflexivity).
  pose proof (@listing_pages_in_order AmazonProvider (amazon_shop None)
                None None page World.empty) as T.
  cbv zeta in T. rewrite Hcount, Horders in T.
  destruct T as (_ & Hreq & _ & _ & _ & _ & Hdetails).
  - intros i Hi. vm_compute in Hi.
    destruct Hi as [<-|[<-|[]]]; eexists; split; vm_compute; reflexivity.
  - split; [rewrite Hreq; vm_compute; reflexivity|].
    destruct Hdetails as (_ & Hall).
    + discriminate.
    + cbn [map seq].
      repeat (constructor; [eexists; vm_compute; reflexivity|]). constructor.
    + destruct (Hall taking_turns r w' Hrun) as (result & -> & Hlen & Hfinal).
      exists result, w'. split; [exact Hrun|].
      rewrite length_map, length_seq in Hlen. split; [exact Hlen|].
      unfold lengthZ in Hfinal. rewrite length_map, length_seq in Hfinal.
      exact Hfinal.
Defined.

(** C4 as stated fails on Walmart: called with [maxPages = 2] on a listing
    of two pages, ten orders on the first and three on the second, it fetches
    the first page only and its last progress callback reports 10 of 10. *)
Lemma listing_pages_counterexample :
  ~ twoPageScenario WalmartProvider walmart_shop taking_turns.
Proof.
  intros (result & w' & Hrun & _ & (earlier & Hprogress)).
  vm_compute in Hrun. injection Hrun as _ Hw. subst w'.
  apply (f_equal (fun l => List.last l
                             {| ProgressState.phase := Idle;
                                ProgressState.total := 0;
                                ProgressState.complete := 0 |}))
    in Hprogress.
  rewrite last_last in Hprogress. vm_compute in Hprogress. discriminate.
Qed.

(* ------------------------------------------------------------------ *)
(** * Further properties of the providers *)

Import EdgeSamples.

(** X1.  The identifier of an Amazon card is the value of the [orderID]
    parameter of its link: when the [href] reads [P orderID=ID R] on one
    line, with [ID] not empty and free of [&] and [#], [R] empty or starting
    with one of the two, and no [orderID=] after that one, the card gives
    [ID]. *)
Theorem amazon_id_is_the_orderID_parameter
        (doc : document) (el : path) (P : string) (c : ascii) (ID R : string) :
  linkOf AmazonProvider doc el
  = Some (P ++ "orderID=" ++ String c ID ++ R)%string ->
  every notLineTerminator (P ++ "orderID=" ++ String c ID ++ R) = true ->
  notAmpHash c = true -> every notAmpHash ID = true ->
  stopsAt notAmpHash R = true ->
  includes (String c ID ++ R) "orderID=" = false ->
  Amazon.cardId doc el = Some (String c ID).
Proof.
  intros Hlink Hnl Hc HID HR Hno.
  change (Amazon.cardId doc el) with (entryId AmazonProvider doc el).
  rewrite entryId_linkOf, Hlink. cbn [option_map idRegex].
  now rewrite orderID_regex_captures.
Qed.

(** X2.  The identifier of a Walmart entry is the path segment after
    [orders/] in its return link: when the [href] reads [P orders/ID/R] on
    one line, with [ID] not empty and free of [/], and no [orders/] after
    that one, the entry gives [ID]. *)
Theorem walmart_id_is_the_orders_segment
        (doc : document) (el : path) (P : string) (c : ascii) (ID R : string) :
  linkOf WalmartProvider doc el
  = Some (P ++ "orders/" ++ String c ID ++ "/" ++ R)%string ->
  every notLineTerminator (P ++ "orders/" ++ String c ID ++ "/" ++ R) = true ->
  notSlashChar c = true -> every notSlashChar ID = true ->
  includes (String c ID ++ "/" ++ R) "orders/" = false ->
  Walmart.groupId doc el = Some (String c ID).
Proof.
  intros Hlink Hnl Hc HID Hno.
  change (Walmart.groupId doc el) with (entryId WalmartProvider doc el).
  rewrite entryId_linkOf, Hlink. cbn [option_map idRegex].
  now rewrite orders_regex_captures.
Qed.

(** X3.  A listing entry is skipped exactly when it has no link or its
    link is empty: cutting the identifier out of a link that is not empty
    never leaves an empty identifier.  On Amazon the link of a card names
    an order whenever there is one, so a card is kept exactly when it has
    such a link. *)
Theorem entry_is_kept_iff_it_has_a_link
        (p : provider) (doc : document) (el : path) :
  (recoverable p doc el = true
   <-> exists l : string, linkOf p doc el = Some l /\ l <> EmptyString)
  /\ (p = AmazonProvider ->
      (recoverable p doc el = true <-> linkOf p doc el <> None)).
Proof.
  assert (Hiff : recoverable p doc el = true
                 <-> exists l : string,
                       linkOf p doc el = Some l /\ l <> EmptyString).
  { unfold recoverable. rewrite entryId_linkOf.
    destruct (linkOf p doc el) as [l|]; cbn [option_map Walmart.noId negb].
    - rewrite negb_involutive, truthy_iff. split.
      + intros Hid. exists l. split; [reflexivity|].
        intros ->. apply Hid, replace_by_group1_empty.
      + intros (l' & [= <-] & Hl). now apply replace_by_group1_nonempty.
    - split; [discriminate|]. now intros (l & [=] & _). }
  split; [exact Hiff|].
  intros ->. rewrite Hiff. split.
  - intros (l & -> & _). discriminate.
  - destruct (linkOf AmazonProvider doc el) as [l|] eqn:Hlink; [|congruence].
    intros _. exists l. split; [reflexivity|].
    intros ->. apply amazon_link_names_order in Hlink. discriminate.
Qed.

(** The first card of the sample listing: the link carries the identifier
    between [orderID=] and [&ref]. *)
Lemma amazon_id_witness :
  Amazon.cardId amazon_listing [0] = Some "111-2223334-4445556".
Proof.
  apply (@amazon_id_is_the_orderID_parameter amazon_listing [0]
           "/gp/your-account/order-details?" "1" "11-2223334-4445556" "&ref=ppx");
    vm_compute; reflexivity.
Defined.

(** The first entry of the sample listing, a store purchase. *)
Lemma walmart_id_witness :
  Walmart.groupId walmart_listing [0] = Some "200011223344".
Proof.
  apply (@walmart_id_is_the_orders_segment walmart_listing [0]
           "/" "2" "00011223344" "returns?orderSource=STORE");
    vm_compute; reflexivity.
Defined.

(** X4.  Under every schedule of the tasks, [fetchOrders] requests the
    detail page of every listed order once and nothing else: after the
    listing, the requests are the detail URLs of the listed orders, in the
    order the schedule gives. *)
Theorem every_listed_order_is_requested_once
        (p : provider) (net : network) (sched : list nat)
        (year maxPages : option Z) (w w1 : World.t) (orders : list Order.t)
        (r : exn + list Order.t) (w' : World.t) :
  run net (listOrders p year maxPages) w = (inr orders, w1) ->
  fetchOrders p net sched year maxPages w = Some (r, w') ->
  exists detailRequests : list string,
    World.requests w' = World.requests w1 ++ detailRequests
    /\ Permutation detailRequests (map (detailUrl p) orders).
Proof.
  intros Hlist. rewrite fetchOrders_phases, Hlist. unfold Throttle_all.
  destruct (interleave sched _ _) as [pool' w2] eqn:Hrun.
  destruct (finished pool') eqn:Hfin; [|discriminate].
  rewrite first_error_tasks. intros [= _ <-].
  destruct (interleave_field World.requests requestsOf apply_requests
              _ _ _ Hrun) as (delta & Hfld & Hperm).
  rewrite (finished_flat_map (flat_map requestsOf) pool' eq_refl Hfin),
    app_nil_r, tasks_requests in Hperm.
  exists delta. split; [exact Hfld | exact Hperm].
Qed.

(** Thirteen orders on Amazon, the tasks taking turns: two listing pages
    and thirteen detail pages are requested. *)
Lemma every_listed_order_is_requested_once_witness :
  exists (r : exn + list Order.t) (w' : World.t),
    fetchOrders AmazonProvider (amazon_shop None) taking_turns None None
      World.empty = Some (r, w')
    /\ length (World.requests w') = 15.
Proof.
  assert (Hrun : exists r w',
             fetchOrders AmazonProvider (amazon_shop None) taking_turns
               None None World.empty = Some (r, w'))
    by (eexists; eexists; vm_compute; reflexivity).
  destruct Hrun as (r & w' & Hrun).
  assert (Hlist : exists w1,
             run (amazon_shop None) (listOrders AmazonProvider None None)
               World.empty
             = (inr (map amazonOrder (seq 0 13)), w1)
             /\ length (World.requests w1) = 2)
    by (eexists; split; vm_compute; reflexivity).
  destruct Hlist as (w1 & Hlist & Hpages).
  destruct (@every_listed_order_is_requested_once AmazonProvider
              (amazon_shop None) taking_turns None None World.empty w1
              (map amazonOrder (seq 0 13)) r w' Hlist Hrun)
    as (detailRequests & Hreq & Hperm).
  exists r, w'. split; [exact Hrun|].
  rewrite Hreq, length_app, Hpages, (Permutation_length Hperm),
    !length_map, length_seq.
  reflexivity.
Defined.

(** X5.  The progress callbacks of the download phase, under every
    schedule of the tasks: there is one for each listed order, each reports
    the download phase with [total] the number of listed orders, and
    [complete] starts at zero or more, never decreases and never exceeds
    [total]. *)
Theorem download_progress_never_goes_back
        (p : provider) (net : network) (sched : list nat)
        (year maxPages : option Z) (w w1 : World.t) (orders : list Order.t)
        (r : exn + list Order.t) (w' : World.t) :
  run net (listOrders p year maxPages) w = (inr orders, w1) ->
  fetchOrders p net sched year maxPages w = Some (r, w') ->
  exists callbacks : list ProgressState.t,
    World.progress w' = World.progress w1 ++ callbacks
    /\ length callbacks = length orders
    /\ Forall (fun ps => ProgressState.phase ps = orderDownload p
                         /\ ProgressState.total ps = lengthZ orders) callbacks
    /\ ascends 0 (map ProgressState.complete callbacks) (lengthZ orders).
Proof.
  intros Hlist Hfetch.
  destruct (@fetchOrders_result net p sched year maxPages w w1 orders r w'
              Hlist Hfetch) as (result & _ & Hperm & _).
  revert Hfetch. rewrite fetchOrders_phases, Hlist. unfold Throttle_all.
  destruct (interleave sched _ _) as [pool' w2] eqn:Hrun.
  destruct (finished pool') eqn:Hfin; [|discriminate].
  rewrite first_error_tasks. intros [= Hr <-].
  destruct (@interleave_progress p orders sched _ _ _ _
              (tasks_reportsWith net p orders orders) Hrun)
    as (callbacks & Hprog & Hall & Hasc).
  exists callbacks. split; [exact Hprog|]. split; [|split; [exact Hall|]].
  - assert (Hstep : forall w0 ev,
               flat_map (fun _ => [tt]) (World.progress (apply w0 ev))
               = flat_map (fun _ => [tt]) (World.progress w0)
                 ++ progressTicks ev).
    { intros w0 [url|[v|f|o]]; cbn [apply World.progress progressTicks];
        rewrite ?app_nil_r, ?flat_map_app; reflexivity. }
    destruct (interleave_field _ progressTicks Hstep _ _ _ Hrun)
      as (ticks & Hfld & Hticks).
    rewrite (finished_flat_map (flat_map progressTicks) pool' eq_refl Hfin),
      app_nil_r in Hticks.
    apply Permutation_length in Hticks. rewrite tasks_ticks in Hticks.
    rewrite Hprog in Hfld. cbn [withEmptyResult World.progress] in Hfld.
    rewrite flat_map_app in Hfld. apply app_inv_head in Hfld.
    rewrite <- Hticks, <- Hfld. clear.
    induction callbacks; cbn; auto.
  - cbn [withEmptyResult World.allOrders lengthZ length] in Hasc.
    eapply ascends_upper; [|exact Hasc].
    assert (Hlen : length (World.allOrders w2) <= length orders).
    { destruct (Throttle_all_tasks net p orders sched w1 (r := inr tt) (w' := w2))
        as (_ & Hp & _).
      - unfold Throttle_all. now rewrite Hrun, Hfin, first_error_tasks.
      - rewrite (Permutation_length Hp). unfold detailed. clear.
        induction orders as [|o os IH]; cbn [flat_map length]; auto.
        rewrite length_app.
        destruct (outcome net (fetchOrderTransactions p o)); cbn [length]; lia. }
    unfold lengthZ. lia.
Qed.

(** Thirteen orders on Amazon, the eighth failing, the tasks taking turns:
    thirteen callbacks, the last with twelve of thirteen. *)
Lemma download_progress_witness :
  exists (r : exn + list Order.t) (w' : World.t)
         (callbacks : list ProgressState.t),
    fetchOrders AmazonProvider (amazon_shop (Some 7)) taking_turns None None
      World.empty = Some (r, w')
    /\ World.progress w'
       = map (scanProgress AmazonProvider 2) [0; 1; 2]%Z ++ callbacks
    /\ length callbacks = 13
    /\ ascends 0 (map ProgressState.complete callbacks) 13.
Proof.
  assert (Hrun : exists r w',
             fetchOrders AmazonProvider (amazon_shop (Some 7)) taking_turns
               None None World.empty = Some (r, w'))
    by (eexists; eexists; vm_compute; reflexivity).
  destruct Hrun as (r & w' & Hrun).
  assert (Hlist : exists w1,
             run (amazon_shop (Some 7)) (listOrders AmazonProvider None None)
               World.empty
             = (inr (map amazonOrder (seq 0 13)), w1)
             /\ World.progress w1
                = map (scanProgress AmazonProvider 2) [0; 1; 2]%Z)
    by (eexists; split; vm_compute; reflexivity).
  destruct Hlist as (w1 & Hlist & Hscan).
  destruct (@download_progress_never_goes_back AmazonProvider
              (amazon_shop (Some 7)) taking_turns None None World.empty w1
              (map amazonOrder (seq 0 13)) r w' Hlist Hrun)
    as (callbacks & Hprog & Hlen & _ & Hasc).
  exists r, w', callbacks. split; [exact Hrun|].
  rewrite Hprog, Hscan. split; [reflexivity|].
  unfold lengthZ in Hasc. rewrite length_map, length_seq in Hlen, Hasc.
  split; [exact Hlen | exact Hasc].
Defined.

(** X6.  The scan of the listing, when every page is served: apart from the
    log, it requests page 1, reports 0 of N and 1 of N, and for every page
    from the second on requests the page and reports it once it is read.
    The callbacks received are [complete = 0, 1, ..., N] of [total = N] in
    the phase of the page scan, and nothing is pushed to the result. *)
Theorem page_scan_reports_every_page
        (p : provider) (net : network) (year maxPages : option Z)
        (page : Z -> document) (w : World.t) :
  let endPage := pageCount p (page 1%Z) maxPages in
  (forall i, In i (pageNumbers endPage) -> servesPage net p year i (page i)) ->
  visible (trace net (listOrders p year maxPages))
  = Requested (pageUrl p year 1)
    :: Did (OnProgress (fun _ => scanProgress p endPage 0))
    :: Did (OnProgress (fun _ => scanProgress p endPage 1))
    :: flat_map (pageEvents p year endPage) (pagesFrom2 endPage)
  /\ World.progress (snd (run net (listOrders p year maxPages) w))
     = World.progress w
       ++ map (scanProgress p endPage) (0%Z :: pageNumbers endPage)
  /\ World.allOrders (snd (run net (listOrders p year maxPages) w))
     = World.allOrders w.
Proof.
  intros endPage Hpages.
  destruct (@listOrders_first_served net p year maxPages (page 1%Z)
              (Hpages 1%Z (or_introl eq_refl))) as (_ & Hvis).
  fold endPage in Hvis.
  destruct (@morePages_prefix net p year endPage page (pagesFrom2 endPage) []
              (listed p (page 1%Z))) as (_ & Hmore).
  { intros i Hi. split; [apply pagesFrom2_range in Hi; lia|].
    apply Hpages. now right. }
  rewrite app_nil_r in Hmore. rewrite Hmore in Hvis.
  assert (Hlast : forall orders,
             visible (trace net (morePages p year endPage [] orders)) = [])
    by (intros orders; destruct p; reflexivity).
  rewrite Hlast, app_nil_r in Hvis.
  split; [exact Hvis|].
  destruct (@run_visible net _ (listOrders p year maxPages) w)
    as (_ & Hprog & Hall).
  - rewrite Hvis. cbn [flat_map pushesOf app].
    rewrite flat_map_compose. apply flat_map_nil. reflexivity.
  - split; [|exact Hall].
    rewrite Hprog, Hvis. cbn [flat_map progressOf app map pageNumbers].
    rewrite flat_map_compose.
    assert (Hmap : forall pages : list Z,
               flat_map
                 (fun i => flat_map (progressOf (World.allOrders w))
                             (pageEvents p year endPage i)) pages
               = map (scanProgress p endPage) pages).
    { induction pages as [|i l IH]; [reflexivity|]. cbn. now f_equal. }
    now rewrite Hmap.
Qed.

(** The two pages of the Amazon shop: three callbacks, 0, 1 and 2 of 2. *)
Lemma page_scan_witness :
  World.progress
    (snd (run (amazon_shop None) (listOrders AmazonProvider None None)
            World.empty))
  = map (scanProgress AmazonProvider 2) [0; 1; 2]%Z.
Proof.
  pose (page := fun i : Z =>
                  if (i =? 1)%Z then amazon_page 0 10 else amazon_page 10 3).
  assert (Hcount : pageCount AmazonProvider (page 1%Z) None = 2%Z)
    by (vm_compute; reflexivity).
  pose proof (@page_scan_reports_every_page AmazonProvider (amazon_shop None)
                None None page World.empty) as T.
  cbv zeta in T. rewrite Hcount in T.
  destruct T as (_ & Hprog & _).
  - intros i Hi. vm_compute in Hi.
    destruct Hi as [<-|[<-|[]]]; eexists; split; vm_compute; reflexivity.
  - rewrite Hprog. vm_compute. reflexivity.
Defined.

(** X7.  A listing page that cannot be had ends the whole call: when the
    pages before page [k] are served and page [k] is rejected or its body
    cannot be read, [fetchOrders] throws that error under every schedule,
    having requested the listing pages up to [k] and no detail page; the
    orders of the pages already read are not returned. *)
Theorem listing_failure_ends_the_call
        (p : provider) (net : network) (year maxPages : option Z)
        (page : Z -> document) (w : World.t)
        (before after : list Z) (k : Z) (e : exn) :
  let endPage := pageCount p (page 1%Z) maxPages in
  pageNumbers endPage = before ++ k :: after ->
  (forall i, In i before -> servesPage net p year i (page i)) ->
  failsPage net p year k e ->
  exists w' : World.t,
    (forall sched : list nat,
        fetchOrders p net sched year maxPages w = Some (inl e, w'))
    /\ World.requests w'
       = World.requests w ++ map (pageUrl p year) (before ++ [k])
    /\ World.allOrders w' = World.allOrders w.
Proof.
  intros endPage Hsplit Hserved Hfail.
  exists (snd (run net (listOrders p year maxPages) w)).
  assert (Hlist : outcome net (listOrders p year maxPages) = inl e
                  /\ flat_map requestsOf
                       (visible (trace net (listOrders p year maxPages)))
                     = map (pageUrl p year) (before ++ [k])
                  /\ flat_map pushesOf
                       (visible (trace net (listOrders p year maxPages)))
                     = []).
  { unfold pageNumbers in Hsplit. destruct before as [|b before'].
    - injection Hsplit as <- _.
      destruct (@listOrders_first_fails net p year maxPages e Hfail)
        as (-> & ->).
      repeat split.
    - injection Hsplit as <- Hrest.
      destruct (@listOrders_first_served net p year maxPages (page 1%Z)
                  (Hserved 1%Z (or_introl eq_refl))) as (-> & ->).
      fold endPage. rewrite Hrest.
      assert (Hin : forall i, In i (before' ++ k :: after) -> (i =? 1)%Z = false).
      { intros i Hi. rewrite <- Hrest in Hi. apply pagesFrom2_range in Hi. lia. }
      destruct (@morePages_prefix net p year endPage page before' (k :: after)
                  (listed p (page 1%Z))) as (-> & ->).
      { intros i Hi. split; [apply Hin, in_or_app; now left|].
        apply Hserved. now right. }
      destruct (@morePages_fails net p year k e endPage after
                  (listed p (page 1%Z)
                   ++ flat_map (fun i => listed p (page i)) before'))
        as (-> & ->); auto.
      { apply Hin, in_or_app. right. now left. }
      split; [reflexivity|].
      cbn [flat_map requestsOf pushesOf app map].
      rewrite !flat_map_app, !flat_map_compose, map_app.
      cbn [flat_map requestsOf pushesOf app map]. split.
      + reflexivity.
      + rewrite app_nil_r. apply flat_map_nil. reflexivity. }
  destruct Hlist as (Hout & Hreq & Hpush).
  destruct (@run_visible net _ (listOrders p year maxPages) w Hpush)
    as (Hrequests & _ & Hall).
  split; [|split; [now rewrite Hrequests, Hreq | exact Hall]].
  intros sched. rewrite fetchOrders_phases. unfold run. now rewrite Hout.
Qed.

(** The Amazon shop when only its first listing page can be had: the second
    page fails, the call throws, two requests were made. *)
Lemma listing_failure_witness :
  exists w' : World.t,
    (forall sched : list nat,
        fetchOrders AmazonProvider
          (serve Amazon.ORDER_PAGES_URL (amazon_page 0 10)) sched None None
          World.empty
        = Some (inl (TypeError "Failed to fetch"), w'))
    /\ length (World.requests w') = 2
    /\ World.allOrders w' = [].
Proof.
  pose (page := fun _ : Z => amazon_page 0 10).
  assert (Hcount : pageCount AmazonProvider (page 1%Z) None = 2%Z)
    by (vm_compute; reflexivity).
  pose proof (@listing_failure_ends_the_call AmazonProvider
                (serve Amazon.ORDER_PAGES_URL (amazon_page 0 10)) None None
                page World.empty [1%Z] [] 2%Z (TypeError "Failed to fetch"))
    as T.
  cbv zeta in T. rewrite Hcount in T.
  destruct T as (w' & Hfetch & Hreq & Hall).
  - vm_compute. reflexivity.
  - intros i [<-|[]]. eexists. split; vm_compute; reflexivity.
  - left. vm_compute. reflexivity.
  - exists w'. split; [exact Hfetch|]. split; [|exact Hall].
    rewrite Hreq. reflexivity.
Defined.

(** X8.  The Walmart provider scans one listing page, whatever [maxPages]
    and whatever the network answers: the page count starts at one and
    [maxPages] can only lower it, so no page after the first is requested.
    The total it reports is one, unless [maxPages] is negative and is
    reported as it is. *)
Theorem walmart_scans_one_listing_page
        (net : network) (year maxPages : option Z) (w : World.t) :
  World.requests (snd (run net (Walmart.listOrders year maxPages) w))
  = World.requests w ++ [pageUrl WalmartProvider year 1]
  /\ (Walmart.endPageOf maxPages = 1%Z
      \/ exists m : Z,
           maxPages = Some m /\ (m < 0)%Z /\ Walmart.endPageOf maxPages = m).
Proof.
  assert (Hend : Walmart.endPageOf maxPages = 1%Z
                 \/ exists m : Z,
                      maxPages = Some m /\ (m < 0)%Z
                      /\ Walmart.endPageOf maxPages = m).
  { destruct maxPages as [m|]; [|now left]. cbn [Walmart.endPageOf].
    destruct (Z.eqb_spec m 0) as [->|Hm0]; [now left|].
    destruct (Z.ltb_spec m 1) as [Hlt|Hge]; cbn [negb andb]; [|now left].
    right. exists m. repeat split; lia. }
  split; [|exact Hend].
  assert (Hpages : pagesFrom2 (Walmart.endPageOf maxPages) = []).
  { unfold pagesFrom2.
    replace (Z.to_nat (Walmart.endPageOf maxPages) - 1) with 0; [reflexivity|].
    destruct Hend as [->|(m & _ & Hm & ->)]; lia. }
  change (Walmart.listOrders year maxPages)
    with (listOrders WalmartProvider year maxPages).
  rewrite run_requests, <- (flat_map_visible requestsOf) by reflexivity.
  f_equal.
  destruct (net (pageUrl WalmartProvider year 1)) as [e|res] eqn:Hnet.
  - destruct (@listOrders_first_fails net WalmartProvider year maxPages e)
      as (_ & ->); [now left | reflexivity].
  - destruct (Response.text res) as [e|doc] eqn:Htext.
    + destruct (@listOrders_first_fails net WalmartProvider year maxPages e)
        as (_ & ->); [right; eauto | reflexivity].
    + destruct (@listOrders_first_served net WalmartProvider year maxPages doc)
        as (_ & ->); [exists res; auto|].
      cbn [pageCount]. rewrite Hpages. reflexivity.
Qed.

(** X9.  What [fetchOrders] returns, under every schedule of the tasks:
    every order of the result is a listed order, with the identifier, the
    date and the store flag the listing gave it and with transactions that
    all carry its identifier; no more orders come back than were listed. *)
Theorem returned_orders_are_listed_orders
        (p : provider) (net : network) (sched : list nat)
        (year maxPages : option Z) (w w1 : World.t) (orders : list Order.t)
        (r : exn + list Order.t) (w' : World.t) :
  run net (listOrders p year maxPages) w = (inr orders, w1) ->
  fetchOrders p net sched year maxPages w = Some (r, w') ->
  exists result : list Order.t,
    r = inr result
    /\ length result <= length orders
    /\ Forall
         (fun o =>
            exists (order : Order.t) (txs : list OrderTransaction.t),
              In order orders
              /\ o = withTransactions order txs
              /\ Forall (fun tx => OrderTransaction.id tx = Order.id order) txs)
         result.
Proof.
  intros Hlist Hfetch.
  destruct (@fetchOrders_result net p sched year maxPages w w1 orders r w'
              Hlist Hfetch) as (result & -> & Hperm & _).
  exists result. split; [reflexivity|]. split.
  - rewrite (Permutation_length Hperm). apply detailed_length.
  - pose proof (detailed_shape net p orders) as Hshape.
    rewrite Forall_forall in *. intros o Ho.
    apply Hshape. eapply Permutation_in; eauto.
Qed.

(** Thirteen orders on Amazon, the eighth failing: every order that comes
    back has its transactions. *)
Lemma returned_orders_witness :
  exists (result : list Order.t) (w' : World.t),
    fetchOrders AmazonProvider (amazon_shop (Some 7)) taking_turns None None
      World.empty = Some (inr result, w')
    /\ length result <= 13
    /\ Forall (fun o => Order.transactions o <> None) result.
Proof.
  assert (Hrun : exists r w',
             fetchOrders AmazonProvider (amazon_shop (Some 7)) taking_turns
               None None World.empty = Some (r, w'))
    by (eexists; eexists; vm_compute; reflexivity).
  destruct Hrun as (r & w' & Hrun).
  assert (Hlist : exists w1,
             run (amazon_shop (Some 7)) (listOrders AmazonProvider None None)
               World.empty
             = (inr (map amazonOrder (seq 0 13)), w1))
    by (eexists; vm_compute; reflexivity).
  destruct Hlist as (w1 & Hlist).
  destruct (@returned_orders_are_listed_orders AmazonProvider
              (amazon_shop (Some 7)) taking_turns None None World.empty w1
              (map amazonOrder (seq 0 13)) r w' Hlist Hrun)
    as (result & -> & Hlen & Hall).
  exists result, w'. split; [exact Hrun|].
  rewrite length_map, length_seq in Hlen. split; [exact Hlen|].
  eapply Forall_impl; [|exact Hall].
  intros o (order & txs & _ & -> & _). discriminate.
Defined.

(** X10.  When the tasks run one after the other, [fetchOrders] returns
    the orders in the order of the listing: the listed orders whose detail
    fetch succeeds, each with its transactions.  (Under another schedule
    the same orders come back in the order the tasks end.) *)
Theorem one_by_one_keeps_the_listing_order
        (p : provider) (net : network) (year maxPages : option Z)
        (w w1 : World.t) (orders : list Order.t) :
  run net (listOrders p year maxPages) w = (inr orders, w1) ->
  exists w' : World.t,
    fetchOrders p net
      (one_by_one 0 (map (trace net) (map (processOrder p orders) orders)))
      year maxPages w
    = Some (inr (detailed p net orders), w').
Proof.
  intros Hlist. rewrite fetchOrders_phases, Hlist. unfold Throttle_all.
  pose proof (@interleave_one_by_one
                (map (trace net) (map (processOrder p orders) orders)) []
                (withEmptyResult w1)) as Hrun.
  cbn [length app] in Hrun. rewrite Hrun, finished_map_nil, first_error_tasks.
  eexists. f_equal. f_equal. f_equal.
  rewrite fold_apply_allOrders, flat_map_concat, tasks_pushes.
  reflexivity.
Qed.

(** The first listing page of the Walmart shop: ten orders, each served
    the sample detail page. *)
Lemma one_by_one_witness :
  exists w' : World.t,
    fetchOrders WalmartProvider walmart_shop
      (one_by_one 0
         (map (trace walmart_shop)
            (map (processOrder WalmartProvider
                    (listed WalmartProvider (walmart_page 0 10)))
               (listed WalmartProvider (walmart_page 0 10)))))
      None None World.empty
    = Some (inr (detailed WalmartProvider walmart_shop
                   (listed WalmartProvider (walmart_page 0 10))), w').
Proof.
  assert (Hlist : exists w1,
             run walmart_shop (listOrders WalmartProvider None None) World.empty
             = (inr (listed WalmartProvider (walmart_page 0 10)), w1))
    by (eexists; vm_compute; reflexivity).
  destruct Hlist as (w1 & Hlist).
  exact (@one_by_one_keeps_the_listing_order WalmartProvider walmart_shop
           None None World.empty w1 _ Hlist).
Defined.


(** X11.  Amazon's amounts are never negative: every transaction of a
    detail page, a refund too, has an amount that is NaN, positive infinity
    or a rational of zero or more, and so has the price of every item.  The
    direction of a refund is in its [refund] flag only. *)
Theorem amazon_amounts_are_never_negative
        (net : network) (order o : Order.t) (txs : list OrderTransaction.t) :
  outcome net (Amazon.fetchOrderTransactions order) = inr o ->
  Order.transactions o = Some txs ->
  Forall
    (fun tx =>
       notNegative (OrderTransaction.amount tx)
       /\ Forall (fun item => notNegative (Item.price item))
            (OrderTransaction.items tx))
    txs.
Proof.
  unfold Amazon.fetchOrderTransactions. cbn [outcome bind fetch debugLog].
  destruct (net _) as [e|res]; cbn [outcome bind]; [discriminate|].
  unfold load_text. destruct (Response.text res) as [e|doc];
    cbn [outcome bind]; [discriminate|].
  rewrite outcome_bind.
  destruct (outcome net (Amazon.transactions order doc)) as [e|txs'] eqn:Htxs;
    [discriminate|].
  cbn [outcome]. intros [= <-]. cbn [Order.transactions]. intros [= <-].
  pose proof (amazon_transactions_amounts _ _ _ Htxs) as Hamounts.
  pose proof (amazon_transactions_items _ _ _ Htxs) as Hitems.
  rewrite Forall_forall in *. intros tx Htx. split; [auto|].
  rewrite (Hitems tx Htx), Forall_forall.
  intros item Hitem.
  pose proof (amazon_items_prices doc) as Hprices.
  rewrite Forall_forall in Hprices. auto.
Qed.

(** The sample detail page: a shipment of 32.49 and a refund of 21.00. *)
Lemma amazon_amounts_witness :
  exists (o : Order.t) (txs : list OrderTransaction.t),
    outcome (serve (detailUrl AmazonProvider amazon_order) amazon_detail)
      (Amazon.fetchOrderTransactions amazon_order) = inr o
    /\ map OrderTransaction.refund txs = [false; true]
    /\ Forall (fun tx => notNegative (OrderTransaction.amount tx)) txs.
Proof.
  assert (Hrun : exists o txs,
             outcome (serve (detailUrl AmazonProvider amazon_order) amazon_detail)
               (Amazon.fetchOrderTransactions amazon_order) = inr o
             /\ Order.transactions o = Some txs
             /\ map OrderTransaction.refund txs = [false; true])
    by (eexists; eexists; split; [|split]; vm_compute; reflexivity).
  destruct Hrun as (o & txs & Hout & Htxs & Hrefund).
  exists o, txs. split; [exact Hout|]. split; [exact Hrefund|].
  pose proof (@amazon_amounts_are_never_negative _ amazon_order o txs Hout Htxs)
    as Hall.
  eapply Forall_impl; [|exact Hall]. now intros tx [Hamount _].
Defined.

(** X12.  One option of the year filter that includes [year] and reads as
    no number makes [startingYear] NaN, whatever years the other options
    carry: [Math.min] gives NaN as soon as one argument is NaN. *)
Theorem one_unreadable_year_gives_NaN
        (p : provider) (net : network) (w : World.t)
        (res : Response.t) (doc : document) (value : string) :
  net (authUrl p) = inr res ->
  Response.text res = inr doc ->
  ~ holds doc (markerParts p) ->
  In value (optionValues doc) ->
  yearValued value = true ->
  yearOf value = NaN ->
  fst (run net (probeAuth p) w)
  = inr {| AuthInfo.status := Success; AuthInfo.startingYear := Some NaN |}.
Proof.
  intros Hnet Htext Hmark Hin Hyear HNaN.
  rewrite (probe_page net w p Hnet Htext), signInMarker_parts.
  rewrite (not_holds_select Hmark). cbn [length Nat.ltb Nat.leb].
  rewrite yearOptions_nodes, Math_min_NaN; [reflexivity|].
  destruct (optionValues_nodes _ _ Hin) as (n & Hn & Hattr).
  apply in_map_iff. exists (Some (replace (trim value) "year-" EmptyString)).
  split; [exact HNaN|]. apply in_flat_map. exists n. split; [exact Hn|].
  unfold pushedBy, shownValue. rewrite Hattr, Hyear. now left.
Qed.

(** A filter with the options [year-2024], [yearly] and [year-2019]. *)
Lemma one_unreadable_year_witness :
  fst (run (serve Amazon.ORDER_PAGES_URL history_with_yearly)
         (probeAuth AmazonProvider) World.empty)
  = inr {| AuthInfo.status := Success; AuthInfo.startingYear := Some NaN |}.
Proof.
  apply (@one_unreadable_year_gives_NaN AmazonProvider
           (serve Amazon.ORDER_PAGES_URL history_with_yearly) World.empty
           {| Response.status := 200; Response.text := inr history_with_yearly |}
           history_with_yearly "yearly").
  - vm_compute. reflexivity.
  - reflexivity.
  - intros Hholds. apply holds_select in Hholds. apply Hholds.
    vm_compute. reflexivity.
  - vm_compute. auto.
  - vm_compute. reflexivity.
  - vm_compute. reflexivity.
Defined.

(** X13.  Amazon's page count is the largest of one and the numbers the
    entries of the pagination control read as: it is at least one, no entry
    reads as more, and it is one or the number of an entry.  An entry that
    reads as no number ([Next], an ellipsis) counts for nothing. *)
Theorem amazon_page_count_is_the_largest_entry (doc : document) :
  Amazon.endPageOf doc = fold_left Z.max (paginationNumbers doc) 1%Z
  /\ (1 <= Amazon.endPageOf doc)%Z
  /\ Forall (fun n => (n <= Amazon.endPageOf doc)%Z) (paginationNumbers doc)
  /\ (Amazon.endPageOf doc = 1%Z
      \/ In (Amazon.endPageOf doc) (paginationNumbers doc)).
Proof.
  assert (Heq : Amazon.endPageOf doc
                = fold_left Z.max (paginationNumbers doc) 1%Z)
    by apply endPageOf_fold.
  rewrite Heq. split; [reflexivity|].
  apply fold_max_bounds.
Qed.


(** X14.  One row of the payment details that says [Items shipped] without
    the label [shipped:] makes the detail fetch of an Amazon order throw:
    the piece after the label is undefined, and calling [trim] on it is a
    TypeError.  The transactions of the other rows are lost with it. *)
Theorem amazon_row_without_its_label_throws
        (net : network) (order : Order.t) (res : Response.t)
        (doc : document) (el : path) :
  net (detailUrl AmazonProvider order) = inr res ->
  Response.text res = inr doc ->
  In el (paymentRows doc) ->
  includes (rowLine doc el) "Items shipped" = true ->
  includes (rowLine doc el) "shipped:" = false ->
  exists reading : string,
    outcome net (Amazon.fetchOrderTransactions order)
    = inl (undefinedRead reading).
Proof.
  intros Hnet Htext Hin Hrow Hno.
  rewrite (amazon_fetchOrderTransactions_page net order Hnet Htext).
  unfold Amazon.transactions. rewrite outcome_bind.
  destruct (@outcome_each_throws net _
              (fun e => exists reading, e = undefinedRead reading)
              (Amazon.detailRow order (Amazon.items doc) doc)
              (paymentRows doc) el) as (e & He & reading & ->).
  - intros el' e. apply detailRow_errors.
  - exact Hin.
  - eexists. now apply detailRow_without_label.
  - unfold paymentRows in He. rewrite He. now exists reading.
Qed.

(** A detail page whose second row reads [Items shipped on May 2, 2024]. *)
Lemma amazon_row_without_its_label_witness :
  exists reading : string,
    outcome (serve (detailUrl AmazonProvider amazon_order)
               amazon_detail_without_label)
      (Amazon.fetchOrderTransactions amazon_order)
    = inl (undefinedRead reading).
Proof.
  apply (@amazon_row_without_its_label_throws
           (serve (detailUrl AmazonProvider amazon_order)
              amazon_detail_without_label)
           amazon_order
           {| Response.status := 200;
              Response.text := inr amazon_detail_without_label |}
           amazon_detail_without_label [1; 1]).
  - vm_compute. reflexivity.
  - reflexivity.
  - vm_compute. auto.
  - vm_compute. reflexivity.
  - vm_compute. reflexivity.
Defined.

(** X15.  The detail fetch of a Walmart order throws only when the page
    cannot be had: when the request is rejected or the body cannot be read,
    with that error.  Reading the items and the transactions off a page
    never throws, whatever the page holds. *)
Theorem walmart_detail_fetch_throws_only_without_a_page
        (net : network) (order : Order.t) (e : exn) :
  outcome net (Walmart.fetchOrderTransactions order) = inl e
  <-> failsDetail net WalmartProvider order e.
Proof.
  unfold Walmart.fetchOrderTransactions, failsDetail. cbn [detailUrl].
  cbn [outcome bind fetch].
  destruct (net (Walmart.orderUrl order)) as [e'|res]; cbn [outcome bind].
  - split.
    + intros [= <-]. now left.
    + intros [[= <-]|(res & [=] & _)]. reflexivity.
  - unfold load_text. destruct (Response.text res) as [e'|doc] eqn:Htext;
      cbn [outcome bind]; split.
    + intros [= <-]. right. eauto.
    + intros [[=]|(res' & [= <-] & Htext')]. congruence.
    + discriminate.
    + intros [[=]|(res' & [= <-] & Htext')]. congruence.
Qed.

(** X16.  The auth probe makes one request, to the order history of the
    provider, whatever the network answers; it reports no progress and
    pushes no order. *)
Theorem auth_probe_makes_one_request
        (p : provider) (net : network) (w : World.t) :
  World.requests (snd (run net (probeAuth p) w))
  = World.requests w ++ [authUrl p]
  /\ World.progress (snd (run net (probeAuth p) w)) = World.progress w
  /\ World.allOrders (snd (run net (probeAuth p) w)) = World.allOrders w.
Proof.
  assert (Hvis : visible (trace net (probeAuth p)) = [Requested (authUrl p)]).
  { destruct p; cbn [probeAuth authUrl];
      unfold Amazon.checkAmazonAuth, Walmart.doCheckAuth;
      rewrite trace_try_catch;
      cbn [trace outcome bind fetch debugLog];
      (destruct (net _) as [e|res]; cbn [trace outcome bind];
       [|unfold load_text; destruct (Response.text res) as [e|doc];
         cbn [trace outcome bind];
         [|match goal with |- context [0 <? ?n] => destruct (0 <? n) end]]);
      reflexivity. }
  destruct (@run_visible net _ (probeAuth p) w) as (Hreq & Hprog & Hall).
  - now rewrite Hvis.
  - rewrite Hreq, Hprog, Hall, Hvis. cbn. now rewrite app_nil_r.
Qed.

(** X17.  The detail page of a Walmart order is requested at
    [https://www.walmart.com/orders/ID?storePurchase=FLAG], where [FLAG] is
    [true] for a store purchase and [false] otherwise, an order without the
    flag too; this for an identifier without [$] and without a brace, which
    [replace] would take for a substitution pattern or a placeholder. *)
Theorem walmart_detail_url (order : Order.t) :
  every plainIdChar (Order.id order) = true ->
  Walmart.orderUrl order
  = ("https://www.walmart.com/orders/" ++ Order.id order ++ "?storePurchase="
     ++ match Order.walmartStorePurchase order with
        | Some true => "true"
        | _ => "false"
        end)%string.
Proof.
  intros Hid.
  assert (Hdollar : every (fun c => negb (Ascii.eqb c "$")) (Order.id order) = true).
  { eapply every_impl; [|exact Hid]. intros c. unfold plainIdChar.
    destruct (Ascii.eqb c "$"); [discriminate | reflexivity]. }
  assert (Hbrace : every (fun c => negb (Ascii.eqb c "{")) (Order.id order) = true).
  { eapply every_impl; [|exact Hid]. intros c. unfold plainIdChar.
    destruct (Ascii.eqb c "{"); [now rewrite orb_true_r | reflexivity]. }
  unfold Walmart.orderUrl, Walmart.ORDER_DETAILS_URL.
  change "https://www.walmart.com/orders/{orderID}?storePurchase={storePurchase}"
    with ("https://www.walmart.com/orders/" ++ "{orderID}"
          ++ "?storePurchase={storePurchase}")%string.
  rewrite replace_first by (vm_compute; reflexivity).
  rewrite substitution_plain by exact Hdollar.
  change "?storePurchase={storePurchase}"
    with ("?storePurchase=" ++ "{storePurchase}" ++ EmptyString)%string.
  assert (Hshape :
            ("https://www.walmart.com/orders/" ++ Order.id order
             ++ "?storePurchase=" ++ "{storePurchase}" ++ EmptyString)%string
            = (("https://www.walmart.com/orders/" ++ Order.id order
                ++ "?storePurchase=") ++ "{storePurchase}" ++ EmptyString)%string)
    by (now rewrite !append_assoc).
  rewrite Hshape, replace_first.
  - rewrite !append_assoc, append_empty.
    now destruct (Order.walmartStorePurchase order) as [[]|].
  - rewrite !every_app, Hbrace. vm_compute. reflexivity.
Qed.

(** The sample order, bought online. *)
Lemma walmart_detail_url_witness :
  Walmart.orderUrl walmart_order
  = "https://www.walmart.com/orders/200011223344?storePurchase=false".
Proof.
  rewrite (@walmart_detail_url walmart_order); vm_compute; reflexivity.
Defined.

(** X18.  Amazon's amounts stop at a thousands separator: [moneyToNumber]
    removes the dollar sign, white space and the minus sign and leaves the
    comma, where [parseFloat] stops reading; the amount is the value of the
    digits before the first comma. *)
Theorem amazon_amount_stops_at_a_comma
        (i : Decimal.uint) (rest money : string) :
  i <> Decimal.Nil ->
  JsString.filter (fun c => negb (Amazon.stripped true c)) money
  = (NilEmpty.string_of_uint i ++ "," ++ rest)%string ->
  Amazon.moneyToNumber (Some money) true
  = Finite (literalValue false i Decimal.Nil).
Proof.
  intros Hi Hmoney. cbn [Amazon.moneyToNumber]. rewrite Hmoney.
  unfold parseFloat.
  assert (Hhead : sign (trimStart (NilEmpty.string_of_uint i ++ "," ++ rest))
                  = (false, (NilEmpty.string_of_uint i ++ "," ++ rest)%string)
                  /\ startsWith (NilEmpty.string_of_uint i ++ "," ++ rest)
                       "Infinity" = false).
  { destruct i; [contradiction|..]; split; reflexivity. }
  destruct Hhead as [-> ->].
  change 0%Z with (Z.of_nat 0).
  rewrite digits_string_of_uint by reflexivity.
  cbn [String.append]. cbv beta iota.
  rewrite (nb_digits_pos Hi). cbn [andb exponent Ascii.eqb Bool.eqb orb].
  unfold literalValue. f_equal. apply Qred_complete.
  unfold Qeq, pow10. cbn.
  now rewrite !Z.mul_1_r, Z.add_0_r.
Qed.

(** A total of a thousand and eight dollars reads as one. *)
Lemma amazon_amount_stops_at_a_comma_witness :
  Amazon.moneyToNumber (Some "$1,008.47") true = Finite 1.
Proof.
  rewrite (@amazon_amount_stops_at_a_comma (Decimal.D1 Decimal.Nil)
             "008.47" "$1,008.47");
    [vm_compute; reflexivity | discriminate | vm_compute; reflexivity].
Defined.

(** X19.  Walmart's dates: a heading that starts with a month word, a day
    of two digits and a year of four digits, as in [May 04, 2024], followed
    by [ purchase], gives that date to the order; on a detail page the date
    is read the same way before [ order] or [ purchase]. *)
Theorem walmart_date_is_read
        (month : string) (c d1 d2 y1 y2 y3 y4 : ascii) (rest : string) :
  isWordChar c = true -> every isWordChar month = true ->
  isDigit d1 = true -> isDigit d2 = true ->
  isDigit y1 = true -> isDigit y2 = true ->
  isDigit y3 = true -> isDigit y4 = true ->
  let date := walmartDate (String c month) d1 d2 y1 y2 y3 y4 in
  Walmart.dateOf Walmart.purchase_regex (date ++ " purchase" ++ rest) = date
  /\ Walmart.dateOf Walmart.order_or_purchase_regex (date ++ " order" ++ rest)
     = date
  /\ Walmart.dateOf Walmart.order_or_purchase_regex
       (date ++ " purchase" ++ rest) = date.
Proof.
  intros Hc Hmonth H1 H2 H3 H4 H5 H6 date.
  assert (Hgroup : forall tail,
             firstRun Walmart.date_group ((date ++ tail)%string, [])
               (tail, [(1, date)]))
    by (intros tail; now apply date_group_first).
  unfold Walmart.dateOf.
  split; [|split].
  - erewrite exec_first.
    2:{ unfold Walmart.purchase_regex. eapply firstRun_Seq; [apply Hgroup|].
        apply firstRun_Lit. }
    reflexivity.
  - erewrite exec_first.
    2:{ unfold Walmart.order_or_purchase_regex.
        eapply firstRun_Seq; [apply Hgroup|].
        change (" order" ++ rest)%string with (" " ++ "order" ++ rest)%string.
        eapply firstRun_Seq; [apply firstRun_Lit|].
        apply firstRun_Group. apply firstRun_Alt_left, firstRun_Lit. }
    reflexivity.
  - erewrite exec_first.
    2:{ unfold Walmart.order_or_purchase_regex.
        eapply firstRun_Seq; [apply Hgroup|].
        change (" purchase" ++ rest)%string
          with (" " ++ "purchase" ++ rest)%string.
        eapply firstRun_Seq; [apply firstRun_Lit|].
        apply firstRun_Group. apply firstRun_Alt_right; [|apply firstRun_Lit].
        rewrite run_Lit. reflexivity. }
    reflexivity.
Qed.

(** The heading of the first entry of the sample listing, trimmed. *)
Lemma walmart_date_witness :
  Walmart.dateOf Walmart.purchase_regex "May 04, 2024 purchase"
  = "May 04, 2024".
Proof.
  apply (@walmart_date_is_read "ay" "M" "0" "4" "2" "0" "2" "4" EmptyString);
    vm_compute; reflexivity.
Defined.

(** X20.  The only errors [fetchOrders] throws are those of the listing:
    under every schedule, the call ends with the error [e] exactly when the
    scan of the listing pages ends with [e].  An error of a detail fetch
    stays inside the task of its order, so once the listing is read the
    call returns. *)
Theorem fetchOrders_throws_only_listing_errors
        (p : provider) (net : network) (sched : list nat)
        (year maxPages : option Z) (w w' : World.t) (e : exn) :
  fetchOrders p net sched year maxPages w = Some (inl e, w')
  <-> run net (listOrders p year maxPages) w = (inl e, w').
Proof.
  rewrite fetchOrders_phases.
  destruct (run net (listOrders p year maxPages) w) as [[e1|orders] w1] eqn:Hlist.
  - split; intros [= <- <-]; reflexivity.
  - split; [|discriminate].
    destruct (Throttle_all net sched _ _) as [[r w2]|] eqn:Hall; [|discriminate].
    destruct (Throttle_all_tasks net p orders sched w1 Hall) as (-> & _).
    discriminate.
Qed.

(** X21.  A row of Amazon's payment details that reads
    [... shipped: D - M $ A] (a shipment) or [... : Completed D - M $ A]
    (a refund), the label occurring once, [D], [M] and [A] without a dash
    and [M] and [A] without a dollar sign, gives one transaction: its date
    is [D] trimmed, its amount is [A] read by [moneyToNumber], its refund
    flag tells a refund from a shipment, and it carries the identifier of
    the order and the items of the page. *)
Theorem amazon_row_is_read
        (net : network) (order : Order.t) (items : list Item.t)
        (doc : document) (el : path) (refund : bool)
        (pre rest D M A : string) :
  rowKind (rowLine doc el) = Some refund ->
  rowLine doc el = (pre ++ rowLabel refund ++ rest)%string ->
  firstOccurrence pre (rowLabel refund) rest = true ->
  includes rest (rowLabel refund) = false ->
  trim rest = (D ++ "-" ++ M ++ "$" ++ A)%string ->
  every (notChar "-") (D ++ M ++ A) = true ->
  every (notChar "$") (M ++ A) = true ->
  outcome net (Amazon.detailRow order items doc el)
  = inr [{| OrderTransaction.id := Order.id order;
            OrderTransaction.amount := Amazon.moneyToNumber (Some A) true;
            OrderTransaction.date := trim D;
            OrderTransaction.refund := refund;
            OrderTransaction.items := items |}].
Proof.
  intros Hkind Hline Hfirst Hno Htrim Hminus Hdollar.
  unfold Amazon.detailRow. fold (rowLine doc el).
  unfold rowKind in Hkind.
  destruct (includes (rowLine doc el) "Items shipped").
  - injection Hkind as <-. rewrite Hline.
    now apply dateAndAmountOf_reads with (M := M).
  - destruct (includes (rowLine doc el) "Refund: Completed"); [|discriminate].
    injection Hkind as <-. rewrite Hline.
    now apply dateAndAmountOf_reads with (M := M).
Qed.

(** The two rows of the sample detail page: a shipment paid by card and a
    refund. *)
Lemma amazon_row_witness :
  map (fun tx => (OrderTransaction.date tx, OrderTransaction.amount tx,
                  OrderTransaction.refund tx))
    (match outcome offline
             (Amazon.detailRow amazon_order [] amazon_detail [3; 0]) with
     | inr txs => txs
     | inl _ => []
     end)
  = [("May 2, 2024", Finite (3249 # 100), false)].
Proof.
  rewrite (@amazon_row_is_read offline amazon_order [] amazon_detail [3; 0]
             false "Items " " May 2, 2024 - Visa ending in 1234: $32.49"
             "May 2, 2024 " " Visa ending in 1234: " "32.49");
    vm_compute; reflexivity.
Defined.

(** X22.  A Walmart return link that holds no [orders/] is taken whole for
    the identifier of the order: the pattern does not match, [replace]
    leaves the link as it is, and the entry is listed under that
    identifier when the link is not empty. *)
Theorem walmart_link_without_orders_is_the_id
        (doc : document) (el : path) (link : string) :
  Walmart.returnLinkOf doc el = Some link ->
  includes link "orders/" = false ->
  Walmart.groupId doc el = Some link
  /\ (link <> EmptyString -> recoverable WalmartProvider doc el = true).
Proof.
  intros Hlink Hno.
  assert (Hid : Walmart.groupId doc el = Some link).
  { unfold Walmart.groupId. rewrite Hlink. cbn [option_map]. f_equal.
    unfold replace_by_group1, exec, Walmart.orders_regex.
    now rewrite exec_go_misses. }
  split; [exact Hid|].
  intros Hne. unfold recoverable. cbn [entryId]. rewrite Hid.
  cbn [Walmart.noId]. rewrite negb_involutive. now apply truthy_iff.
Qed.

(** An entry whose return link reads [/account/returns?order=...]. *)
Lemma walmart_link_without_orders_witness :
  map Order.id (listed WalmartProvider walmart_listing_other_link)
  = ["/account/returns?order=200011223344"].
Proof.
  destruct (@walmart_link_without_orders_is_the_id walmart_listing_other_link
              [0] "/account/returns?order=200011223344") as [Hid _];
    [vm_compute; reflexivity | vm_compute; reflexivity |].
  rewrite listed_ids. unfold recoveredIds.
  assert (Hentries : entries WalmartProvider walmart_listing_other_link = [[0]])
    by (vm_compute; reflexivity).
  rewrite Hentries. cbn [flat_map entryId]. rewrite Hid. reflexivity.
Defined.

(** X23.  The items of a detail page: a tile without a title gives no
    item, so every item has a title that is not empty, and the title is
    stored trimmed.  Walmart's items carry the identifier of the order and
    a [refunded] flag; Amazon's carry neither. *)
Theorem items_have_trimmed_titles
        (p : provider) (order : Order.t) (doc : document) :
  Forall
    (fun item =>
       Item.title item <> EmptyString
       /\ trim (Item.title item) = Item.title item
       /\ match p with
          | AmazonProvider =>
              Item.orderId item = None /\ Item.refunded item = None
          | WalmartProvider =>
              Item.orderId item = Some (Order.id order)
              /\ Item.refunded item <> None
          end)
    (extractedItems p order doc).
Proof.
  destruct p; cbn [extractedItems]; unfold Amazon.items, Walmart.items;
    apply Forall_flat_map, Forall_forall; intros el _;
    match goal with
    | |- context [JsString.truthy ?t] => destruct (JsString.truthy t) eqn:Ht
    end; repeat constructor; cbn [Item.title Item.orderId Item.refunded];
    try (now apply truthy_iff); try apply trim_trim; discriminate.
Qed.

(** X24.  The last word of the progress callback: when the listing gives
    no order, the download phase sends no callback; otherwise, under every
    schedule, the last callback reports the number of orders returned as
    [complete] and the number of orders listed as [total], so it stays
    below [total] when a detail fetch has failed. *)
Theorem last_progress_reports_the_result
        (p : provider) (net : network) (sched : list nat)
        (year maxPages : option Z) (w w1 : World.t) (orders : list Order.t)
        (r : exn + list Order.t) (w' : World.t) :
  run net (listOrders p year maxPages) w = (inr orders, w1) ->
  fetchOrders p net sched year maxPages w = Some (r, w') ->
  exists result : list Order.t,
    r = inr result
    /\ (orders = [] -> result = [] /\ World.progress w' = World.progress w1)
    /\ (orders <> [] ->
        finalProgress w'
          {| ProgressState.phase := orderDownload p;
             ProgressState.total := lengthZ orders;
             ProgressState.complete := lengthZ result |}).
Proof.
  intros Hlist Hfetch.
  destruct (@fetchOrders_result net p sched year maxPages w w1 orders r w'
              Hlist Hfetch) as (result & -> & _ & _ & Hlast).
  exists result. split; [reflexivity|]. split.
  - intros ->. revert Hfetch. rewrite fetchOrders_phases, Hlist.
    unfold Throttle_all. cbn [map]. rewrite interleave_nil.
    cbn [finished forallb first_error]. intros [= <- <-]. split; reflexivity.
  - intros Hne. destruct (Hlast Hne) as [[earlier Hup] Hall].
    exists earlier. rewrite Hup, Hall. reflexivity.
Qed.

(** Thirteen orders on Amazon, the eighth failing: the last callback says
    twelve of thirteen. *)
Lemma last_progress_witness :
  exists (result : list Order.t) (w' : World.t),
    fetchOrders AmazonProvider (amazon_shop (Some 7)) taking_turns None None
      World.empty = Some (inr result, w')
    /\ finalProgress w'
         {| ProgressState.phase := AmazonOrderDownload;
            ProgressState.total := 13;
            ProgressState.complete := lengthZ result |}.
Proof.
  assert (Hrun : exists r w',
             fetchOrders AmazonProvider (amazon_shop (Some 7)) taking_turns
               None None World.empty = Some (r, w'))
    by (eexists; eexists; vm_compute; reflexivity).
  destruct Hrun as (r & w' & Hrun).
  assert (Hlist : exists w1,
             run (amazon_shop (Some 7)) (listOrders AmazonProvider None None)
               World.empty
             = (inr (map amazonOrder (seq 0 13)), w1))
    by (eexists; vm_compute; reflexivity).
  destruct Hlist as (w1 & Hlist).
  destruct (@last_progress_reports_the_result AmazonProvider
              (amazon_shop (Some 7)) taking_turns None None World.empty w1
              (map amazonOrder (seq 0 13)) r w' Hlist Hrun)
    as (result & -> & _ & Hlast).
  exists result, w'. split; [exact Hrun|].
  apply Hlast. discriminate.
Defined.

(** X25.  A schedule of the tasks changes the order of things and nothing
    else: two schedules that let [fetchOrders] finish either both throw the
    same error of the listing, leaving the same world, or both return, and
    then the orders returned, the requests made and the log written are
    the same up to their order, and as many progress callbacks are sent. *)
Theorem schedule_changes_only_the_order
        (p : provider) (net : network) (year maxPages : option Z)
        (w : World.t) (sched1 sched2 : list nat)
        (r1 r2 : exn + list Order.t) (w1 w2 : World.t) :
  fetchOrders p net sched1 year maxPages w = Some (r1, w1) ->
  fetchOrders p net sched2 year maxPages w = Some (r2, w2) ->
  match r1, r2 with
  | inl e1, inl e2 => e1 = e2 /\ w1 = w2
  | inr result1, inr result2 =>
      Permutation result1 result2
      /\ Permutation (World.requests w1) (World.requests w2)
      /\ Permutation (World.log w1) (World.log w2)
      /\ length (World.progress w1) = length (World.progress w2)
  | _, _ => False
  end.
Proof.
  rewrite !fetchOrders_phases.
  destruct (run net (listOrders p year maxPages) w) as [[e|orders] w0].
  - intros [= <- <-] [= <- <-]. split; reflexivity.
  - destruct (Throttle_all net sched1 _ _) as [[u1 v1]|] eqn:H1; [|discriminate].
    destruct (Throttle_all net sched2 _ _) as [[u2 v2]|] eqn:H2; [|discriminate].
    destruct (Throttle_all_tasks net p orders sched1 w0 H1) as (-> & _).
    destruct (Throttle_all_tasks net p orders sched2 w0 H2) as (-> & _).
    intros [= <- <-] [= <- <-].
    split; [|split; [|split]].
    + exact (Throttle_all_same_field net World.allOrders pushesOf _ _ _ _
               apply_allOrders H1 H2).
    + exact (Throttle_all_same_field net World.requests requestsOf _ _ _ _
               apply_requests H1 H2).
    + exact (Throttle_all_same_field net World.log logsOf _ _ _ _
               apply_log H1 H2).
    + pose proof (Throttle_all_same_field net _ progressTicks _ _ _ _
                    apply_ticks H1 H2) as Hticks.
      apply Permutation_length in Hticks. now rewrite !length_ticks in Hticks.
Qed.

(** The Amazon shop with the eighth order failing, the tasks taking turns
    from the first to the last and from the last to the first. *)
Lemma schedule_witness :
  exists (result1 result2 : list Order.t) (w1 w2 : World.t),
    fetchOrders AmazonProvider (amazon_shop (Some 7)) taking_turns None None
      World.empty = Some (inr result1, w1)
    /\ fetchOrders AmazonProvider (amazon_shop (Some 7))
         (rev taking_turns) None None World.empty = Some (inr result2, w2)
    /\ Permutation result1 result2
    /\ map Order.id result1 <> map Order.id result2.
Proof.
  assert (Hrun1 : exists result1 w1,
             fetchOrders AmazonProvider (amazon_shop (Some 7)) taking_turns
               None None World.empty = Some (inr result1, w1)
             /\ hd_error (map Order.id result1) = Some (amazonId 0))
    by (eexists; eexists; split; vm_compute; reflexivity).
  assert (Hrun2 : exists result2 w2,
             fetchOrders AmazonProvider (amazon_shop (Some 7))
               (rev taking_turns) None None World.empty
             = Some (inr result2, w2)
             /\ hd_error (map Order.id result2) = Some (amazonId 12))
    by (eexists; eexists; split; vm_compute; reflexivity).
  destruct Hrun1 as (result1 & w1 & Hrun1 & Hfirst1).
  destruct Hrun2 as (result2 & w2 & Hrun2 & Hfirst2).
  pose proof (@schedule_changes_only_the_order AmazonProvider
                (amazon_shop (Some 7)) None None World.empty
                taking_turns (rev taking_turns) _ _ w1 w2 Hrun1 Hrun2)
    as (Hperm & _).
  exists result1, result2, w1, w2.
  split; [exact Hrun1|]. split; [exact Hrun2|]. split; [exact Hperm|].
  intros Heq. rewrite Heq, Hfirst2 in Hfirst1.
  revert Hfirst1. vm_compute. discriminate.
Defined.
